(** * TubeWise: the text pipeline of the AI service

    A shallow embedding of the text-processing core of
    [tubewise-mcp/services/ai-service]: the chunker and the generative
    summarizer of [openai_summarizer.py], the summary agent of
    [improved_summary_agent.py], the frequency summarizer and the video-id
    extractor of [simple_app.py], the relevance scorers of [api_server.py]
    and [chat_agent_improved.py], the transcript fetchers of [api_server.py]
    and [improved_transcript_agent.py], and the comparison fallback of
    [video_comparison.py]; further the key-point extractors of
    [openai_summarizer.py], [improved_summary_agent.py] and [api_server.py],
    the extractive fallback of [openai_summarizer.py], the word and
    timestamp helpers of [simple_app.py], and the video id, the timestamps
    and the timeline suggestions of [api_server.py].

    Conventions.
    - A Python [str] is a list of characters; a character is a code point in
      0..255 ([ascii]), and the character classes below are Python's on that
      range.
    - A Python [int] is a [Z]; [len] is [Z.of_nat (length _)].
    - A Python [float] is a binary64 number, the kernel's [float], with
      the interpreter's [//], [%] and [int] on it; the relevance scores,
      quotients of two small whole numbers, are exact rationals.
    - The completion endpoint, the transcript source and the JSON decoder are
      external: they are parameters of the functions that call them. *)

From Stdlib Require Import Ascii String DecimalString List ZArith Bool Lia Arith QArith Qround.
From Stdlib Require Import Permutation.
From Stdlib Require DecimalPos Floats Uint63 Sorted.
Import ListNotations.

Local Open Scope Z_scope.
Local Open Scope list_scope.

(** ** Python strings *)

Module PyStr.

Definition text := list ascii.

(** String literals: [s2l "abc"] is the text abc. *)
Definition s2l (s : string) : text := list_ascii_of_string s.

Definition code (c : ascii) : N := N_of_ascii c.

Definition in_range (lo hi : N) (c : ascii) : bool :=
  (N.leb lo (code c) && N.leb (code c) hi)%bool.

Definition is_char (d c : ascii) : bool := Ascii.eqb c d.

(** [ch.isspace()], also what [\s] matches and what [str.split()] and
    [str.strip()] cut at: TAB..CR, FS..US, space, NEL and NBSP. *)
Definition isspace (c : ascii) : bool :=
  (in_range 9 13 c || in_range 28 32 c || N.eqb (code c) 133 || N.eqb (code c) 160)%bool.

Definition is_upper_az (c : ascii) : bool := in_range 65 90 c.   (* [A-Z] *)
Definition is_lower_az (c : ascii) : bool := in_range 97 122 c.  (* [a-z] *)
Definition is_digit (c : ascii) : bool := in_range 48 57 c.      (* [0-9] *)

(** [\w] on a [str] pattern: alphanumeric code points and the underscore. *)
Definition is_word_char (c : ascii) : bool :=
  (is_upper_az c || is_lower_az c || is_digit c || is_char "_" c
   || N.eqb (code c) 170 || N.eqb (code c) 178 || N.eqb (code c) 179
   || N.eqb (code c) 181 || N.eqb (code c) 185 || N.eqb (code c) 186
   || in_range 188 190 c || in_range 192 214 c || in_range 216 246 c
   || in_range 248 255 c)%bool.

Definition nl : ascii := "010"%char.

Fixpoint text_eqb (a b : text) : bool :=
  match a, b with
  | [], [] => true
  | x :: a', y :: b' => (Ascii.eqb x y && text_eqb a' b')%bool
  | _, _ => false
  end.

(** [len(s)] *)
Definition len {A} (l : list A) : Z := Z.of_nat (length l).

(** A non-empty string or list is truthy. *)
Definition truthy {A} (l : list A) : bool :=
  match l with [] => false | _ :: _ => true end.

(** *** [str.split()] : cut at runs of whitespace, no empty word *)

Definition push (w : text) (ws : list text) : list text :=
  if truthy w then w :: ws else ws.

(** The word being read at the head of the text, and the words after it. *)
Fixpoint tokens (s : text) : text * list text :=
  match s with
  | [] => ([], [])
  | c :: s' =>
      let (w, ws) := tokens s' in
      if isspace c then ([], push w ws) else (c :: w, ws)
  end.

Definition split (s : text) : list text :=
  let (w, ws) := tokens s in push w ws.

(** *** [sep.join(parts)] *)

Fixpoint join (sep : text) (parts : list text) : text :=
  match parts with
  | [] => []
  | [p] => p
  | p :: rest => p ++ sep ++ join sep rest
  end.

(** *** [str.split(sep)] for a non-empty separator: every occurrence of
    [sep], left to right and without overlap, ends a piece. *)

Fixpoint starts_with (p s : text) : bool :=
  match p, s with
  | [], _ => true
  | x :: p', y :: s' => (Ascii.eqb y x && starts_with p' s')%bool
  | _ :: _, [] => false
  end.

(** Puts [c] in front of the first piece. *)
Definition cons_head (c : ascii) (pieces : list text) : list text :=
  match pieces with
  | [] => [[c]]
  | p :: ps => (c :: p) :: ps
  end.

(** [skip] counts the characters of a separator still to be dropped. *)
Fixpoint split_on_from (sep s : text) (skip : nat) : list text :=
  match s with
  | [] => [[]]
  | c :: s' =>
      match skip with
      | S k => split_on_from sep s' k
      | O =>
          if starts_with sep s
          then [] :: split_on_from sep s' (Nat.pred (length sep))
          else cons_head c (split_on_from sep s' 0)
      end
  end.

Definition split_on (sep s : text) : list text := split_on_from sep s 0.

(** *** [re.split] on a pattern that matches one character, possibly under
    look-behind assertions: [cut before c] says whether the character [c]
    matches when [before] holds the characters in front of it, the nearest
    first. *)

Fixpoint re_split_from (cut : text -> ascii -> bool) (before s : text) : list text :=
  match s with
  | [] => [[]]
  | c :: s' =>
      if cut before c
      then [] :: re_split_from cut (c :: before) s'
      else cons_head c (re_split_from cut (c :: before) s')
  end.

Definition re_split (cut : text -> ascii -> bool) (s : text) : list text :=
  re_split_from cut [] s.

(** *** [str.strip()] *)

Fixpoint lstrip (s : text) : text :=
  match s with
  | [] => []
  | c :: s' => if isspace c then lstrip s' else s
  end.

Definition rstrip (s : text) : text := rev (lstrip (rev s)).
Definition strip (s : text) : text := rstrip (lstrip s).

(** [ch.lower()] *)
Definition lower_char (c : ascii) : ascii :=
  if (is_upper_az c || (in_range 192 222 c && negb (N.eqb (code c) 215)))%bool
  then ascii_of_N (code c + 32)
  else c.

(** [s.lower()] *)
Definition lower (s : text) : text := map lower_char s.

(** [s[:n]] for a bound [n] that is not negative. *)
Definition up_to (n : Z) (s : text) : text := firstn (Z.to_nat n) s.

End PyStr.
Import PyStr.

(** ** The chunker ([openai_summarizer.py], [OpenAISummarizer]) *)

Module Chunker.

(** The sentence boundary of [_split_into_chunks] and [_simple_summarize]:
    [(?<!\.\w.)(?<![A-Z][a-z]\.)(?<=\.|\?|\!)\s]. *)
Definition sentence_boundary (before : text) (c : ascii) : bool :=
  (isspace c &&
   match before with
   | c1 :: rest =>
       (is_char "." c1 || is_char "?" c1 || is_char "!" c1) &&
       match rest with
       | c2 :: c3 :: _ =>
           negb (is_char "." c3 && is_word_char c2 && negb (is_char nl c1)) &&
           negb (is_upper_az c3 && is_lower_az c2 && is_char "." c1)
       | _ => true
       end
   | [] => false
   end)%bool.

(** The [for unit in units] loop of [_combine_units], with its three
    variables. *)
Fixpoint combine_loop (chunk_size : Z) (units : list text)
    (chunks current_chunk : list text) (current_size : Z) : list text :=
  match units with
  | [] =>
      if truthy current_chunk
      then chunks ++ [join (s2l " ") current_chunk]
      else chunks
  | unit :: rest =>
      let unit_size := len (split unit) in
      if current_size + unit_size <=? chunk_size
      then combine_loop chunk_size rest chunks (current_chunk ++ [unit])
             (current_size + unit_size)
      else
        let chunks' :=
          if truthy current_chunk
          then chunks ++ [join (s2l " ") current_chunk]
          else chunks in
        combine_loop chunk_size rest chunks' [unit] unit_size
  end.

Definition _combine_units (units : list text) (chunk_size : Z) : list text :=
  combine_loop chunk_size units [] [] 0.

(** The units [_split_into_chunks] packs: paragraphs, or sentences when
    there are fewer than three paragraphs. *)
Definition units_of (t : text) : list text :=
  let paragraphs := split_on [nl; nl] t in
  if len paragraphs <? 3
  then re_split sentence_boundary t
  else paragraphs.

Definition _split_into_chunks (t : text) (chunk_size : Z) : list text :=
  let paragraphs := split_on [nl; nl] t in
  if len paragraphs <? 3
  then
    let sentences := re_split sentence_boundary t in
    _combine_units sentences chunk_size
  else _combine_units paragraphs chunk_size.

End Chunker.

(** ** Effects: the completion endpoint, sleeping, exceptions *)

Module Effects.

(** The exceptions the modelled code raises or catches. *)
Inductive exn : Type :=
| APIError                                  (* the completion call, or reading its reply *)
| RecursionError                            (* the interpreter's recursion limit *)
| TranscriptError (message : text)          (* the transcript source *)
| JSONDecodeError                           (* [json.loads], or a reply of the wrong shape *)
| IndexError                                (* [l[0]] on an empty list *)
| HTTPException (status_code : Z) (detail : text)
| Failure (message : text).                 (* [Exception(message)] *)

(** [openai.chat.completions.create(model=, messages=[system, user],
    max_tokens=, temperature=, response_format=)]. *)
Record request : Type := {
  model : text;
  system_content : text;
  user_content : text;
  max_tokens : Z;
  temperature : Q;
  response_format : option text
}.

(** What a run does to the outside, in order. *)
Inductive event : Type :=
| Completion (r : request)
| Sleep (seconds : Z).

Definition trace := list event.

Definition is_completion (e : event) : bool :=
  match e with Completion _ => true | Sleep _ => false end.

Definition completions (tr : trace) : nat := length (filter is_completion tr).

Definition sleeps (tr : trace) : list Z :=
  flat_map (fun e => match e with Sleep s => [s] | Completion _ => [] end) tr.

Inductive outcome (A : Type) : Type :=
| Return (a : A)
| Raise (e : exn).
Arguments Return {A} a.
Arguments Raise {A} e.

(** A computation reads the trace so far and extends it. *)
Definition M (A : Type) : Type := trace -> outcome A * trace.

Definition ret {A} (a : A) : M A := fun tr => (Return a, tr).

Definition raise {A} (e : exn) : M A := fun tr => (Raise e, tr).

Definition bind {A B} (m : M A) (k : A -> M B) : M B :=
  fun tr =>
    match m tr with
    | (Return a, tr') => k a tr'
    | (Raise e, tr') => (Raise e, tr')
    end.

(** [try: body  except Exception as e: handler] *)
Definition try_except {A} (body : M A) (handler : exn -> M A) : M A :=
  fun tr =>
    match body tr with
    | (Return a, tr') => (Return a, tr')
    | (Raise e, tr') => handler e tr'
    end.

Definition emit (e : event) : M unit := fun tr => (Return tt, tr ++ [e]).

(** [time.sleep(seconds)] *)
Definition sleep (seconds : Z) : M unit := emit (Sleep seconds).

(** The completion endpoint: the reply to the [n]-th request of a run, or
    [None] when the call (or reading [choices[0].message.content]) fails. *)
Definition endpoint := nat -> request -> option text.

Definition create (api : endpoint) (r : request) : M text :=
  fun tr =>
    match api (completions tr) r with
    | Some content => (Return content, tr ++ [Completion r])
    | None => (Raise APIError, tr ++ [Completion r])
    end.

(** [range(n)] *)
Definition range (n : nat) : list Z := map Z.of_nat (seq 0 n).

(** [str(e)] for an exception raised with a message; the text of the
    others is not modelled. *)
Definition str_of_exn (e : exn) : text :=
  match e with
  | TranscriptError message => message
  | Failure message => message
  | _ => []
  end.

(** [str(n)] for an integer. *)
Definition str_of_Z (n : Z) : text :=
  s2l (NilZero.string_of_int (Z.to_int n)).

End Effects.
Import Effects.

Declare Scope py_scope.
Notation "x <- m ;; k" := (bind m (fun x => k))
  (at level 61, m at next level, right associativity) : py_scope.
Notation "m ;;; k" := (bind m (fun _ => k))
  (at level 61, right associativity) : py_scope.
Local Open Scope py_scope.

(** ** The generative summarizer ([openai_summarizer.py]) *)

Module OpenAISummarizer.
Import Chunker.

Section WithEndpoint.

Variable api : endpoint.

(** [_simple_summarize(text, max_words)], the extractive fallback of this
    class. It weighs sentences with binary floating-point numbers and
    raises nothing; the summarizer only passes its result on. *)
Variable _simple_summarize : text -> Z -> text.

Definition gpt : text := s2l "gpt-3.5-turbo-16k".

Definition summarize_prompt (t : text) : text :=
  join [nl]
    [ s2l "Please provide a comprehensive yet concise summary of the following text. ";
      s2l "            The summary should capture the main points and key insights from the entire text.";
      s2l "            Focus on the most important information and ensure the summary gives a complete overview.";
      s2l "            ";
      s2l "            TEXT TO SUMMARIZE:";
      s2l "            " ++ t;
      s2l "            ";
      s2l "            SUMMARY:" ].

Definition summarize_request (t : text) (max_length : Z) : request :=
  {| model := gpt;
     system_content := s2l "You are an expert video summarizer. Create concise, informative summaries that capture the essence of content.";
     user_content := summarize_prompt t;
     max_tokens := max_length * 4;
     temperature := 1 # 2;
     response_format := None |}.

Definition final_summary_prompt (combined_summary : text) : text :=
  join [nl]
    [ s2l "Below are summaries of different parts of a text.";
      s2l "            Please create a comprehensive yet concise final summary that integrates all these parts into a coherent overview.";
      s2l "            Focus on the most important points and ensure the summary gives a complete picture of the content.";
      s2l "            ";
      s2l "            PART SUMMARIES:";
      s2l "            " ++ combined_summary;
      s2l "            ";
      s2l "            FINAL COMPREHENSIVE SUMMARY:" ].

Definition final_summary_request (combined_summary : text) (max_length : Z) : request :=
  {| model := gpt;
     system_content := s2l "You are an expert at creating comprehensive summaries from partial summaries. Create a coherent, flowing summary that captures the essence of the entire content.";
     user_content := final_summary_prompt combined_summary;
     max_tokens := max_length * 4;
     temperature := 1 # 2;
     response_format := None |}.

Definition max_retries : Z := 3.

(** The [for attempt in range(max_retries)] loop of [summarize]:
    [Some summary] when an attempt returns, [None] when the loop runs out. *)
Fixpoint summarize_attempts (r : request) (attempts : list Z) : M (option text) :=
  match attempts with
  | [] => ret None
  | attempt :: rest =>
      returned <-
        try_except
          (content <- create api r ;;
           let summary := strip content in
           if (truthy summary && (50 <? len summary))%bool
           then ret (Some summary)
           else ret None)
          (fun _ =>
             (if attempt <? max_retries - 1 then sleep 2 else ret tt) ;;;
             ret None) ;;
      match returned with
      | Some summary => ret (Some summary)
      | None => summarize_attempts r rest
      end
  end.

(** [[f"Part {i+1}: {summary}" for i, summary in enumerate(chunk_summaries)]] *)
Fixpoint label_parts (i : Z) (chunk_summaries : list text) : list text :=
  match chunk_summaries with
  | [] => []
  | summary :: rest =>
      (s2l "Part " ++ str_of_Z (i + 1) ++ s2l ": " ++ summary) :: label_parts (i + 1) rest
  end.

Definition combine_summaries (chunk_summaries : list text) : text :=
  join [nl; nl] (label_parts 0 chunk_summaries).

(** The [for i, chunk in enumerate(chunks)] loop of [summarize_long_text]. *)
Fixpoint summarize_chunks (summarize : text -> M text) (chunks : list text)
  : M (list text) :=
  match chunks with
  | [] => ret []
  | chunk :: rest =>
      chunk_summary <- summarize chunk ;;
      more <- summarize_chunks summarize rest ;;
      ret (chunk_summary :: more)
  end.

(** [summarize_long_text], given the method [summarize] it calls on each
    chunk. [len(...) > max_length * 1.5] compares an integer with a
    floating-point product that is exact, so it is [3 * max_length < 2 * len]. *)
Definition summarize_long_text_with
    (summarize : text -> Z -> Z -> M text)
    (t : text) (max_length min_length : Z) : M text :=
  let chunks := _split_into_chunks t 4000 in
  chunk_summaries <-
    summarize_chunks (fun chunk => summarize chunk (max_length / 2) (min_length / 2)) chunks ;;
  let combined_summary := combine_summaries chunk_summaries in
  if 3 * max_length <? 2 * len (split combined_summary)
  then
    try_except
      (content <- create api (final_summary_request combined_summary max_length) ;;
       ret (strip content))
      (fun _ => ret (join (s2l " ") chunk_summaries))
  else ret combined_summary.

(** [summarize]. [depth] bounds the nesting of calls, as the interpreter's
    recursion limit does: the call that would exceed it raises
    [RecursionError], inside the [try] of [summarize]. *)
Fixpoint summarize (depth : nat) (t : text) (max_length min_length : Z) : M text :=
  if (negb (truthy t) || (len (split t) <? 100))%bool
  then ret t
  else
    try_except
      (if 4000 <? len (split t)
       then
         match depth with
         | O => raise RecursionError
         | S d => summarize_long_text_with (summarize d) t max_length min_length
         end
       else
         returned <- summarize_attempts (summarize_request t max_length)
                       (range (Z.to_nat max_retries)) ;;
         match returned with
         | Some summary => ret summary
         | None => ret (_simple_summarize t max_length)
         end)
      (fun _ => ret (_simple_summarize t max_length)).

Definition summarize_long_text (depth : nat) : text -> Z -> Z -> M text :=
  summarize_long_text_with (summarize depth).

End WithEndpoint.

End OpenAISummarizer.

(** ** The summary agent ([improved_summary_agent.py]) *)

Module ImprovedSummaryAgent.

Section WithEndpoint.

Variable api : endpoint.

(** [openai.api_key], read from the environment when the module loads;
    empty when there is none. *)
Variable api_key : text.

(** [simple_summarize(text, sentences_count)] of this class: it reads an
    external stop-word table, scores with floating-point numbers and
    catches its own exceptions. *)
Variable simple_summarize : text -> Z -> text.

(** [lexrank_summarize(text, sentences_count)]: the external LexRank
    summarizer; [None] when it raises. *)
Variable lexrank_summarize : text -> Z -> option text.

Definition gpt : text := s2l "gpt-3.5-turbo-16k".

Definition summarizer_role : text :=
  s2l "You are an expert video summarizer. Create concise, informative summaries that capture the essence of video content.".

Definition chunk_prompt (i n : Z) (video_title chunk : text) : text :=
  join [nl]
    [ s2l "Below is part " ++ str_of_Z (i + 1) ++ s2l " of " ++ str_of_Z n
        ++ s2l " from the transcript of a YouTube video titled '" ++ video_title ++ s2l "'.";
      s2l "                    Please provide a brief summary (100-150 words) of THIS PART ONLY, focusing on the main points and key insights.";
      s2l "                    ";
      s2l "                    TRANSCRIPT PART " ++ str_of_Z (i + 1) ++ s2l "/" ++ str_of_Z n ++ s2l ":";
      s2l "                    " ++ chunk;
      s2l "                    ";
      s2l "                    SUMMARY OF THIS PART:" ].

Definition chunk_request (i n : Z) (video_title chunk : text) : request :=
  {| model := gpt;
     system_content := summarizer_role;
     user_content := chunk_prompt i n video_title chunk;
     max_tokens := 500;
     temperature := 1 # 2;
     response_format := None |}.

Definition final_prompt (video_title combined_summaries : text) : text :=
  join [nl]
    [ s2l "Below are summaries of different parts of a YouTube video titled '" ++ video_title ++ s2l "'.";
      s2l "                Please create a comprehensive yet concise final summary (250-300 words) that integrates all these parts into a coherent overview.";
      s2l "                Focus on the most important points and ensure the summary gives a complete picture of the video content.";
      s2l "                ";
      s2l "                PART SUMMARIES:";
      s2l "                " ++ combined_summaries;
      s2l "                ";
      s2l "                FINAL COMPREHENSIVE SUMMARY:" ].

Definition final_request (video_title combined_summaries : text) : request :=
  {| model := gpt;
     system_content := s2l "You are an expert at creating comprehensive summaries from partial summaries. Create a coherent, flowing summary that captures the essence of the entire content.";
     user_content := final_prompt video_title combined_summaries;
     max_tokens := 600;
     temperature := 1 # 2;
     response_format := None |}.

Definition direct_prompt (video_title transcript : text) : text :=
  join [nl]
    [ s2l "Below is the transcript of a YouTube video titled '" ++ video_title ++ s2l "'. ";
      s2l "                Please provide a comprehensive yet concise summary (200-300 words) that captures the main points and key insights from the entire video.";
      s2l "                Focus on the most important information and ensure the summary gives a complete overview of what the video is about.";
      s2l "                ";
      s2l "                TRANSCRIPT:";
      s2l "                " ++ transcript;
      s2l "                ";
      s2l "                SUMMARY:" ].

Definition direct_request (video_title transcript : text) : request :=
  {| model := gpt;
     system_content := summarizer_role;
     user_content := direct_prompt video_title transcript;
     max_tokens := 500;
     temperature := 1 # 2;
     response_format := None |}.

Definition max_retries : Z := 3.

(** [[s[i:i+n] for i in range(0, len(s), n)]] *)
Fixpoint slices_upto (fuel n : nat) (s : text) : list text :=
  match fuel with
  | O => []
  | S fuel' =>
      match s with
      | [] => []
      | _ :: _ => firstn n s :: slices_upto fuel' n (skipn n s)
      end
  end.

Definition slices (n : nat) (s : text) : list text := slices_upto (length s) n s.

(** A retry loop that returns the first reply longer than [min_chars]:
    the final-summary loop and the direct loop of [generate_openai_summary].
    [Some summary] when an attempt returns, [None] when the loop runs out. *)
Fixpoint attempts_until_long (r : request) (min_chars : Z) (attempts : list Z)
  : M (option text) :=
  match attempts with
  | [] => ret None
  | attempt :: rest =>
      returned <-
        try_except
          (content <- create api r ;;
           let summary := strip content in
           if (truthy summary && (min_chars <? len summary))%bool
           then ret (Some summary)
           else ret None)
          (fun _ =>
             (if attempt <? max_retries - 1 then sleep 2 else ret tt) ;;;
             ret None) ;;
      match returned with
      | Some summary => ret (Some summary)
      | None => attempts_until_long r min_chars rest
      end
  end.

(** The per-chunk retry loop: the variable [chunk_summary] (the last reply
    read, [None] at first) and whether the loop appended it and broke. *)
Fixpoint chunk_attempts (r : request) (attempts : list Z) (chunk_summary : option text)
  : M (option text * bool) :=
  match attempts with
  | [] => ret (chunk_summary, false)
  | attempt :: rest =>
      step <-
        try_except
          (content <- create api r ;;
           let chunk_summary := strip content in
           if (truthy chunk_summary && (50 <? len chunk_summary))%bool
           then ret (Some chunk_summary, true)
           else ret (Some chunk_summary, false))
          (fun _ =>
             (if attempt <? max_retries - 1 then sleep 2 else ret tt) ;;;
             ret (chunk_summary, false)) ;;
      let (chunk_summary, appended) := step in
      if appended then ret (chunk_summary, true)
      else chunk_attempts r rest chunk_summary
  end.

Definition too_short (chunk_summary : option text) : bool :=
  match chunk_summary with
  | None => true
  | Some s => (negb (truthy s) || (len s <=? 50))%bool
  end.

(** The [for i, chunk in enumerate(chunks)] loop. *)
Fixpoint summarize_chunks (video_title : text) (n i : Z) (chunks chunk_summaries : list text)
  : M (list text) :=
  match chunks with
  | [] => ret chunk_summaries
  | chunk :: rest =>
      looped <- chunk_attempts (chunk_request i n video_title chunk)
                  (range (Z.to_nat max_retries)) None ;;
      let (chunk_summary, appended) := looped in
      let chunk_summaries :=
        match chunk_summary, appended with
        | Some s, true => chunk_summaries ++ [s]
        | _, _ => chunk_summaries
        end in
      let chunk_summaries :=
        if too_short chunk_summary
        then chunk_summaries ++ [simple_summarize chunk 3]
        else chunk_summaries in
      summarize_chunks video_title n (i + 1) rest chunk_summaries
  end.

Fixpoint label_parts (i : Z) (chunk_summaries : list text) : list text :=
  match chunk_summaries with
  | [] => []
  | summary :: rest =>
      (s2l "Part " ++ str_of_Z (i + 1) ++ s2l ": " ++ summary) :: label_parts (i + 1) rest
  end.

Definition max_chunk_size : Z := 12000.

(** [generate_openai_summary(transcript, video_title)]; [None] is Python's
    [None]. *)
Definition generate_openai_summary (transcript video_title : text) : M (option text) :=
  try_except
    (if negb (truthy api_key) then ret None
     else if len (split transcript) <? 200 then ret (Some transcript)
     else if max_chunk_size <? len transcript then
       let chunks := slices (Z.to_nat max_chunk_size) transcript in
       chunk_summaries <- summarize_chunks video_title (len chunks) 0 chunks [] ;;
       let combined_summaries := join [nl; nl] (label_parts 0 chunk_summaries) in
       returned <- attempts_until_long (final_request video_title combined_summaries) 100
                     (range (Z.to_nat max_retries)) ;;
       match returned with
       | Some final_summary => ret (Some final_summary)
       | None => ret (Some (join (s2l " ") chunk_summaries))
       end
     else
       returned <- attempts_until_long (direct_request video_title transcript) 100
                     (range (Z.to_nat max_retries)) ;;
       match returned with
       | Some summary => ret (Some summary)
       | None => ret None
       end)
    (fun _ => ret None).

(** [generate_fallback_summary(transcript)] *)
Definition generate_fallback_summary (transcript : text) : text :=
  if len (split transcript) <? 200 then transcript
  else
    match lexrank_summarize transcript 10 with
    | Some lexrank_summary =>
        if (negb (truthy lexrank_summary) || (len lexrank_summary <? 100))%bool
        then simple_summarize transcript 10
        else lexrank_summary
    | None => simple_summarize transcript 10
    end.

(** The summary text [process] puts in its result: the transcript cut to
    15000 words, summarized by the model, or by the fallback when the
    model's summary is [None] or empty. *)
Definition process_summary_text (transcript video_title : text) : M text :=
  let words := split transcript in
  let processed_transcript :=
    if 15000 <? len words then join (s2l " ") (firstn (Z.to_nat 15000) words) else transcript in
  summary_text <- generate_openai_summary processed_transcript video_title ;;
  match summary_text with
  | Some s => if truthy s then ret s else ret (generate_fallback_summary processed_transcript)
  | None => ret (generate_fallback_summary processed_transcript)
  end.

End WithEndpoint.

End ImprovedSummaryAgent.

(** ** The video id of a URL ([simple_app.py]) *)

Module SimpleApp.

(** [[0-9A-Za-z_-]] *)
Definition is_id_char (c : ascii) : bool :=
  (is_digit c || is_upper_az c || is_lower_az c || is_char "_" c || is_char "-" c)%bool.

(** [([0-9A-Za-z_-]{11})] at the head of [s]: the group. *)
Definition id_at (s : text) : option text :=
  let group := firstn 11 s in
  if (Nat.eqb (length group) 11 && forallb is_id_char group)%bool
  then Some group
  else None.

(** [(?:a1|a2|...)([0-9A-Za-z_-]{11})] at the head of [s], the
    alternatives tried in order. *)
Fixpoint match_prefixed (alternatives : list text) (s : text) : option text :=
  match alternatives with
  | [] => None
  | a :: others =>
      if starts_with a s
      then match id_at (skipn (length a) s) with
           | Some group => Some group
           | None => match_prefixed others s
           end
      else match_prefixed others s
  end.

(** [re.search] of such a pattern: the leftmost position that matches.
    A trailing [.*] matches whatever follows. *)
Fixpoint search_prefixed (alternatives : list text) (s : text) : option text :=
  match match_prefixed alternatives s with
  | Some group => Some group
  | None =>
      match s with
      | [] => None
      | _ :: s' => search_prefixed alternatives s'
      end
  end.

(** [re.search(r'^([0-9A-Za-z_-]{11})$', s)]: [$] stands at the end of the
    string, or before a newline that ends it. *)
Definition search_whole (s : text) : option text :=
  match id_at s with
  | Some group =>
      match skipn 11 s with
      | [] => Some group
      | [c] => if is_char nl c then Some group else None
      | _ => None
      end
  | None => None
  end.

(** The [for pattern in patterns] loop over the results of [re.search]. *)
Fixpoint first_match (searches : list (option text)) : option text :=
  match searches with
  | [] => None
  | Some group :: _ => Some group
  | None :: rest => first_match rest
  end.

Definition extract_video_id (url : text) : option text :=
  first_match
    [ search_prefixed [s2l "v="; s2l "/"] url;      (* (?:v=|\/)(...).*     *)
      search_prefixed [s2l "youtu.be/"] url;        (* (?:youtu\.be\/)(...) *)
      search_prefixed [s2l "shorts/"] url;          (* (?:shorts\/)(...)    *)
      search_whole url ].                           (* ^(...)$              *)

End SimpleApp.

(** ** Key points ([improved_summary_agent.py]) *)

Module KeyPoints.

Record KeyPoint : Type := { timestamp : text; point : text }.

(** The longest prefix of characters in a class, and the rest. *)
Fixpoint span (p : ascii -> bool) (s : text) : text * text :=
  match s with
  | [] => ([], [])
  | c :: s' =>
      if p c then let (run, rest) := span p s' in (c :: run, rest)
      else ([], s)
  end.

(** The timestamp pattern, an opening bracket, [\d+], [:?], [\d*] and a
    closing bracket, at the head of [s]: the group between the brackets. *)
Definition timestamp_at (s : text) : option text :=
  match s with
  | c :: s1 =>
      if is_char "[" c then
        let (minutes, s2) := span is_digit s1 in
        if truthy minutes then
          let (colon, s3) :=
            match s2 with
            | c2 :: rest => if is_char ":" c2 then ([c2], rest) else ([], s2)
            | [] => ([], [])
            end in
          let (seconds, s4) := span is_digit s3 in
          match s4 with
          | c4 :: _ =>
              if is_char "]" c4 then Some (minutes ++ colon ++ seconds) else None
          | [] => None
          end
        else None
      else None
  | [] => None
  end.

(** [re.search] of the timestamp pattern in [line]. *)
Fixpoint search_timestamp (line : text) : option text :=
  match line with
  | [] => None
  | _ :: rest =>
      match timestamp_at line with
      | Some group => Some group
      | None => search_timestamp rest
      end
  end.

(** [line[line.find("]") + 1:]]: what follows the first closing bracket;
    the whole line when there is none. *)
Fixpoint after_bracket (whole line : text) : text :=
  match line with
  | [] => whole
  | c :: rest => if is_char "]" c then rest else after_bracket whole rest
  end.

(** The parsing loop of [extract_key_points_with_openai] over the lines of
    the model's reply. *)
Fixpoint parse_lines (lines : list text) (key_points : list KeyPoint) : list KeyPoint :=
  match lines with
  | [] => key_points
  | line :: rest =>
      let line := strip line in
      if negb (truthy line) then parse_lines rest key_points
      else
        match search_timestamp line with
        | Some ts =>
            let ts := if existsb (is_char ":") ts then ts else ts ++ s2l ":00" in
            let point_text := strip (after_bracket line line) in
            if truthy point_text
            then parse_lines rest (key_points ++ [{| timestamp := ts; point := point_text |}])
            else parse_lines rest key_points
        | None => parse_lines rest key_points
        end
  end.

Definition parse_key_points (key_points_text : text) : list KeyPoint :=
  parse_lines (split_on [nl] key_points_text) [].

(** The parsing loop of [OpenAISummarizer.extract_key_points]
    ([openai_summarizer.py]), which reads lines of the form
    [mm:ss - description]. *)

(** [re.sub(r'^\d+\.\s*', '', line)] *)
Definition drop_numbering (line : text) : text :=
  let (digits, rest) := span is_digit line in
  if truthy digits then
    match rest with
    | c :: rest' => if is_char "." c then lstrip rest' else line
    | [] => line
    end
  else line.

(** [\s*(.+)] at the head of [s]: the group. [\s*] takes the longest run of
    whitespace that leaves [(.+)] a character other than a newline to start
    at, and [(.+)] runs to the end of the line. *)
Fixpoint dash_description (s : text) : option text :=
  let to_end_of_line := fst (span (fun c => negb (is_char nl c)) s) in
  match s with
  | [] => None
  | c :: rest =>
      if isspace c then
        match dash_description rest with
        | Some description => Some description
        | None => if is_char nl c then None else Some to_end_of_line
        end
      else Some to_end_of_line
  end.

(** [re.match(r'([0-9]+:[0-9]+)\s*-\s*(.+)', line)]: the two groups. *)
Definition match_dash_line (line : text) : option (text * text) :=
  let (minutes, s1) := span is_digit line in
  if truthy minutes then
    match s1 with
    | c1 :: s2 =>
        if is_char ":" c1 then
          let (seconds, s3) := span is_digit s2 in
          if truthy seconds then
            match lstrip s3 with
            | c3 :: s4 =>
                if is_char "-" c3 then
                  match dash_description s4 with
                  | Some description => Some (minutes ++ [c1] ++ seconds, description)
                  | None => None
                  end
                else None
            | [] => None
            end
          else None
        else None
    | [] => None
    end
  else None.

Definition starts_with_any (prefixes : list text) (line : text) : bool :=
  existsb (fun p => starts_with p line) prefixes.

Fixpoint parse_dash_lines (lines : list text) (key_points : list KeyPoint) : list KeyPoint :=
  match lines with
  | [] => key_points
  | line :: rest =>
      let line := strip line in
      if (negb (truthy line) || starts_with_any [s2l "#"; s2l "KEY POINTS"] line)%bool
      then parse_dash_lines rest key_points
      else
        let line := drop_numbering line in
        match match_dash_line line with
        | Some (ts, description) =>
            parse_dash_lines rest
              (key_points ++ [{| timestamp := ts; point := strip description |}])
        | None => parse_dash_lines rest key_points
        end
  end.

Definition parse_dash_key_points (key_points_text : text) : list KeyPoint :=
  parse_dash_lines (split_on [nl] key_points_text) [].

End KeyPoints.

(** ** Relevance scores ([api_server.py], [chat_agent_improved.py]) *)

Module Relevance.

(** [needle in haystack], for strings. *)
Fixpoint contains (needle haystack : text) : bool :=
  (starts_with needle haystack ||
   match haystack with
   | [] => false
   | _ :: rest => contains needle rest
   end)%bool.

(** [calculate_relevance(text, keywords)] of [api_server.py]. The quotient
    of the two integers is kept as the rational it is. *)
Definition calculate_relevance (t : text) (keywords : list text) : Q :=
  if negb (truthy keywords) then 0
  else
    let matches := len (filter (fun keyword => contains keyword t) keywords) in
    inject_Z matches / inject_Z (len keywords).

(** [w in words], for a list or a set of strings. *)
Definition mem (w : text) (words : list text) : bool := existsb (text_eqb w) words.

(** [set(words)], kept as a list without repetition. *)
Fixpoint to_set (words : list text) : list text :=
  match words with
  | [] => []
  | w :: rest => if mem w rest then to_set rest else w :: to_set rest
  end.

Definition stop_words : list text :=
  map s2l ["the"; "a"; "an"; "and"; "or"; "but"; "in"; "on"; "at"; "to"; "for";
           "with"; "about"; "is"; "are"; "was"; "were"]%string.

(** The keywords of a question: [set(question.lower().split()) - stop_words]. *)
Definition question_keywords (question : text) : list text :=
  filter (fun w => negb (mem w stop_words)) (to_set (split (lower question))).

(** [ImprovedChatAgent._calculate_relevance(text, question)] *)
Definition _calculate_relevance (t question : text) : Q :=
  let question_words := to_set (split (lower question)) in
  let text_words := to_set (split (lower t)) in
  let question_words := filter (fun w => negb (mem w stop_words)) question_words in
  let overlap := len (filter (fun w => mem w text_words) question_words) in
  if 0 <? len question_words
  then inject_Z overlap / inject_Z (len question_words)
  else 0.

End Relevance.

(** ** Python floats *)

Module PyFloat.
Import PrimFloat.

(** A Python [float] is a binary64 number, the kernel's [float]. A finite
    one is [m * 2 ^ e] for two integers; [None] stands for NaN and the two
    infinities. *)
Definition exact (x : float) : option (Z * Z) :=
  match FloatOps.Prim2SF x with
  | SpecFloat.S754_zero _ => Some (0, 0)
  | SpecFloat.S754_finite s m e => Some (if s then Z.neg m else Z.pos m, e)
  | SpecFloat.S754_infinity _ => None
  | SpecFloat.S754_nan => None
  end.

(** The float of an [int] that is below [2 ^ 53] in size, as the operators
    convert their [int] operand; the conversion is exact there. *)
Definition of_int (n : Z) : float :=
  if n <? 0 then (- of_uint63 (Uint63.of_Z (- n)))%float else of_uint63 (Uint63.of_Z n).

(** [m * 2 ^ e], for [m] below [2 ^ 53] in size, where that is a float. *)
Definition scaled (m e : Z) : float := FloatOps.Z.ldexp (of_int m) e.

(** [copysign(0.0, x)], from the sign of [x]. *)
Definition signed_zero (negative : bool) : float := if negative then neg_zero else zero.

(** [int(x)]: the whole part of [x], towards zero. [inr] holds the message
    of the [ValueError] (NaN) or of the [OverflowError] (an infinity) that
    it raises. *)
Definition int_of_float (x : float) : Z + text :=
  match exact x with
  | Some (m, e) => inl (if 0 <=? e then m * 2 ^ e else Z.quot m (2 ^ (- e)))
  | None =>
      if is_nan x then inr (s2l "cannot convert float NaN to integer")
      else inr (s2l "cannot convert float infinity to integer")
  end.

(** C's [fmod(x, y)]: [x - n * y] for the whole number [n] that [x / y]
    truncates to. It is exact, and has the sign of [x]. *)
Definition fmod (x y : float) : float :=
  match exact x, exact y with
  | Some (mx, ex), Some (my, ey) =>
      if my =? 0 then nan
      else
        let e := Z.min ex ey in
        let r := Z.rem (mx * 2 ^ (ex - e)) (my * 2 ^ (ey - e)) in
        if r =? 0 then signed_zero (get_sign x) else scaled r e
  | Some _, None => if is_nan y then nan else x
  | None, _ => nan
  end.

(** C's [floor(x)]. *)
Definition floor (x : float) : float :=
  match exact x with
  | Some (m, e) => if ((0 <=? e) || (m =? 0))%bool then x else of_int (m / 2 ^ (- e))
  | None => x
  end.

(** [x % y] for floats, [y] not zero: CPython's [float_rem]. The remainder
    of [fmod] gets the sign of [y], by an addition that rounds. *)
Definition modulo (x y : float) : float :=
  let mod_ := fmod x y in
  if is_zero mod_ then signed_zero (get_sign y)
  else if xorb (ltb y 0) (ltb mod_ 0) then (mod_ + y)%float
  else mod_.

(** [x // y] for floats, [y] not zero: CPython's [_float_div_mod]. The
    subtraction and the division round; the quotient is then snapped to a
    whole number. *)
Definition floor_div (x y : float) : float :=
  let mod_ := fmod x y in
  let div := ((x - mod_) / y)%float in
  let div :=
    if (negb (is_zero mod_) && xorb (ltb y 0) (ltb mod_ 0))%bool
    then (div - 1)%float else div in
  if is_zero div then signed_zero (get_sign (x / y)%float)
  else
    let floordiv := floor div in
    if ltb 0.5 (div - floordiv)%float then (floordiv + 1)%float else floordiv.

End PyFloat.

(** ** Transcripts ([api_server.py], [improved_transcript_agent.py]) *)

Module Transcripts.

(** An item of [YouTubeTranscriptApi.get_transcript(video_id)]. The start
    offset is a [float], a number of seconds. *)
Record segment : Type := { start : PrimFloat.float; text_of : text }.

(** The transcript source: the items, or the message of the exception it
    raises (no captions, no such video). *)
Definition source := text -> list segment + text.

Definition get_from (fetch : source) (video_id : text) : M (list segment) :=
  match fetch video_id with
  | inl transcript_list => ret transcript_list
  | inr message => raise (TranscriptError message)
  end.

Record formatted_segment : Type := { startTime : text; text : PyStr.text }.

(** [int(x)] for a float, with its exceptions. *)
Definition int (x : PrimFloat.float) : M Z :=
  match PyFloat.int_of_float x with
  | inl n => ret n
  | inr message => raise (Failure message)
  end.

(** [f"{n:02d}"] *)
Definition two_digits (n : Z) : PyStr.text :=
  if ((0 <=? n) && (n <? 10))%bool then s2l "0" ++ str_of_Z n else str_of_Z n.

(** The body of the loop over the items: the entry of one item. *)
Definition format_segment (item : segment) : M formatted_segment :=
  let start_seconds := start item in
  hours <- int (PyFloat.floor_div start_seconds (PyFloat.of_int 3600)) ;;
  minutes <- int (PyFloat.floor_div (PyFloat.modulo start_seconds (PyFloat.of_int 3600))
                    (PyFloat.of_int 60)) ;;
  seconds <- int (PyFloat.modulo start_seconds (PyFloat.of_int 60)) ;;
  ret {| startTime := str_of_Z hours ++ s2l ":" ++ two_digits minutes
                        ++ s2l ":" ++ two_digits seconds;
         text := text_of item |}.

(** The loop [for item in transcript_list], which appends an entry for each
    item. *)
Fixpoint format_all (transcript_list : list segment) : M (list formatted_segment) :=
  match transcript_list with
  | [] => ret []
  | item :: rest =>
      entry <- format_segment item ;;
      formatted_transcript <- format_all rest ;;
      ret (entry :: formatted_transcript)
  end.

Definition mock_line (time line : string) : formatted_segment :=
  {| startTime := s2l time; text := s2l line |}.

(** [generate_mock_transcript(video_id)] *)
Definition generate_mock_transcript (video_id : PyStr.text) : list formatted_segment :=
  [ mock_line "0:00:00" "Hello and welcome to this video.";
    mock_line "0:00:05" "Today we will be discussing an important topic.";
    mock_line "0:00:10" "This is a key point that you should remember.";
    mock_line "0:00:15" "Another important concept to understand.";
    mock_line "0:00:20" "Let me explain this in more detail.";
    mock_line "0:00:25" "This is how you can apply this knowledge.";
    mock_line "0:00:30" "Let's summarize what we've learned.";
    mock_line "0:00:35" "Thank you for watching this video.";
    mock_line "0:00:40" "Don't forget to like and subscribe.";
    mock_line "0:00:45" "See you in the next video!" ].

(** [get_transcript(video_id)] of [api_server.py]; [youtube_api_available]
    is the module's flag. *)
Definition get_transcript (youtube_api_available : bool) (fetch : source)
    (video_id : PyStr.text) : M (list formatted_segment) :=
  try_except
    (if youtube_api_available
     then
       transcript_list <- get_from fetch video_id ;;
       format_all transcript_list
     else ret (generate_mock_transcript video_id))
    (fun _ => ret (generate_mock_transcript video_id)).

(** [ImprovedTranscriptAgent.process(video_id)] *)
Definition process (fetch : source) (video_id : PyStr.text) : M PyStr.text :=
  try_except
    (transcript_list <- get_from fetch video_id ;;
     ret (join (s2l " ") (map text_of transcript_list)))
    (fun e =>
       raise (HTTPException 404 (s2l "Failed to get transcript: " ++ str_of_exn e))).

End Transcripts.

(** ** Comparing videos ([video_comparison.py]) *)

Module VideoComparison.

(** A summary or a key point reaches the service as a [dict] or as an
    object; a field is a key of the one, an attribute of the other. *)
Inductive shape : Type := IsDict | IsObject.

Record key_point : Type := {
  kp_shape : shape;
  kp_timestamp : option text;
  kp_point : option text
}.

Record summary : Type := {
  shape_of : shape;
  title : option text;
  videoId : option text;
  summary_text : option text;      (* the field [summary] *)
  description : option text;
  keyPoints : option (list key_point)
}.

Record ComparisonResult : Type := {
  commonTopics : list text;
  differences : list text;
  recommendation : text
}.

Section WithEndpoint.

Variable api : endpoint.

(** [self.openai_api_key], from [os.environ.get('OPENAI_API_KEY')]. *)
Variable openai_api_key : option text.

(** [json.loads] of the reply and the [ComparisonResult] built from its
    keys; [None] when either raises. *)
Variable decode : text -> option ComparisonResult.

Definition has_key : bool :=
  match openai_api_key with
  | Some key => truthy key
  | None => false
  end.

Definition default (d : text) (field : option text) : text :=
  match field with Some v => v | None => d end.

(** The title [compare_videos] puts in its prompt. *)
Definition prompt_title (i : Z) (s : summary) : text :=
  match title s, videoId s with
  | Some t, _ => t
  | None, Some v => s2l "YouTube Video " ++ v
  | None, None => s2l "Video " ++ str_of_Z (i + 1)
  end.

Definition prompt_summary_text (s : summary) : text :=
  match summary_text s, description s with
  | Some t, _ => t
  | None, Some d => d
  | None, None => []
  end.

Fixpoint key_points_text (key_points : list key_point) : text :=
  match key_points with
  | [] => []
  | kp :: rest =>
      s2l "- " ++ default (s2l "00:00") (kp_timestamp kp) ++ s2l ": "
        ++ default [] (kp_point kp) ++ [nl] ++ key_points_text rest
  end.

Definition formatted_summary (i : Z) (s : summary) : text :=
  let key_points := match keyPoints s with Some l => l | None => [] end in
  s2l "Video " ++ str_of_Z (i + 1) ++ s2l ": " ++ prompt_title i s ++ [nl]
  ++ s2l "Summary: " ++ prompt_summary_text s ++ [nl]
  ++ s2l "Key Points:" ++ [nl] ++ key_points_text key_points ++ [nl].

Fixpoint formatted_summaries (i : Z) (summaries : list summary) : list text :=
  match summaries with
  | [] => []
  | s :: rest => formatted_summary i s :: formatted_summaries (i + 1) rest
  end.

Definition dq : ascii := "034"%char.

Definition comparison_prompt (summaries : list summary) : text :=
  let all_summaries := join [nl] (formatted_summaries 0 summaries) in
  join [nl]
    [ s2l "Analyze these YouTube video summaries and provide a comprehensive comparison:";
      [];
      all_summaries;
      [];
      s2l "Compare these videos and identify:";
      [];
      s2l "1. Common Topics: List 3-5 specific topics covered in both videos (be detailed and specific to the video content)";
      s2l "2. Differences: Identify 3-5 major differences in content, approach, or perspective (be concrete about how the videos differ)";
      s2l "3. Recommendation: Suggest an optimal viewing order based on the actual content of the videos";
      [];
      s2l "Your analysis should be thorough and based on the actual content of the videos.";
      s2l "DO NOT use generic phrases like " ++ [dq] ++ s2l "both videos discuss similar topics"
        ++ [dq] ++ s2l " or " ++ [dq] ++ s2l "one is more theoretical than the other" ++ [dq] ++ s2l ".";
      s2l "Be specific about the actual content from the videos.";
      [];
      s2l "Format the response as a structured JSON with these exact keys: commonTopics (array of strings), differences (array of strings), recommendation (string)" ].

Definition comparison_request (summaries : list summary) : request :=
  {| model := s2l "gpt-3.5-turbo";
     system_content := s2l "You are a video content analyzer that provides detailed comparisons between multiple videos.";
     user_content := comparison_prompt summaries;
     max_tokens := 1000;
     temperature := 3 # 10;
     response_format := Some (s2l "json_object") |}.

(** The title [_generate_fallback_comparison] reads: an object's title or
    video id counts only when it is not empty. *)
Definition fallback_title (i : Z) (s : summary) : text :=
  let numbered := s2l "Video " ++ str_of_Z (i + 1) in
  match shape_of s with
  | IsDict =>
      match title s, videoId s with
      | Some t, _ => t
      | None, Some v => s2l "YouTube Video " ++ v
      | None, None => numbered
      end
  | IsObject =>
      match title s with
      | Some ((_ :: _) as t) => t
      | _ =>
          match videoId s with
          | Some ((_ :: _) as v) => s2l "YouTube Video " ++ v
          | _ => numbered
          end
      end
  end.

Fixpoint fallback_titles (i : Z) (summaries : list summary) : list text :=
  match summaries with
  | [] => []
  | s :: rest => fallback_title i s :: fallback_titles (i + 1) rest
  end.

(** [_generate_fallback_comparison(summaries)] *)
Definition _generate_fallback_comparison (summaries : list summary) : ComparisonResult :=
  let titles := fallback_titles 0 summaries in
  let common_topics :=
    [s2l "Both videos discuss related topics"; s2l "They share educational content"] in
  match titles with
  | first :: second :: _ =>
      {| commonTopics := common_topics;
         differences :=
           [ first ++ s2l " focuses more on theory, while " ++ second ++ s2l " is more practical";
             first ++ s2l " is more detailed in some areas, while " ++ second
               ++ s2l " covers additional points" ];
         recommendation :=
           s2l "Watch " ++ first ++ s2l " first for background, then " ++ second
             ++ s2l " for practical applications." |}
  | _ =>
      {| commonTopics := common_topics;
         differences :=
           [ s2l "Videos have different approaches";
             s2l "Videos cover different aspects of the topic" ];
         recommendation := s2l "Watch videos in any order based on your interest." |}
  end.

(** [compare_videos(summaries)]. The first log line reads [summaries[0]]. *)
Definition compare_videos (summaries : list summary) : M ComparisonResult :=
  try_except
    ((match summaries with
      | [] => raise IndexError
      | _ :: _ => ret tt
      end) ;;;
     if negb has_key
     then ret (_generate_fallback_comparison summaries)
     else
       try_except
         (response_content <- create api (comparison_request summaries) ;;
          match decode response_content with
          | Some result => ret result
          | None => raise JSONDecodeError
          end)
         (fun _ => ret (_generate_fallback_comparison summaries)))
    (fun _ => ret (_generate_fallback_comparison summaries)).

End WithEndpoint.

End VideoComparison.

(** ** The frequency summarizer ([simple_app.py], [SummaryAgent]) *)

Module SummaryAgent.

(** [text[:500] + "..." if len(text) > 500 else text] *)
Definition truncated (t : text) : text :=
  if 500 <? len t then up_to 500 t ++ s2l "..." else t.

(** The [try] block of [_simple_summarize] (lines 787-849). After
    [original_text = text] and [text_for_analysis = text.lower()], which
    raise nothing, the loop [for p in punctuation] reads the global name
    [punctuation]. [simple_app.py] does not bind it: the module has no
    [from string import punctuation] (and no [from collections import
    Counter] for the [Counter] of the next statement), no import with a
    star, and no assignment to these names;
    [improved_summary_agent.py], which holds the same loop, imports both
    (lines 13-14). So the block raises [NameError] here, for every text, and
    the rest of it (the frequencies, the scores, [heapq.nlargest] and the
    join with [". "]) is never reached. *)
Definition frequency_summary (t : text) : outcome text :=
  let original_text := t in
  let text_for_analysis := lower t in
  Raise (Failure (s2l "name 'punctuation' is not defined")).

(** [_simple_summarize(text, sentences_count)]: the length check, the [try]
    block, and the handler [except Exception], which returns the text cut
    to 500 characters. *)
Definition _simple_summarize (t : text) (sentences_count : Z) : text :=
  if (negb (truthy t) || (len (split t) <? sentences_count * 2))%bool
  then truncated t
  else
    let original_text := t in
    match frequency_summary t with
    | Return summary => summary
    | Raise e => truncated original_text
    end.

End SummaryAgent.

(** ** Python lists: slices *)

Module PyList.

(** [l[start:stop]] for indices that are not negative. *)
Definition slice {A} (start stop : Z) (l : list A) : list A :=
  firstn (Z.to_nat (stop - start)) (skipn (Z.to_nat start) l).

(** [l[:n]]: a negative [n] counts from the end. *)
Definition prefix {A} (n : Z) (l : list A) : list A :=
  if n <? 0 then firstn (Z.to_nat (len l + n)) l else firstn (Z.to_nat n) l.

(** [[l[i:i+n] for i in range(0, len(l), n)]] for a positive [n]. *)
Fixpoint strides_upto {A} (fuel n : nat) (l : list A) : list (list A) :=
  match fuel with
  | O => []
  | S fuel' =>
      match l with
      | [] => []
      | _ :: _ => firstn n l :: strides_upto fuel' n (skipn n l)
      end
  end.

Definition strides {A} (n : nat) (l : list A) : list (list A) :=
  strides_upto (length l) n l.

End PyList.

(** ** Extracting key points ([openai_summarizer.py],
    [improved_summary_agent.py], [api_server.py]) *)

Module KeyPointExtraction.
Import KeyPoints PyList.

(** [f"{minutes}:{seconds:02d}"] *)
Definition clock (minutes seconds : Z) : text :=
  str_of_Z minutes ++ s2l ":" ++ Transcripts.two_digits seconds.

(** The timestamp [OpenAISummarizer] gives the [i]-th of [num_points]
    points it makes up, spread over ten minutes. *)
Definition spread_timestamp (i num_points : Z) : text :=
  let minutes := (i * 10) / num_points in
  let seconds := ((i * 10) mod num_points) * (60 / num_points) in
  clock minutes seconds.

(** The point made of a segment: its first sentence and a full stop.
    [sentences = segment.split('.')];
    [point = sentences[0] + '.' if sentences else segment[:100]], stripped. *)
Definition first_sentence (segment : text) : text :=
  match split_on (s2l ".") segment with
  | first :: _ => strip (first ++ s2l ".")
  | [] => strip (up_to 100 segment)
  end.

(** [OpenAISummarizer._simple_extract_key_points(text, video_id, num_points)];
    [None] stands for the [ZeroDivisionError] of [len(words) // num_points]. *)
Definition _simple_extract_key_points (t video_id : text) (num_points : Z)
  : option (list KeyPoint) :=
  let words := split t in
  if num_points =? 0 then None
  else
    let segment_size := Z.max 1 (len words / num_points) in
    Some
      (map
         (fun i =>
            let start_idx := i * segment_size in
            let end_idx := Z.min ((i + 1) * segment_size) (len words) in
            let segment := join (s2l " ") (slice start_idx end_idx words) in
            {| timestamp := spread_timestamp i num_points;
               point := first_sentence segment |})
         (range (Z.to_nat (Z.min num_points (len words / segment_size))))).

(** The point [OpenAISummarizer.extract_key_points] makes up for the
    [i]-th missing one. *)
Definition generated_point (t : text) (num_points i : Z) : KeyPoint :=
  let segment_index := (i * len (split t)) / num_points in
  let segment_end := ((i + 1) * len (split t)) / num_points in
  let segment := join (s2l " ") (slice segment_index segment_end (split t)) in
  {| timestamp := spread_timestamp i num_points; point := first_sentence segment |}.

(** [ImprovedSummaryAgent.simple_extract_key_points(transcript, video_id)] *)
Definition simple_extract_key_points (transcript video_id : text) : list KeyPoint :=
  let words := split transcript in
  let total_words := len words in
  map
    (fun i =>
       let position := (i * total_words) / 5 in
       let start := Z.max 0 (position - 10) in
       let end_ := Z.min total_words (position + 30) in
       let sentence := join (s2l " ") (slice start end_ words) in
       let minutes := (i * 20) / 5 in
       {| timestamp := str_of_Z minutes ++ s2l ":00"; point := sentence |})
    (range 5).

(** [ImprovedSummaryAgent.split_transcript_into_segments(transcript,
    num_segments)]; [None] stands for the [ZeroDivisionError] of
    [len(words) // num_segments]. *)
Definition split_transcript_into_segments (transcript : text) (num_segments : Z)
  : option (list text) :=
  let words := split transcript in
  if num_segments =? 0 then None
  else
    let segment_size := len words / num_segments in
    Some
      (map
         (fun i =>
            let start := i * segment_size in
            let end_ := if i <? num_segments - 1 then start + segment_size else len words in
            join (s2l " ") (slice start end_ words))
         (range (Z.to_nat num_segments))).

(** [simple_extract_key_points(transcript)] of [api_server.py], on the
    formatted transcript. [int(len(transcript) * 0.25)], [* 0.5] and
    [* 0.75] multiply by binary fractions, so the products are exact and
    the indices are the integer quotients. *)
Definition api_simple_extract_key_points (transcript : list Transcripts.formatted_segment)
  : list KeyPoint :=
  if 3 <? len transcript then
    let indices :=
      [ len transcript / 4; len transcript / 2; (3 * len transcript) / 4 ] in
    flat_map
      (fun idx =>
         if idx <? len transcript then
           match nth_error transcript (Z.to_nat idx) with
           | Some item =>
               [ {| timestamp := Transcripts.startTime item;
                    point := Transcripts.text item |} ]
           | None => []
           end
         else [])
      indices
  else [].

Section WithEndpoint.

Variable api : endpoint.

(** [openai.api_key] *)
Variable api_key : text.

(** The LexRank part of [extract_key_points_fallback]: the external
    summarizer and its floating-point timestamps; [None] when it raises. *)
Variable lexrank_key_points : text -> option (list KeyPoint).

Definition key_points_prompt (t : text) (num_points : Z) : text :=
  join [nl]
    [ s2l "Extract " ++ str_of_Z num_points
        ++ s2l " key points from the following transcript of a video.";
      s2l "            For each key point, provide a timestamp (in mm:ss format) and a brief description of the key point.";
      s2l "            The timestamps should be evenly distributed throughout the video to cover the entire content.";
      s2l "            ";
      s2l "            TRANSCRIPT:";
      s2l "            " ++ t;
      s2l "            ";
      s2l "            KEY POINTS (format each point as 'mm:ss - description'):" ].

Definition key_points_request (t : text) (num_points : Z) : request :=
  {| model := s2l "gpt-3.5-turbo-16k";
     system_content := s2l "You are an expert at extracting key points from video transcripts. Provide concise, informative key points with accurate timestamps.";
     user_content := key_points_prompt t num_points;
     max_tokens := 1000;
     temperature := 1 # 2;
     response_format := None |}.

(** [OpenAISummarizer.extract_key_points(text, video_id, num_points)]. The
    handler calls [_simple_extract_key_points], whose [ZeroDivisionError]
    is an exception with the message below. *)
Definition extract_key_points (t video_id : text) (num_points : Z) : M (list KeyPoint) :=
  try_except
    (content <- create api (key_points_request t num_points) ;;
     let key_points_text := strip content in
     let key_points := parse_dash_key_points key_points_text in
     let key_points :=
       if len key_points <? num_points
       then
         let missing_points := num_points - len key_points in
         key_points
           ++ map (generated_point t num_points) (range (Z.to_nat missing_points))
       else key_points in
     ret (prefix num_points key_points))
    (fun _ =>
       match _simple_extract_key_points t video_id num_points with
       | Some key_points => ret key_points
       | None => raise (Failure (s2l "integer division or modulo by zero"))
       end).

(** [ImprovedSummaryAgent.extract_key_points_fallback(transcript, video_id)] *)
Definition extract_key_points_fallback (transcript video_id : text) : list KeyPoint :=
  match lexrank_key_points transcript with
  | Some key_points => key_points
  | None => simple_extract_key_points transcript video_id
  end.

Definition timestamped_prompt (transcript : text) : text :=
  join [nl]
    [ s2l "Below is the transcript of a YouTube video. ";
      s2l "            Please identify 5-7 key points or insights from the transcript, and for each one, specify approximately when in the video it appears.";
      s2l "            ";
      s2l "            Format your response as a numbered list, with each point having a timestamp and the key insight. For example:";
      s2l "            1. [2:30] The main concept is explained";
      s2l "            2. [5:45] An important example is provided";
      s2l "            ";
      s2l "            TRANSCRIPT:";
      s2l "            " ++ up_to 15000 transcript
        ++ s2l "  # Limit to 15000 chars to stay within token limits";
      s2l "            ";
      s2l "            KEY POINTS WITH TIMESTAMPS:" ].

Definition timestamped_request (transcript : text) : request :=
  {| model := s2l "gpt-3.5-turbo-16k";
     system_content := s2l "You are an expert at identifying the most important points in video transcripts with their approximate timestamps.";
     user_content := timestamped_prompt transcript;
     max_tokens := 500;
     temperature := 3 # 10;
     response_format := None |}.

(** The retry loop of [extract_key_points_with_openai]: [Some key_points]
    when a reply holds at least three, [None] when the loop runs out. *)
Fixpoint key_point_attempts (r : request) (attempts : list Z) : M (option (list KeyPoint)) :=
  match attempts with
  | [] => ret None
  | attempt :: rest =>
      returned <-
        try_except
          (content <- create api r ;;
           let key_points_text := strip content in
           let key_points := parse_key_points key_points_text in
           if 3 <=? len key_points then ret (Some key_points) else ret None)
          (fun _ =>
             (if attempt <? 3 - 1 then sleep 2 else ret tt) ;;;
             ret None) ;;
      match returned with
      | Some key_points => ret (Some key_points)
      | None => key_point_attempts r rest
      end
  end.

(** [ImprovedSummaryAgent.extract_key_points_with_openai(transcript,
    video_id)]. The segments it computes first are not used. *)
Definition extract_key_points_with_openai (transcript video_id : text)
  : M (option (list KeyPoint)) :=
  try_except
    (if negb (truthy api_key) then ret None
     else if len (split transcript) <? 200
     then ret (Some (extract_key_points_fallback transcript video_id))
     else key_point_attempts (timestamped_request transcript) (range 3))
    (fun _ => ret None).

End WithEndpoint.

End KeyPointExtraction.

(** ** Transcripts with timestamps ([improved_transcript_agent.py]) *)

Module TranscriptAgent.
Import Transcripts.

(** The item with the key ["timestamp"] the method adds to it. *)
Record stamped_segment : Type := { item : segment; timestamp : PyStr.text }.

(** [f"{minutes}:{seconds:02d}"] for [minutes = int(seconds // 60)] and
    [seconds = int(seconds % 60)]. *)
Definition stamp (start_seconds : PrimFloat.float) : M PyStr.text :=
  minutes <- int (PyFloat.floor_div start_seconds (PyFloat.of_int 60)) ;;
  seconds <- int (PyFloat.modulo start_seconds (PyFloat.of_int 60)) ;;
  ret (str_of_Z minutes ++ s2l ":" ++ two_digits seconds).

(** The loop [for item in transcript_list], which stamps each item. *)
Fixpoint stamp_all (transcript_list : list segment) : M (list stamped_segment) :=
  match transcript_list with
  | [] => ret []
  | i :: rest =>
      t <- stamp (start i) ;;
      stamped <- stamp_all rest ;;
      ret ({| item := i; timestamp := t |} :: stamped)
  end.

(** [ImprovedTranscriptAgent.get_transcript_with_timestamps(video_id)] *)
Definition get_transcript_with_timestamps (fetch : source) (video_id : PyStr.text)
  : M (list stamped_segment) :=
  try_except
    (transcript_list <- get_from fetch video_id ;;
     stamp_all transcript_list)
    (fun e =>
       raise (HTTPException 404
                (s2l "Failed to get transcript with timestamps: " ++ str_of_exn e))).

End TranscriptAgent.

(** ** Python integers read from strings *)

Module PyInt.

(** The value of a decimal digit. *)
Definition digit_value (c : ascii) : Z := Z.of_N (code c) - 48.

(** The digits of an integer literal, read left to right; single
    underscores may stand between digits. [after_digit] says whether the
    character before was a digit. [None] stands for [ValueError]. *)
Fixpoint digits_value (acc : Z) (after_digit : bool) (s : text) : option Z :=
  match s with
  | [] => if after_digit then Some acc else None
  | c :: rest =>
      if is_digit c then digits_value (acc * 10 + digit_value c) true rest
      else if (is_char "_" c && after_digit)%bool then digits_value acc false rest
      else None
  end.

(** The whitespace that [int] drops around a literal: TAB..CR, space, NEL
    and NBSP. The separators FS..US, which [str.strip()] drops, are no part
    of it: [int] raises [ValueError] on them. *)
Definition int_space (c : ascii) : bool :=
  (in_range 9 13 c || N.eqb (code c) 32 || N.eqb (code c) 133 || N.eqb (code c) 160)%bool.

Fixpoint drop_int_space (s : text) : text :=
  match s with
  | [] => []
  | c :: rest => if int_space c then drop_int_space rest else s
  end.

(** [int(s)] for a string: the whitespace around the literal is dropped, a
    sign may come first. [None] stands for [ValueError]. The interpreter's
    limit on the length of the literal (4300 digits) is left out. *)
Definition int_of (s : text) : option Z :=
  match rev (drop_int_space (rev (drop_int_space s))) with
  | [] => None
  | c :: rest =>
      if is_char "-" c then option_map Z.opp (digits_value 0 false rest)
      else if is_char "+" c then digits_value 0 false rest
      else digits_value 0 false (c :: rest)
  end.

End PyInt.

(** ** Words and word positions ([simple_app.py], [SummaryAgent]) *)

Module SimpleAppText.
Import PyList PyInt.

(** [_split_text_into_chunks(text, max_length)]; [None] stands for the
    [ValueError] of [range] with a step of zero. A negative step gives an
    empty range. *)
Definition _split_text_into_chunks (t : text) (max_length : Z) : option (list text) :=
  let words := split t in
  if max_length =? 0 then None
  else if max_length <? 0 then Some []
  else Some (map (join (s2l " ")) (strides (Z.to_nat max_length) words)).

(** The loop of [_split_transcript_into_segments] over [range(num_segments)],
    with its [break]. *)
Fixpoint segments_loop (segment_size total_words : Z) (indices : list Z) : list (Z * Z) :=
  match indices with
  | [] => []
  | i :: rest =>
      let start_idx := i * segment_size in
      let end_idx := Z.min (start_idx + segment_size) total_words in
      if total_words <=? start_idx then []
      else (start_idx, end_idx) :: segments_loop segment_size total_words rest
  end.

(** [_split_transcript_into_segments(transcript, num_segments)]: pairs of
    word positions. [None] stands for the [ZeroDivisionError] of
    [total_words // num_segments]. *)
Definition _split_transcript_into_segments (transcript : text) (num_segments : Z)
  : option (list (Z * Z)) :=
  let words := split transcript in
  let total_words := len words in
  if num_segments =? 0 then None
  else
    let segment_size := Z.max 1 (total_words / num_segments) in
    Some (segments_loop segment_size total_words (range (Z.to_nat num_segments))).

(** [_timestamp_to_seconds(timestamp)]; [None] stands for the [IndexError]
    of [parts[1]] and for the [ValueError] of [int]. *)
Definition _timestamp_to_seconds (timestamp : text) : option Z :=
  match split_on (s2l ":") timestamp with
  | minutes :: seconds :: _ =>
      match int_of minutes with
      | Some m =>
          match int_of seconds with
          | Some s => Some (m * 60 + s)
          | None => None
          end
      | None => None
      end
  | _ => None
  end.

End SimpleAppText.

(** ** The video id of a URL ([api_server.py]) *)

Module ApiServer.
Import SimpleApp Relevance.

(** [extract_video_id(url)] of [api_server.py]. *)
Definition extract_video_id (url : text) : option text :=
  if negb (truthy url) then None
  else if contains (s2l "youtu.be") url
  then Some (hd [] (split_on (s2l "?") (last (split_on (s2l "/") url) [])))
  else
    match search_prefixed [s2l "v="; s2l "/"] url with   (* (?:v=|\/)(...).* *)
    | Some group => Some group
    | None => if len url =? 11 then Some url else None
    end.

(** *** Timeline suggestions *)

(** An entry of a transcript is a [dict]; these are the keys the
    suggestions read. A key may be missing; the value of ['start'] is a
    number of seconds, or [None]. *)
Record entry : Type := {
  entry_text : option text;
  entry_start : option (option Q)
}.

Record suggestion : Type := {
  suggested_timestamp : text;
  suggested_text : text;
  relevance : text
}.

(** [int(x)] for a number: towards zero. *)
Definition int_of_number (x : Q) : Z :=
  if Qle_bool 0 x then Qfloor x else Qceiling x.

(** [format_timestamp(seconds)] *)
Definition format_timestamp (seconds : option Q) : text :=
  match seconds with
  | None => s2l "00:00"
  | Some seconds =>
      let seconds := int_of_number seconds in
      let hours := seconds / 3600 in
      let minutes := (seconds mod 3600) / 60 in
      let seconds := seconds mod 60 in
      if 0 <? hours
      then Transcripts.two_digits hours ++ s2l ":" ++ Transcripts.two_digits minutes
             ++ s2l ":" ++ Transcripts.two_digits seconds
      else Transcripts.two_digits minutes ++ s2l ":" ++ Transcripts.two_digits seconds
  end.

(** [re.findall(r'\w+', s)]: the runs of word characters, each as long as
    it can be. The run being read at the head of the text, and the runs
    after it. *)
Fixpoint word_runs (s : text) : text * list text :=
  match s with
  | [] => ([], [])
  | c :: s' =>
      let (w, ws) := word_runs s' in
      if is_word_char c then (c :: w, ws) else ([], push w ws)
  end.

Definition findall_words (s : text) : list text :=
  let (w, ws) := word_runs s in push w ws.

Definition common_words : list text :=
  map s2l ["the"; "a"; "an"; "in"; "on"; "at"; "to"; "for"; "with"; "about";
           "is"; "are"; "was"; "were"]%string.

(** [extract_keywords_from_query(query)]. The function also drops a list
    of Persian words; their letters lie outside the characters of a
    modelled string, so no word of a modelled query is one of them. *)
Definition extract_keywords_from_query (query : text) : list text :=
  let words := findall_words (lower query) in
  filter (fun word => (negb (mem word common_words) && (2 <? len word))%bool) words.

(** A stable sort by falling key: [l.sort(key=key, reverse=True)]. *)
Fixpoint insert_by_key {A} (key : A -> Z) (x : A) (sorted : list A) : list A :=
  match sorted with
  | [] => [x]
  | y :: rest =>
      if key x <? key y then y :: insert_by_key key x rest else x :: sorted
  end.

Definition sorted_by_falling_key {A} (key : A -> Z) (l : list A) : list A :=
  fold_right (insert_by_key key) [] l.

(** What an entry adds to the suggestions. The score is the quotient of two
    integers; comparing its floating-point value with [0.3] and [0.7] is
    comparing the quotient with 3/10 and 7/10, for fewer than 10^15
    keywords. *)
Definition suggestions_of (keywords : list text) (e : entry) : list suggestion :=
  let entry_text_or_empty := match entry_text e with Some t => t | None => [] end in
  let t := lower entry_text_or_empty in
  let start_time := match entry_start e with Some v => v | None => Some 0%Q end in
  let relevance_score := calculate_relevance t keywords in
  if negb (Qle_bool relevance_score (3 # 10))
  then [ {| suggested_timestamp := format_timestamp start_time;
            suggested_text := up_to 100 entry_text_or_empty;
            relevance :=
              if negb (Qle_bool relevance_score (7 # 10))
              then s2l "high" else s2l "medium" |} ]
  else [].

Definition relevance_key (x : suggestion) : Z :=
  if text_eqb (relevance x) (s2l "high") then 1 else 0.

(** [generate_timeline_suggestions(transcript, query)], for a transcript
    that is a list. *)
Definition generate_timeline_suggestions (transcript : list entry) (query : text)
  : list suggestion :=
  if negb (truthy transcript) then []
  else
    let keywords := extract_keywords_from_query (lower query) in
    let suggestions := flat_map (suggestions_of keywords) transcript in
    PyList.prefix 5 (sorted_by_falling_key relevance_key suggestions).

(** An entry of the transcript [get_transcript] returns: its keys are
    ['startTime'] and ['text']. *)
Definition entry_of (f : Transcripts.formatted_segment) : entry :=
  {| entry_text := Some (Transcripts.text f); entry_start := None |}.

End ApiServer.

(** ** The extractive fallback of the summarizer ([openai_summarizer.py]) *)

Module OpenAIFallback.
Import Chunker.
Import PrimFloat.

(** A Python [float] is a binary64 number, the kernel's [float];
    [float(n)] is exact for the lengths of lists and texts. *)
Definition float_of (n : Z) : float := of_uint63 (Uint63.of_Z n).

Definition two_tenths : float := 0x1.999999999999ap-3%float.   (* 0.2 *)
Definition eight_tenths : float := 0x1.999999999999ap-1%float. (* 0.8 *)

(** [min(1.0, x)] *)
Definition at_most_one (x : float) : float := if ltb x 1%float then x else 1%float.

(** [importance[i]] for the [i]-th of [n] sentences. *)
Definition importance (n i : Z) (sentence : text) : float :=
  let pos_importance :=
    if ltb (float_of i) (mul (float_of n) two_tenths) then 2%float
    else if ltb (mul (float_of n) eight_tenths) (float_of i) then 1.5%float
    else 1%float in
  let length_importance := at_most_one (div (float_of (len (split sentence))) 20%float) in
  mul pos_importance length_importance.

(** [sorted(indices, key=key, reverse=True)]: by falling key, and in the
    given order among equal keys. *)
Fixpoint insert_by_importance (key : Z -> float) (i : Z) (sorted : list Z) : list Z :=
  match sorted with
  | [] => [i]
  | j :: rest =>
      if ltb (key i) (key j) then j :: insert_by_importance key i rest
      else i :: sorted
  end.

Definition sorted_by_importance (key : Z -> float) (indices : list Z) : list Z :=
  fold_right (insert_by_importance key) [] indices.

(** [sentences[i]] for an index of the list. *)
Definition sentence_at (sentences : list text) (i : Z) : text :=
  nth (Z.to_nat i) sentences [].

(** The selection loop over [sorted_sentences], with its [break]. *)
Fixpoint select (sentences : list text) (max_words : Z) (sorted_sentences : list Z)
    (word_count : Z) : list Z :=
  match sorted_sentences with
  | [] => []
  | i :: rest =>
      let sentence_words := len (split (sentence_at sentences i)) in
      if word_count + sentence_words <=? max_words
      then i :: select sentences max_words rest (word_count + sentence_words)
      else []
  end.

(** [selected_indices.sort()] *)
Fixpoint insert_ascending (i : Z) (sorted : list Z) : list Z :=
  match sorted with
  | [] => [i]
  | j :: rest => if j <? i then j :: insert_ascending i rest else i :: sorted
  end.

Definition sorted_ascending (indices : list Z) : list Z :=
  fold_right insert_ascending [] indices.

(** [_simple_summarize(text, max_words)] *)
Definition _simple_summarize (t : text) (max_words : Z) : text :=
  let sentences := re_split sentence_boundary t in
  if len sentences <=? 3 then t
  else
    let key i := importance (len sentences) i (sentence_at sentences i) in
    let sorted_sentences := sorted_by_importance key (range (length sentences)) in
    let selected_indices := select sentences max_words sorted_sentences 0 in
    let selected_indices := sorted_ascending selected_indices in
    join (s2l " ") (map (sentence_at sentences) selected_indices).

End OpenAIFallback.

(* ================================================================= *)
(** * The vocabulary of the properties

    What the statements below speak of, and the sample inputs they are run
    on. *)

Section ChunkerVocabulary.

Definition word_count (t : text) : Z := len (split t).

(** A chunk is within the bound, or it is one unit that alone exceeds it. *)
Definition within_bound (W : Z) (units : list text) (chunk : text) : Prop :=
  word_count chunk <= W \/ (In chunk units /\ W < word_count chunk).

End ChunkerVocabulary.

Section RetryVocabulary.
Variable api : endpoint.

(** A reply no retry loop accepts: a failed call, or a text of at most
    [min_chars] characters once stripped. *)
Definition unusable (min_chars : Z) (reply : option text) : bool :=
  match reply with
  | None => true
  | Some content =>
      negb (truthy (strip content) && (min_chars <? len (strip content)))
  end.

(** The call raised: there is no reply. *)
Definition raised (reply : option text) : bool :=
  match reply with None => true | Some _ => false end.

(** What an attempt that raised is followed by: the sleep, unless it was
    the last attempt. *)
Definition pause_after (reply : option text) (attempt : Z) : trace :=
  match reply with
  | None => if attempt <? 2 then [Sleep 2] else []
  | Some _ => []
  end.

(** The events of three attempts that all failed, after a trace that holds
    [n] completion requests. *)
Definition three_failed_attempts (r : request) (n : nat) : trace :=
  Completion r :: pause_after (api n r) 0
  ++ Completion r :: pause_after (api (S n) r) 1
  ++ [Completion r].

(** The summary a chunk gets when its request [r] is first sent after [n]
    requests, and the number of requests that takes: the first of three
    replies that is usable, stripped, and nothing after it; the extractive
    summary of the chunk after three unusable replies. *)
Inductive summary_of_chunk (simple_summarize : text -> Z -> text)
    (n : nat) (r : request) (chunk : text) : text -> nat -> Prop :=
  | summary_from_reply (k : nat) (content : text) :
      (k < 3)%nat ->
      (forall j, (j < k)%nat -> unusable 50 (api (n + j)%nat r) = true) ->
      api (n + k)%nat r = Some content ->
      unusable 50 (Some content) = false ->
      summary_of_chunk simple_summarize n r chunk (strip content) (k + 1)
  | summary_by_extraction :
      (forall j, (j < 3)%nat -> unusable 50 (api (n + j)%nat r) = true) ->
      summary_of_chunk simple_summarize n r chunk (simple_summarize chunk 3) 3.

(** The summaries of the chunks, one for each chunk and in their order;
    [total] is the number of all chunks, [i] the index of the first of
    these, [n] and [n'] count the requests before and after. *)
Inductive summaries_of_chunks (simple_summarize : text -> Z -> text)
    (video_title : text) (total : Z) : nat -> Z -> list text -> list text -> nat -> Prop :=
  | summaries_of_no_chunk (n : nat) (i : Z) :
      summaries_of_chunks simple_summarize video_title total n i [] [] n
  | summaries_of_more_chunks (n : nat) (i : Z) (chunk : text) (rest : list text)
      (summary : text) (used : nat) (more : list text) (n' : nat) :
      summary_of_chunk simple_summarize n
        (ImprovedSummaryAgent.chunk_request i total video_title chunk) chunk summary used ->
      summaries_of_chunks simple_summarize video_title total (n + used) (i + 1) rest more n' ->
      summaries_of_chunks simple_summarize video_title total n i
        (chunk :: rest) (summary :: more) n'.

End RetryVocabulary.

(** [n] times the word [word], separated by single spaces. *)
Definition sample_words (n : nat) : text := join (s2l " ") (repeat (s2l "word") n).

Definition sample_key : text := s2l "sk-sample".

Definition sample_title : text := s2l "Intro to X".

(** An endpoint that fails every call. *)
Definition failing_api : endpoint := fun _ _ => None.

(** An endpoint that answers every call with ten characters. *)
Definition terse_api : endpoint := fun _ _ => Some (s2l "Too short.").

(** An endpoint that answers every call with a summary longer than any
    threshold of the retry loops. *)
Definition sample_reply : text :=
  s2l "The speaker introduces the topic, walks through three worked examples, compares two approaches and closes with advice for further study.".


(** Stand-ins for the extractive summarizers where a run needs one. *)
Definition first_words (t : text) (n : Z) : text :=
  join (s2l " ") (firstn (Z.to_nat n) (split t)).

Definition no_lexrank : text -> Z -> option text := fun _ _ => None.



Definition sample_key_points_text : text :=
  s2l "1. [2:30] Point A" ++ [nl] ++ s2l "2. [5:45] Point B".

(** A computation that returns, whatever the trace it starts from. *)
Definition returns {A} (m : M A) : Prop :=
  forall tr, exists a tr', m tr = (Return a, tr').

Definition id_alphabet : text :=
  s2l "0123456789ABCDEFGHIJKLMNOPQRSTUVWXYZabcdefghijklmnopqrstuvwxyz_-".

(** A well-formed id: eleven characters of the alphabet. *)
Definition well_formed_id (id : text) : Prop :=
  length id = 11%nat /\ Forall (fun c => In c id_alphabet) id.

Section RelevanceVocabulary.
Import Relevance.
Local Open Scope Q_scope.

Definition ratio (m n : Z) : Q := inject_Z m / inject_Z n.

(** The keyword occurs in the text. *)
Definition occurs_in (keyword t : text) : Prop :=
  exists before after, t = before ++ keyword ++ after.

(** How many of the keywords occur in the text. *)
Definition matched (t : text) (keywords : list text) : Z :=
  len (filter (fun keyword => contains keyword t) keywords).

(** How many of the question's keywords are words of the text. *)
Definition matched_words (t question : text) : Z :=
  len (filter (fun w => mem w (to_set (split (lower t)))) (question_keywords question)).

End RelevanceVocabulary.

(** A source with no transcript for any video. *)
Definition no_captions : Transcripts.source :=
  fun _ => inr (s2l "No transcripts were found for any of the requested language codes").

Section ComparisonVocabulary.
Import VideoComparison.

(** The summary carries the title [t]: it has the field, and on an object
    the title is not empty. *)
Definition carries_title (s : summary) (t : text) : Prop :=
  title s = Some t /\ (shape_of s = IsObject -> t <> []).

(** The templated result for the titles [first] and [second]. *)
Definition templated (first second : text) : ComparisonResult :=
  {| commonTopics :=
       [s2l "Both videos discuss related topics"; s2l "They share educational content"];
     differences :=
       [ first ++ s2l " focuses more on theory, while " ++ second ++ s2l " is more practical";
         first ++ s2l " is more detailed in some areas, while " ++ second
           ++ s2l " covers additional points" ];
     recommendation :=
       s2l "Watch " ++ first ++ s2l " first for background, then " ++ second
         ++ s2l " for practical applications." |}.

(** The model gives no comparison: there is no key, the call fails, or its
    reply does not decode. *)
Definition no_comparison (api : endpoint) (openai_api_key : option text)
    (decode : text -> option ComparisonResult)
    (summaries : list summary) (tr : trace) : Prop :=
  has_key openai_api_key = false
  \/ match api (completions tr) (comparison_request summaries) with
     | Some response_content => decode response_content = None
     | None => True
     end.

End ComparisonVocabulary.

Definition intro_to_x : VideoComparison.summary :=
  {| VideoComparison.shape_of := VideoComparison.IsDict;
     VideoComparison.title := Some (s2l "Intro to X");
     VideoComparison.videoId := Some (s2l "aaaaaaaaaaa");
     VideoComparison.summary_text := Some (s2l "An introduction.");
     VideoComparison.description := None;
     VideoComparison.keyPoints := Some [] |}.

Definition advanced_x : VideoComparison.summary :=
  {| VideoComparison.shape_of := VideoComparison.IsObject;
     VideoComparison.title := Some (s2l "Advanced X");
     VideoComparison.videoId := Some (s2l "bbbbbbbbbbb");
     VideoComparison.summary_text := Some (s2l "The advanced part.");
     VideoComparison.description := None;
     VideoComparison.keyPoints :=
       Some [ {| VideoComparison.kp_shape := VideoComparison.IsObject;
                 VideoComparison.kp_timestamp := Some (s2l "2:30");
                 VideoComparison.kp_point := Some (s2l "Point A") |} ] |}.

(** A decoder that accepts no reply. *)
Definition no_json : text -> option VideoComparison.ComparisonResult := fun _ => None.

(** A text that does not start with whitespace. *)
Definition starts_clean (s : text) : Prop :=
  match s with [] => True | c :: _ => isspace c = false end.

(** [[.!?]] *)
Definition is_sentence_end (c : ascii) : bool :=
  (is_char "." c || is_char "!" c || is_char "?" c)%bool.

(** The sentences of a text, cut the way the frequency strategy cuts them
    (line 817: [[s.strip() for s in re.split(r'[.!?]', text) if s.strip()]]):
    the pieces between full stops, exclamation marks and question marks,
    stripped, the empty ones left out. *)
Definition sentences (t : text) : list text :=
  filter truthy (map strip (re_split (fun _ c => is_sentence_end c) t)).

(** The sentences of at least 4 words. *)
Definition long_sentences (t : text) : list text :=
  filter (fun s => 4 <=? len (split s)) (sentences t).

(** A talk of twelve sentences, each of at least 4 words; 576 characters. *)
Definition sourdough_talk : text :=
  s2l "Welcome back to the channel everyone. Today we are going to talk about sourdough bread. First you need a healthy starter that doubles in size. Feed the starter with flour and water every day. Mix the dough and let it rest for one hour. Stretch and fold the dough four times in the afternoon. Shape the loaf and place it in a floured basket. Leave the basket in the fridge over the night. Heat the oven with the pot inside for one hour. Score the loaf with a sharp blade before baking. Bake with the lid on for twenty minutes. Let the bread cool before you cut the first slice.".

(** Every two neighbouring sizes add up to more than [W]. *)
Fixpoint neighbours_overflow (W : Z) (sizes : list Z) : Prop :=
  match sizes with
  | a :: rest =>
      match rest with
      | b :: _ => W < a + b /\ neighbours_overflow W rest
      | [] => True
      end
  | [] => True
  end.

(** An event a retry loop on the request [r] can leave: the request, or a
    sleep of two seconds. *)
Definition attempt_event (r : request) (e : event) : Prop :=
  e = Completion r \/ e = Sleep 2.

(** An endpoint whose first reply is too short and whose later replies are
    summaries. *)
Definition second_try_api : endpoint :=
  fun n _ => match n with O => Some (s2l "Too short.") | S _ => Some sample_reply end.

(** The sizes of the chunks made and of the chunk being filled. *)
Definition sizes_so_far (chunks cur : list text) (size : Z) : list Z :=
  map word_count chunks ++ (if truthy cur then [size] else []).

(** No alternative of the pattern matches at a position inside [pre], in
    the text [pre ++ s]. *)
Fixpoint no_match_within (alternatives : list text) (pre s : text) : bool :=
  match pre with
  | [] => true
  | _ :: pre' =>
      match SimpleApp.match_prefixed alternatives (pre ++ s) with
      | None => no_match_within alternatives pre' s
      | Some _ => false
      end
  end.

(** A word: not empty, and free of whitespace. *)
Definition a_word (w : text) : Prop :=
  w <> [] /\ Forall (fun c => isspace c = false) w.

(** Consecutive words of a text. *)
Definition words_in_a_row (ws : list text) (t : text) : Prop :=
  exists before after, split t = before ++ ws ++ after.

(** A timestamp as the parsers leave it: digits, a colon, digits; the
    minutes are not empty. *)
Definition clock_like (ts : text) : Prop :=
  exists minutes seconds,
    ts = minutes ++ s2l ":" ++ seconds
    /\ minutes <> []
    /\ forallb is_digit minutes = true
    /\ forallb is_digit seconds = true.

(** A key point with such a timestamp and a text that is stripped and not
    empty. *)
Definition well_formed_key_point (kp : KeyPoints.KeyPoint) : Prop :=
  clock_like (KeyPoints.timestamp kp)
  /\ KeyPoints.point kp <> []
  /\ strip (KeyPoints.point kp) = KeyPoints.point kp.

(** A text that does not end with whitespace. *)
Definition ends_clean (s : text) : Prop := starts_clean (rev s).

(** A made-up key point: a time within ten minutes, and a text that ends
    with a full stop. *)
Definition within_ten_minutes (kp : KeyPoints.KeyPoint) : Prop :=
  (exists minutes seconds,
     0 <= minutes <= 9 /\ 0 <= seconds <= 59
     /\ KeyPoints.timestamp kp = KeyPointExtraction.clock minutes seconds)
  /\ exists body, KeyPoints.point kp = body ++ s2l ".".

(** An attempt that gives no list of key points: the request failed, or
    the reply holds fewer than three key points. *)
Definition too_few_key_points (reply : option text) : bool :=
  match reply with
  | Some content => len (KeyPoints.parse_key_points (strip content)) <? 3
  | None => true
  end.

(** An endpoint whose first reply holds two key points in the bracket
    format, and whose later replies hold three. *)
Definition bracket_points_api : endpoint :=
  fun n _ =>
    match n with
    | O => Some (s2l "1. [0:30] Opening remarks" ++ [nl] ++ s2l "2. [5:45] The main example")
    | S _ =>
        Some (s2l "1. [0:30] Opening remarks" ++ [nl] ++ s2l "2. [5:45] The main example"
                ++ [nl] ++ s2l "3. [9:10] Closing words")
    end.

(** A reply that holds two key points in the dash format. *)
Definition two_points_api : endpoint :=
  fun _ _ => Some (s2l "1. 0:30 - Opening remarks" ++ [nl] ++ s2l "2. 5:45 - The main example").

Section StartTimeVocabulary.
Import PrimFloat.

(** A source that knows one video, with three captions. *)
Definition sample_captions : list Transcripts.segment :=
  [ {| Transcripts.start := 0%float; Transcripts.text_of := s2l "Hello." |};
    {| Transcripts.start := 61.5%float; Transcripts.text_of := s2l "One minute in." |};
    {| Transcripts.start := 3725.25%float; Transcripts.text_of := s2l "Past the hour." |} ].

Definition one_video : Transcripts.source := fun _ => inl sample_captions.

(** A source whose second caption has no offset: it is NaN. *)
Definition broken_captions : list Transcripts.segment :=
  [ {| Transcripts.start := 12.5%float; Transcripts.text_of := s2l "Hello." |};
    {| Transcripts.start := nan; Transcripts.text_of := s2l "Lost." |} ].

Definition broken_video : Transcripts.source := fun _ => inl broken_captions.

(** An offset that is NaN or an infinity. *)
Definition no_number (x : float) : Prop := is_finite x = false.

(** The message of [int] when it raises on a float. *)
Definition conversion_error (message : text) : Prop :=
  message = s2l "cannot convert float NaN to integer"
  \/ message = s2l "cannot convert float infinity to integer".

(** The hours, minutes and seconds that [get_transcript] reads off an
    offset [x]: [int(x // 3600)], [int((x % 3600) // 60)] and
    [int(x % 60)], when none of the three raises. *)
Definition clock_of (x : float) (hours minutes seconds : Z) : Prop :=
  PyFloat.int_of_float (PyFloat.floor_div x (PyFloat.of_int 3600)) = inl hours
  /\ PyFloat.int_of_float
       (PyFloat.floor_div (PyFloat.modulo x (PyFloat.of_int 3600)) (PyFloat.of_int 60))
     = inl minutes
  /\ PyFloat.int_of_float (PyFloat.modulo x (PyFloat.of_int 60)) = inl seconds.

(** An entry made from an item: the item's text, and a start time that
    reads the hours, then the minutes and the seconds on two digits. *)
Definition start_time_of (item : Transcripts.segment) (f : Transcripts.formatted_segment)
  : Prop :=
  Transcripts.text f = Transcripts.text_of item
  /\ exists hours minutes seconds,
       clock_of (Transcripts.start item) hours minutes seconds
       /\ Transcripts.startTime f
          = str_of_Z hours ++ s2l ":" ++ Transcripts.two_digits minutes
              ++ s2l ":" ++ Transcripts.two_digits seconds.

(** An item whose start time cannot be read: one of the three conversions
    raises. *)
Definition no_start_time (item : Transcripts.segment) : Prop :=
  forall hours minutes seconds, ~ clock_of (Transcripts.start item) hours minutes seconds.

(** The minutes and seconds that [get_transcript_with_timestamps] reads off
    an offset [x]: [int(x // 60)] and [int(x % 60)]. *)
Definition stamp_clock_of (x : float) (minutes seconds : Z) : Prop :=
  PyFloat.int_of_float (PyFloat.floor_div x (PyFloat.of_int 60)) = inl minutes
  /\ PyFloat.int_of_float (PyFloat.modulo x (PyFloat.of_int 60)) = inl seconds.

(** A stamped item: the item itself, and a timestamp that reads the minutes,
    then the seconds on two digits. *)
Definition stamp_of (i : Transcripts.segment) (s : TranscriptAgent.stamped_segment)
  : Prop :=
  TranscriptAgent.item s = i
  /\ exists minutes seconds,
       stamp_clock_of (Transcripts.start i) minutes seconds
       /\ TranscriptAgent.timestamp s
          = str_of_Z minutes ++ s2l ":" ++ Transcripts.two_digits seconds.

Definition no_stamp (i : Transcripts.segment) : Prop :=
  forall minutes seconds, ~ stamp_clock_of (Transcripts.start i) minutes seconds.

End StartTimeVocabulary.

(** The needle starts at no position inside [pre], in the text [pre ++ s]. *)
Fixpoint no_occurrence_within (needle pre s : text) : bool :=
  match pre with
  | [] => true
  | _ :: pre' =>
      (negb (starts_with needle (pre ++ s)) && no_occurrence_within needle pre' s)%bool
  end.

(** The text of an entry, the empty text when it has none. *)
Definition text_of_entry (e : ApiServer.entry) : text :=
  match ApiServer.entry_text e with Some t => t | None => [] end.

(** The words of the sentences at the given indices, counted together. *)
Definition words_at (sentences : list text) (indices : list Z) : Z :=
  fold_right (fun i total => len (split (OpenAIFallback.sentence_at sentences i)) + total)
    0 indices.

(** Six sentences of four words each. *)
Definition six_sentences : text :=
  s2l "One two three four. Five six seven eight. Nine ten eleven twelve. Red green blue white. North south east west. Salt pepper sugar flour.".

(* ================================================================= *)
(** * Properties *)

(** ** Words of a text *)

Section Words.

Lemma push_app w ws ws' : push w (ws ++ ws') = push w ws ++ ws'.
Proof. unfold push; destruct (truthy w); reflexivity. Qed.

Lemma tokens_app_space a sp b :
  isspace sp = true ->
  tokens (a ++ sp :: b) = (fst (tokens a), snd (tokens a) ++ split b).
Proof.
  intros Hsp; induction a as [|c a IH]; simpl.
  - unfold split; destruct (tokens b) as [w ws]; rewrite Hsp; reflexivity.
  - rewrite IH; destruct (tokens a) as [w ws]; simpl.
    destruct (isspace c); [rewrite push_app|]; reflexivity.
Qed.

(** A whitespace character between two texts separates their words. *)
Lemma split_app_space a sp b :
  isspace sp = true -> split (a ++ sp :: b) = split a ++ split b.
Proof.
  intros Hsp; unfold split at 1; rewrite (tokens_app_space _ _ _ Hsp).
  unfold split at 2; destruct (tokens a) as [w ws]; simpl.
  apply push_app.
Qed.

Lemma split_cons_space sp b : isspace sp = true -> split (sp :: b) = split b.
Proof. intros Hsp; exact (split_app_space [] sp b Hsp). Qed.

Lemma split_drop_spaces w b :
  forallb isspace w = true -> split (w ++ b) = split b.
Proof.
  induction w as [|c w IH]; simpl; [reflexivity|].
  intros H; apply andb_true_iff in H as [Hc Hw].
  rewrite split_cons_space by assumption; auto.
Qed.

(** Words of a text joined by one space: the words of the parts, in order. *)
Lemma split_join_space parts :
  split (join (s2l " ") parts) = concat (map split parts).
Proof.
  induction parts as [|p [|q rest] IH]; simpl in *.
  - reflexivity.
  - now rewrite app_nil_r.
  - rewrite split_app_space by reflexivity; now rewrite IH.
Qed.

Lemma starts_with_firstn p s :
  starts_with p s = true -> firstn (length p) s = p.
Proof.
  revert s; induction p as [|x p IH]; intros [|y s]; simpl; try easy.
  intros H; apply andb_true_iff in H as [Hxy Hp].
  apply Ascii.eqb_eq in Hxy; subst; f_equal; auto.
Qed.

(** [re.split] at whitespace matches keeps the words. *)
Lemma re_split_from_words cut :
  (forall before c, cut before c = true -> isspace c = true) ->
  forall s before a,
    match re_split_from cut before s with
    | p :: ps => split (a ++ s) = split (a ++ p) ++ concat (map split ps)
    | [] => False
    end.
Proof.
  intros Hcut; induction s as [|c s IH]; intros before a; simpl.
  - now rewrite !app_nil_r.
  - destruct (cut before c) eqn:Hc.
    + specialize (IH (c :: before) []); simpl in IH.
      destruct (re_split_from cut (c :: before) s) as [|p ps]; [easy|].
      rewrite split_app_space by eauto; rewrite app_nil_r.
      simpl; now rewrite IH.
    + specialize (IH (c :: before) (a ++ [c])).
      destruct (re_split_from cut (c :: before) s) as [|p ps]; [easy|]; simpl.
      now rewrite <- !app_assoc in IH.
Qed.

Lemma re_split_words cut s :
  (forall before c, cut before c = true -> isspace c = true) ->
  concat (map split (re_split cut s)) = split s.
Proof.
  intros Hcut; unfold re_split.
  pose proof (re_split_from_words cut Hcut s [] []) as H.
  destruct (re_split_from cut [] s); [easy|]; simpl in *; congruence.
Qed.

(** [str.split(sep)] on a separator made of whitespace keeps the words. *)
Lemma split_on_from_words sep :
  forallb isspace sep = true -> sep <> [] ->
  forall s skip,
    forallb isspace (firstn skip s) = true ->
    match split_on_from sep s skip with
    | p :: ps =>
        (skip = O -> forall a,
            split (a ++ s) = split (a ++ p) ++ concat (map split ps)) /\
        (skip <> O -> split s = concat (map split (p :: ps)))
    | [] => False
    end.
Proof.
  intros Hsep Hne; induction s as [|c s IH]; intros skip Hskip.
  - destruct skip; simpl; split; intros; try easy; now rewrite !app_nil_r.
  - destruct skip as [|k].
    + simpl split_on_from. destruct (starts_with sep (c :: s)) eqn:Hst.
      * apply starts_with_firstn in Hst.
        destruct sep as [|x sep]; [easy|]. simpl in Hst, Hsep.
        injection Hst as -> Hst. apply andb_true_iff in Hsep as [Hx Hsep].
        simpl Nat.pred. specialize (IH (length sep)).
        rewrite Hst in IH. specialize (IH Hsep).
        destruct (split_on_from (x :: sep) s (length sep)) as [|p ps]; [easy|].
        split; [intros _ a|easy].
        rewrite split_app_space by assumption. rewrite app_nil_r. f_equal.
        destruct IH as [IH0 IHS]. destruct (length sep).
        -- exact (IH0 eq_refl []).
        -- now apply IHS.
      * specialize (IH O eq_refl).
        destruct (split_on_from sep s 0) as [|p ps]; [easy|]. simpl.
        split; [intros _ a|easy]. destruct IH as [IH _].
        specialize (IH eq_refl (a ++ [c])). now rewrite <- !app_assoc in IH.
    + simpl in Hskip. apply andb_true_iff in Hskip as [Hc Hskip].
      simpl split_on_from. specialize (IH k Hskip).
      destruct (split_on_from sep s k) as [|p ps]; [easy|].
      split; [easy|intros _]. rewrite split_cons_space by assumption.
      destruct IH as [IH0 IHS]. destruct k.
      * exact (IH0 eq_refl []).
      * now apply IHS.
Qed.

Lemma split_on_words sep s :
  forallb isspace sep = true -> sep <> [] ->
  concat (map split (split_on sep s)) = split s.
Proof.
  intros Hsep Hne; unfold split_on.
  pose proof (split_on_from_words sep Hsep Hne s O eq_refl) as H.
  destruct (split_on_from sep s 0) as [|p ps]; [easy|].
  destruct H as [H _]. specialize (H eq_refl []). simpl in *; congruence.
Qed.

End Words.

(** ** The chunker *)

Section ChunkerProperties.
Import Chunker.

Lemma sentence_boundary_space before c :
  sentence_boundary before c = true -> isspace c = true.
Proof. unfold sentence_boundary; intros H; now apply andb_true_iff in H. Qed.

(** The units carry the words of the text, in order. *)
Lemma units_of_words t : concat (map split (units_of t)) = split t.
Proof.
  unfold units_of; destruct (_ <? 3).
  - apply re_split_words, sentence_boundary_space.
  - now apply split_on_words.
Qed.

Lemma split_into_chunks_units t W :
  _split_into_chunks t W = _combine_units (units_of t) W.
Proof. unfold _split_into_chunks, units_of; now destruct (_ <? 3). Qed.

Lemma flush_words chunks cur :
  concat (map split (if truthy cur then chunks ++ [join (s2l " ") cur] else chunks))
  = concat (map split chunks) ++ concat (map split cur).
Proof.
  destruct cur as [|u cur]; simpl truthy; cbv iota.
  - simpl; now rewrite app_nil_r.
  - rewrite map_app, concat_app.
    change (map split [join (s2l " ") (u :: cur)])
      with [split (join (s2l " ") (u :: cur))].
    change (concat [split (join (s2l " ") (u :: cur))])
      with (split (join (s2l " ") (u :: cur)) ++ []).
    now rewrite split_join_space, app_nil_r.
Qed.

(** The loop moves units into chunks and loses no word. *)
Lemma combine_loop_words W units : forall chunks cur size,
  concat (map split (combine_loop W units chunks cur size))
  = concat (map split chunks) ++ concat (map split cur) ++ concat (map split units).
Proof.
  induction units as [|unit rest IH]; intros chunks cur size; simpl combine_loop.
  - rewrite flush_words; simpl; now rewrite app_nil_r.
  - destruct (_ <=? W); rewrite IH.
    + rewrite map_app, concat_app; simpl; now rewrite app_nil_r, <- app_assoc.
    + rewrite flush_words; simpl; now rewrite app_nil_r, <- app_assoc.
Qed.

Lemma combine_units_words units W :
  concat (map split (_combine_units units W)) = concat (map split units).
Proof. unfold _combine_units; now rewrite combine_loop_words. Qed.

Lemma len_app {A} (l l' : list A) : len (l ++ l') = len l + len l'.
Proof. unfold len; rewrite length_app; lia. Qed.

Lemma flush_bound W U chunks cur size :
  incl cur U ->
  size = len (concat (map split cur)) ->
  (size <= W \/ (length cur <= 1)%nat) ->
  Forall (within_bound W U) chunks ->
  Forall (within_bound W U)
    (if truthy cur then chunks ++ [join (s2l " ") cur] else chunks).
Proof.
  intros Hin Hsize Hcur Hchunks; destruct cur as [|u cur]; simpl truthy; cbv iota.
  - assumption.
  - apply Forall_app; split; [assumption|]; constructor; [|constructor].
    unfold within_bound, word_count; rewrite split_join_space, <- Hsize.
    destruct Hcur as [Hle|Hone]; [now left|].
    destruct cur; [|simpl in Hone; lia].
    destruct (Z_le_gt_dec size W); [now left|right].
    split; [apply Hin; now left|lia].
Qed.

Lemma combine_loop_bound W U units : forall chunks cur size,
  incl units U -> incl cur U ->
  size = len (concat (map split cur)) ->
  (size <= W \/ (length cur <= 1)%nat) ->
  Forall (within_bound W U) chunks ->
  Forall (within_bound W U) (combine_loop W units chunks cur size).
Proof.
  induction units as [|unit rest IH]; intros chunks cur size HU Hin Hsize Hcur Hchunks;
    simpl combine_loop.
  - now apply flush_bound with (size := size).
  - assert (In unit U) by (apply HU; now left).
    assert (incl rest U) by (intros x Hx; apply HU; now right).
    destruct (_ <=? W) eqn:Hfit.
    + apply IH; try assumption.
      * apply incl_app; [assumption|]. intros x [<-|[]]; assumption.
      * rewrite map_app, concat_app, len_app; simpl; rewrite app_nil_r; lia.
      * left; lia.
    + apply IH; try assumption.
      * intros x [<-|[]]; assumption.
      * simpl; now rewrite app_nil_r.
      * right; simpl; lia.
      * now apply flush_bound with (size := size).
Qed.

(** Joining the chunks with single spaces gives back the words of the
    text, every one and in the original order. *)
Theorem chunks_keep_words (t : text) (W : Z) :
  split (join (s2l " ") (_split_into_chunks t W)) = split t.
Proof.
  rewrite split_join_space, split_into_chunks_units, combine_units_words.
  apply units_of_words.
Qed.

(** No chunk has more than [W] words, unless it is a single unit of the
    text that alone has more than [W] words. *)
Theorem chunks_within_bound (t : text) (W : Z) :
  Forall (within_bound W (units_of t)) (_split_into_chunks t W).
Proof.
  rewrite split_into_chunks_units; unfold _combine_units.
  apply combine_loop_bound.
  - apply incl_refl.
  - intros x [].
  - reflexivity.
  - right; simpl; lia.
  - constructor.
Qed.

End ChunkerProperties.

(** ** Retry loops *)

Section RetryLoops.

Variable api : endpoint.

Lemma completions_app tr tr' :
  completions (tr ++ tr') = (completions tr + completions tr')%nat.
Proof. unfold completions; now rewrite filter_app, length_app. Qed.

Lemma completions_snoc_completion tr r :
  completions (tr ++ [Completion r]) = S (completions tr).
Proof. rewrite completions_app; unfold completions; simpl; lia. Qed.

Lemma completions_snoc_sleep tr s :
  completions (tr ++ [Sleep s]) = completions tr.
Proof. rewrite completions_app; unfold completions; simpl; lia. Qed.

Lemma attempts_until_long_step r min_chars attempt rest tr :
  unusable min_chars (api (completions tr) r) = true ->
  ImprovedSummaryAgent.attempts_until_long api r min_chars (attempt :: rest) tr
  = ImprovedSummaryAgent.attempts_until_long api r min_chars rest
      (tr ++ Completion r :: pause_after (api (completions tr) r) attempt).
Proof.
  intros Hbad. simpl ImprovedSummaryAgent.attempts_until_long.
  unfold bind at 1, try_except, bind at 1, create, pause_after.
  destruct (api (completions tr) r) as [content|]; simpl in Hbad.
  - apply negb_true_iff in Hbad; rewrite Hbad; reflexivity.
  - destruct (attempt <? 2); unfold bind, sleep, emit, ret; simpl;
      now rewrite <- ?app_assoc.
Qed.

Lemma summarize_attempts_step r attempt rest tr :
  unusable 50 (api (completions tr) r) = true ->
  OpenAISummarizer.summarize_attempts api r (attempt :: rest) tr
  = OpenAISummarizer.summarize_attempts api r rest
      (tr ++ Completion r :: pause_after (api (completions tr) r) attempt).
Proof.
  intros Hbad. simpl OpenAISummarizer.summarize_attempts.
  unfold bind at 1, try_except, bind at 1, create, pause_after.
  destruct (api (completions tr) r) as [content|]; simpl in Hbad.
  - apply negb_true_iff in Hbad; rewrite Hbad; reflexivity.
  - destruct (attempt <? 2); unfold bind, sleep, emit, ret; simpl;
      now rewrite <- ?app_assoc.
Qed.

Lemma completions_pause reply attempt : completions (pause_after reply attempt) = O.
Proof. destruct reply; simpl; [reflexivity|]; now destruct (attempt <? 2). Qed.

Lemma completions_attempt tr r reply attempt :
  completions (tr ++ Completion r :: pause_after reply attempt) = S (completions tr).
Proof.
  rewrite completions_app. change (Completion r :: ?l) with ([Completion r] ++ l).
  rewrite !completions_app, completions_pause; unfold completions; simpl; lia.
Qed.

Lemma three_failed_attempts_count r n :
  completions (three_failed_attempts api r n) = 3%nat.
Proof.
  unfold three_failed_attempts, pause_after.
  destruct (api n r), (api (S n) r); reflexivity.
Qed.

Lemma sleeps_app tr tr' : sleeps (tr ++ tr') = sleeps tr ++ sleeps tr'.
Proof. unfold sleeps; now rewrite flat_map_app. Qed.

(** Every sleep lasts 2 seconds and follows an attempt that raised; a
    too-short reply is followed by none, and so is the third attempt. *)
Lemma three_failed_attempts_sleeps r n :
  sleeps (three_failed_attempts api r n)
  = (if raised (api n r) then [2] else [])
    ++ (if raised (api (S n) r) then [2] else []).
Proof.
  unfold three_failed_attempts.
  destruct (api n r), (api (S n) r); reflexivity.
Qed.

Lemma attempts_until_long_exhausted r min_chars tr :
  (forall k, unusable min_chars (api k r) = true) ->
  ImprovedSummaryAgent.attempts_until_long api r min_chars [0; 1; 2] tr
  = (Return None, tr ++ three_failed_attempts api r (completions tr)).
Proof.
  intros Hbad.
  rewrite attempts_until_long_step by apply Hbad.
  rewrite attempts_until_long_step by apply Hbad.
  rewrite attempts_until_long_step by apply Hbad.
  rewrite !completions_attempt. unfold three_failed_attempts.
  simpl ImprovedSummaryAgent.attempts_until_long. unfold ret. f_equal.
  replace (pause_after (api (S (S (completions tr))) r) 2) with (@nil event)
    by (unfold pause_after; now destruct (api _ r)).
  rewrite <- !app_assoc. simpl. reflexivity.
Qed.

Lemma summarize_attempts_exhausted r tr :
  (forall k, unusable 50 (api k r) = true) ->
  OpenAISummarizer.summarize_attempts api r [0; 1; 2] tr
  = (Return None, tr ++ three_failed_attempts api r (completions tr)).
Proof.
  intros Hbad.
  rewrite summarize_attempts_step by apply Hbad.
  rewrite summarize_attempts_step by apply Hbad.
  rewrite summarize_attempts_step by apply Hbad.
  rewrite !completions_attempt. unfold three_failed_attempts.
  simpl OpenAISummarizer.summarize_attempts. unfold ret. f_equal.
  replace (pause_after (api (S (S (completions tr))) r) 2) with (@nil event)
    by (unfold pause_after; now destruct (api _ r)).
  rewrite <- !app_assoc. simpl. reflexivity.
Qed.

End RetryLoops.

(** ** Single-pass summaries: the pass-through rule and the retry policy *)

Section SinglePass.

Variable api : endpoint.
Variable api_key : text.
Variable simple_summarize : text -> Z -> text.
Variable lexrank_summarize : text -> Z -> option text.
Variable _simple_summarize : text -> Z -> text.

Lemma tokens_count s :
  (length (push (fst (tokens s)) (snd (tokens s))) <= length s)%nat.
Proof.
  induction s as [|c s IH]; simpl; [lia|].
  destruct (tokens s) as [w ws]; unfold push in *.
  destruct (isspace c), w; simpl in *; lia.
Qed.

(** A text has no more words than characters. *)
Lemma word_count_le_len s : len (split s) <= len s.
Proof.
  unfold len, split. pose proof (tokens_count s) as H.
  destruct (tokens s); simpl in *; lia.
Qed.

Lemma split_nil_words : split [] = [].
Proof. reflexivity. Qed.

(** *** [ImprovedSummaryAgent] *)




Lemma not_over_15000 transcript :
  len (split transcript) <= 15000 ->
  (if 15000 <? len (split transcript)
   then join (s2l " ") (firstn (Z.to_nat 15000) (split transcript))
   else transcript) = transcript.
Proof. intros H. apply Z.ltb_ge in H. now rewrite H. Qed.


(** Three unusable replies: [None], after the three attempts. *)
Lemma agent_gives_up transcript video_title tr :
  truthy api_key = true ->
  200 <= len (split transcript) ->
  len transcript <= 12000 ->
  (forall k, unusable 100
     (api k (ImprovedSummaryAgent.direct_request video_title transcript)) = true) ->
  ImprovedSummaryAgent.generate_openai_summary api api_key simple_summarize
    transcript video_title tr
  = (Return None,
     tr ++ three_failed_attempts api
             (ImprovedSummaryAgent.direct_request video_title transcript)
             (completions tr)).
Proof.
  intros Hkey Hlong Hfits Hbad.
  unfold ImprovedSummaryAgent.generate_openai_summary, try_except.
  rewrite Hkey; simpl negb; cbv iota.
  apply Z.ltb_ge in Hlong; rewrite Hlong.
  unfold ImprovedSummaryAgent.max_chunk_size.
  apply Z.ltb_ge in Hfits; rewrite Hfits.
  change (range (Z.to_nat ImprovedSummaryAgent.max_retries)) with [0; 1; 2].
  change (negb true) with false; cbv iota.
  unfold bind. now rewrite attempts_until_long_exhausted.
Qed.

(** *** [OpenAISummarizer] *)

Lemma summarizer_short depth t max_length min_length tr :
  len (split t) < 100 ->
  OpenAISummarizer.summarize api _simple_summarize depth t max_length min_length tr
  = (Return t, tr).
Proof.
  intros Hshort. apply Z.ltb_lt in Hshort.
  destruct depth; simpl; rewrite Hshort, orb_true_r; reflexivity.
Qed.

Lemma summarizer_single_pass depth t max_length min_length :
  100 <= len (split t) <= 4000 ->
  OpenAISummarizer.summarize api _simple_summarize depth t max_length min_length
  = try_except
      (returned <- OpenAISummarizer.summarize_attempts api
                     (OpenAISummarizer.summarize_request t max_length) [0; 1; 2] ;;
       match returned with
       | Some summary => ret summary
       | None => ret (_simple_summarize t max_length)
       end)
      (fun _ => ret (_simple_summarize t max_length)).
Proof.
  intros [Hlo Hhi].
  assert (Ht : truthy t = true).
  { destruct t; [|reflexivity]. rewrite split_nil_words in Hlo. unfold len in Hlo; simpl in Hlo; lia. }
  apply Z.ltb_ge in Hlo, Hhi.
  destruct depth; simpl; rewrite Ht, Hlo, Hhi; reflexivity.
Qed.

(** Three unusable replies: the extractive fallback of the class, after
    the three attempts. *)
Lemma summarizer_falls_back depth t max_length min_length tr :
  100 <= len (split t) <= 4000 ->
  (forall k, unusable 50
     (api k (OpenAISummarizer.summarize_request t max_length)) = true) ->
  OpenAISummarizer.summarize api _simple_summarize depth t max_length min_length tr
  = (Return (_simple_summarize t max_length),
     tr ++ three_failed_attempts api
             (OpenAISummarizer.summarize_request t max_length) (completions tr)).
Proof.
  intros Hwc Hbad. rewrite summarizer_single_pass by assumption.
  unfold try_except, bind. now rewrite summarize_attempts_exhausted.
Qed.

End SinglePass.

(** ** C3: the retry policy *)

(** C3 (as amended). When every completion attempt fails or returns a
    too-short response, the single-pass generative summarize operation
    makes exactly three completion attempts. It sleeps 2 seconds after the
    first and after the second attempt only when that attempt raised; a
    too-short reply is retried at once. [generate_openai_summary] then
    returns [None], and [process] takes the extractive
    [generate_fallback_summary]; [OpenAISummarizer.summarize] returns its
    own extractive [_simple_summarize] instead of [None]. None of the three
    raises. *)
Theorem C3_retry_then_fall_back
    (api : endpoint) (api_key : text)
    (simple_summarize : text -> Z -> text)
    (lexrank_summarize : text -> Z -> option text)
    (_simple_summarize : text -> Z -> text)
    (transcript video_title : text) (max_length min_length : Z)
    (depth : nat) (tr : trace) :
  truthy api_key = true ->
  200 <= len (split transcript) <= 4000 ->
  len transcript <= 12000 ->
  (forall k, unusable 100
     (api k (ImprovedSummaryAgent.direct_request video_title transcript)) = true) ->
  (forall k, unusable 50
     (api k (OpenAISummarizer.summarize_request transcript max_length)) = true) ->
  let attempts (r : request) : trace :=
    Completion r :: pause_after (api (completions tr) r) 0
    ++ Completion r :: pause_after (api (S (completions tr)) r) 1
    ++ [Completion r] in
  ImprovedSummaryAgent.generate_openai_summary api api_key simple_summarize
    transcript video_title tr
  = (Return None,
     tr ++ attempts (ImprovedSummaryAgent.direct_request video_title transcript))
  /\ ImprovedSummaryAgent.process_summary_text api api_key simple_summarize
       lexrank_summarize transcript video_title tr
     = (Return (ImprovedSummaryAgent.generate_fallback_summary simple_summarize
                  lexrank_summarize transcript),
        tr ++ attempts (ImprovedSummaryAgent.direct_request video_title transcript))
  /\ OpenAISummarizer.summarize api _simple_summarize depth transcript
       max_length min_length tr
     = (Return (_simple_summarize transcript max_length),
        tr ++ attempts (OpenAISummarizer.summarize_request transcript max_length)).
Proof.
  intros Hkey [Hlo Hhi] Hfits Hagent Hsummarizer attempts.
  assert (Hgen := agent_gives_up api api_key simple_summarize transcript
                    video_title tr Hkey Hlo Hfits Hagent).
  split; [exact Hgen|split].
  - unfold ImprovedSummaryAgent.process_summary_text.
    rewrite not_over_15000 by lia.
    unfold bind. now rewrite Hgen.
  - apply summarizer_falls_back; [lia|assumption].
Qed.

Lemma C3_retry_then_fall_back_witness :
  let r := ImprovedSummaryAgent.direct_request sample_title (sample_words 200) in
  ImprovedSummaryAgent.generate_openai_summary failing_api sample_key first_words
    (sample_words 200) sample_title []
  = (Return None, [Completion r; Sleep 2; Completion r; Sleep 2; Completion r]).
Proof.
  refine (proj1 (C3_retry_then_fall_back failing_api sample_key first_words no_lexrank
                   first_words (sample_words 200) sample_title 300 100 0 []
                   eq_refl _ _ (fun _ => eq_refl) (fun _ => eq_refl))).
  - split; apply Z.leb_le; vm_compute; reflexivity.
  - apply Z.leb_le; vm_compute; reflexivity.
Defined.

(** Three replies that are too short: three requests, and no sleep
    between them. *)
Lemma C3_no_wait_after_short_reply :
  let r := ImprovedSummaryAgent.direct_request sample_title (sample_words 200) in
  ImprovedSummaryAgent.generate_openai_summary terse_api sample_key first_words
    (sample_words 200) sample_title []
  = (Return None, [Completion r; Completion r; Completion r]).
Proof. vm_compute. reflexivity. Qed.

(** ** C5: the pass-through rule *)




(** ** C2: long texts *)

Section LongText.

Variable api : endpoint.
Variable _simple_summarize : text -> Z -> text.

Local Abbreviation summarize := (OpenAISummarizer.summarize api _simple_summarize).

Lemma try_except_returns {A} (body : M A) (handler : exn -> M A) :
  (forall e, returns (handler e)) -> returns (try_except body handler).
Proof.
  intros Hh tr. unfold try_except.
  destruct (body tr) as [[a|e] tr']; [now exists a, tr'|apply Hh].
Qed.

Lemma summarize_unfold depth t max_length min_length :
  summarize depth t max_length min_length
  = if (negb (truthy t) || (len (split t) <? 100))%bool
    then ret t
    else
      try_except
        (if 4000 <? len (split t)
         then
           match depth with
           | O => raise RecursionError
           | S d => OpenAISummarizer.summarize_long_text_with api (summarize d)
                      t max_length min_length
           end
         else
           returned <- OpenAISummarizer.summarize_attempts api
                         (OpenAISummarizer.summarize_request t max_length)
                         (range (Z.to_nat OpenAISummarizer.max_retries)) ;;
           match returned with
           | Some summary => ret summary
           | None => ret (_simple_summarize t max_length)
           end)
        (fun _ => ret (_simple_summarize t max_length)).
Proof. destruct depth; reflexivity. Qed.

(** [summarize] raises nothing: all it does sits in its [try]. *)
Lemma summarize_returns depth t max_length min_length :
  returns (summarize depth t max_length min_length).
Proof.
  rewrite summarize_unfold. destruct (_ || _)%bool.
  - intros tr; now exists t, tr.
  - apply try_except_returns. intros e tr.
    now exists (_simple_summarize t max_length), tr.
Qed.

(** The chunk loop yields one summary for each chunk. *)
Lemma summarize_chunks_returns (f : text -> M text) chunks :
  (forall chunk, returns (f chunk)) ->
  forall tr, exists chunk_summaries tr',
    OpenAISummarizer.summarize_chunks f chunks tr = (Return chunk_summaries, tr')
    /\ length chunk_summaries = length chunks.
Proof.
  intros Hf; induction chunks as [|chunk rest IH]; intros tr; simpl.
  - now exists [], tr.
  - unfold bind at 1. destruct (Hf chunk tr) as (s & tr1 & ->).
    unfold bind at 1. destruct (IH tr1) as (more & tr2 & -> & Hlen).
    exists (s :: more), tr2; simpl; split; [reflexivity|congruence].
Qed.


End LongText.




(** ** C1: the chunker *)

(** C1. For every text and every bound [W], the words of the chunks joined
    by single spaces are the words of the text, in order; every chunk has
    at most [W] words or is a single unit that alone has more. The last part
    of the claim fails: a text that is not empty can yield an empty chunk,
    when an empty unit follows a unit that alone exceeds the bound. Here the
    sentence of three words exceeds the bound 2 and the text ends in a
    space, which leaves an empty last unit. *)
Theorem C1_chunks_of_text :
  (forall t W, split (join (s2l " ") (Chunker._split_into_chunks t W)) = split t)
  /\ (forall t W,
        Forall (within_bound W (Chunker.units_of t)) (Chunker._split_into_chunks t W))
  /\ Chunker._split_into_chunks (s2l "one two three. ") 2 = [s2l "one two three."; []].
Proof.
  split; [exact chunks_keep_words|split; [exact chunks_within_bound|reflexivity]].
Qed.

(** ** C10: the video id *)

Section VideoId.
Import SimpleApp.

Lemma is_id_char_alphabet c : is_id_char c = true -> In c id_alphabet.
Proof.
  intros H.
  assert (Hb : existsb (Ascii.eqb c) id_alphabet = true).
  { revert H. destruct c as [[] [] [] [] [] [] [] []]; vm_compute; intros H;
      first [reflexivity | discriminate H]. }
  apply existsb_exists in Hb as (x & Hin & Heq).
  apply Ascii.eqb_eq in Heq; now subst.
Qed.

Lemma id_at_well_formed s id : id_at s = Some id -> well_formed_id id.
Proof.
  unfold id_at. destruct (_ && _)%bool eqn:E; [|discriminate].
  intros [= <-]. apply andb_true_iff in E as [Hlen Hall].
  split; [now apply Nat.eqb_eq|].
  apply Forall_forall; intros c Hc. apply is_id_char_alphabet.
  rewrite forallb_forall in Hall; auto.
Qed.

Lemma match_prefixed_well_formed alternatives s id :
  match_prefixed alternatives s = Some id -> well_formed_id id.
Proof.
  induction alternatives as [|a others IH]; simpl; [discriminate|].
  destruct (starts_with a s); [|exact IH].
  destruct (id_at _) eqn:E; [|exact IH].
  intros [= <-]. eapply id_at_well_formed; eassumption.
Qed.

Lemma search_prefixed_well_formed alternatives s id :
  search_prefixed alternatives s = Some id -> well_formed_id id.
Proof.
  induction s as [|c s IH]; simpl;
    destruct (match_prefixed alternatives _) eqn:E; try discriminate.
  - intros [= <-]. eapply match_prefixed_well_formed; eassumption.
  - intros [= <-]. eapply match_prefixed_well_formed; eassumption.
  - exact IH.
Qed.

Lemma search_whole_well_formed s id :
  search_whole s = Some id -> well_formed_id id.
Proof.
  unfold search_whole. destruct (id_at s) eqn:E; [|discriminate].
  intros H. assert (t = id) as <-.
  { destruct (skipn 11 s) as [|c [|]]; try discriminate; [congruence|].
    destruct (is_char nl c); congruence. }
  eapply id_at_well_formed; eassumption.
Qed.

Lemma first_match_in searches id :
  first_match searches = Some id -> In (Some id) searches.
Proof.
  induction searches as [|[group|] rest IH]; simpl; [discriminate| |].
  - intros [= <-]; now left.
  - intros H; right; auto.
Qed.

End VideoId.

(** C10. For every input string, [extract_video_id] returns [None] or a
    string of exactly 11 characters drawn from the ASCII letters, the
    digits, the underscore and the hyphen. *)
Theorem C10_video_id_well_formed (url id : text) :
  SimpleApp.extract_video_id url = Some id -> well_formed_id id.
Proof.
  unfold SimpleApp.extract_video_id; intros H.
  apply first_match_in in H.
  destruct H as [H|[H|[H|[H|[]]]]];
    first [ eapply search_prefixed_well_formed; eassumption
          | eapply search_whole_well_formed; eassumption ].
Qed.

Lemma C10_video_id_well_formed_witness :
  SimpleApp.extract_video_id (s2l "https://www.youtube.com/watch?v=dQw4w9WgXcQ")
  = Some (s2l "dQw4w9WgXcQ")
  /\ well_formed_id (s2l "dQw4w9WgXcQ").
Proof.
  split; [reflexivity|].
  apply (C10_video_id_well_formed (s2l "https://www.youtube.com/watch?v=dQw4w9WgXcQ")).
  reflexivity.
Defined.

(** ** C8: parsing key points *)

(** C8. Given the model output "1. [2:30] Point A", a newline,
    "2. [5:45] Point B", the parsing step of
    [extract_key_points_with_openai] yields exactly two key points:
    timestamp "2:30" with text "Point A", then timestamp "5:45" with text
    "Point B". *)
Theorem C8_two_key_points :
  KeyPoints.parse_key_points sample_key_points_text
  = [ {| KeyPoints.timestamp := s2l "2:30"; KeyPoints.point := s2l "Point A" |};
      {| KeyPoints.timestamp := s2l "5:45"; KeyPoints.point := s2l "Point B" |} ].
Proof. reflexivity. Qed.

(** The loop of [OpenAISummarizer.extract_key_points] reads another
    format: it parses the same points written as "2:30 - Point A", and
    none of the bracketed lines. *)
Lemma dash_format_key_points :
  KeyPoints.parse_dash_key_points
    (s2l "1. 2:30 - Point A" ++ [nl] ++ s2l "2. 5:45 - Point B")
  = [ {| KeyPoints.timestamp := s2l "2:30"; KeyPoints.point := s2l "Point A" |};
      {| KeyPoints.timestamp := s2l "5:45"; KeyPoints.point := s2l "Point B" |} ]
  /\ KeyPoints.parse_dash_key_points sample_key_points_text = [].
Proof. split; reflexivity. Qed.

(** ** C7: relevance scores *)

Section RelevanceProperties.
Import Relevance.

Local Open Scope Q_scope.

Lemma ratio_unfold m (p : positive) : ratio m (Z.pos p) == m # p.
Proof. unfold ratio, Qdiv, Qinv, Qmult, Qeq, inject_Z; simpl; lia. Qed.

Lemma ratio_bounds m n : (0 <= m <= n)%Z -> (0 < n)%Z -> 0 <= ratio m n <= 1.
Proof.
  intros Hm Hn. destruct n as [|p|p]; try lia.
  rewrite ratio_unfold. unfold Qle; simpl; lia.
Qed.

Lemma ratio_mono m1 m2 n : (m1 <= m2)%Z -> (0 < n)%Z -> ratio m1 n <= ratio m2 n.
Proof.
  intros Hm Hn. destruct n as [|p|p]; try lia.
  rewrite !ratio_unfold. unfold Qle; simpl; nia.
Qed.

Lemma ratio_full n : (0 < n)%Z -> ratio n n == 1.
Proof.
  intros Hn. destruct n as [|p|p]; try lia.
  rewrite ratio_unfold. unfold Qeq; simpl; lia.
Qed.

Lemma starts_with_prefix p s :
  starts_with p s = true <-> exists after, s = p ++ after.
Proof.
  revert s; induction p as [|x p IH]; intros s; simpl.
  - split; [intros _; now exists s|reflexivity].
  - destruct s as [|y s]; [split; [discriminate|intros [a Ha]; discriminate]|].
    rewrite andb_true_iff, IH, Ascii.eqb_eq. split.
    + intros [-> [a ->]]; now exists a.
    + intros [a [= -> ->]]; split; [reflexivity|now exists a].
Qed.

Lemma contains_occurs keyword t : contains keyword t = true <-> occurs_in keyword t.
Proof.
  induction t as [|c t IH]; simpl; rewrite orb_true_iff, starts_with_prefix.
  - split.
    + intros [[a Ha]|H]; [|discriminate]. now exists [], a.
    + intros (b & a & H). left. destruct b; [now exists a|discriminate].
  - rewrite IH. split.
    + intros [[a Ha]|(b & a & Ha)].
      * now exists [], a.
      * exists (c :: b), a. simpl; now f_equal.
    + intros (b & a & H). destruct b as [|c' b].
      * left; now exists a.
      * right. injection H as -> ->. now exists b, a.
Qed.

Lemma len_filter_bounds {A} (f : A -> bool) l : (0 <= len (filter f l) <= len l)%Z.
Proof.
  unfold len. pose proof (filter_length_le f l). lia.
Qed.

Lemma len_pos {A} (l : list A) : l <> [] -> (0 < len l)%Z.
Proof. destruct l; [easy|]. unfold len; simpl; lia. Qed.

Lemma filter_all {A} (f : A -> bool) l :
  (forall x, In x l -> f x = true) -> filter f l = l.
Proof.
  induction l as [|x l IH]; simpl; intros H; [reflexivity|].
  rewrite (H x) by now left. f_equal; auto.
Qed.

Lemma relevance_ratio t keywords :
  keywords <> [] ->
  calculate_relevance t keywords = ratio (matched t keywords) (len keywords).
Proof. destruct keywords; [easy|reflexivity]. Qed.

Lemma text_eqb_eq a b : text_eqb a b = true <-> a = b.
Proof.
  revert b; induction a as [|x a IH]; intros [|y b]; simpl; try easy.
  rewrite andb_true_iff, IH, Ascii.eqb_eq. split; [intros [-> ->]|intros [= -> ->]]; easy.
Qed.

Lemma mem_In w words : mem w words = true <-> In w words.
Proof.
  unfold mem. rewrite existsb_exists. split.
  - intros (x & Hin & Heq). apply text_eqb_eq in Heq. now subst.
  - intros Hin. exists w. split; [assumption|now apply text_eqb_eq].
Qed.

Lemma to_set_In w words : In w (to_set words) <-> In w words.
Proof.
  induction words as [|x words IH]; simpl; [easy|].
  destruct (mem x words) eqn:E.
  - rewrite IH. split; [now right|]. intros [<-|H]; [now apply mem_In|assumption].
  - simpl. now rewrite IH.
Qed.

Lemma chat_relevance_ratio t question :
  question_keywords question <> [] ->
  _calculate_relevance t question
  = ratio (matched_words t question) (len (question_keywords question)).
Proof.
  intros Hne. unfold _calculate_relevance. fold (question_keywords question).
  apply len_pos in Hne. apply Z.ltb_lt in Hne. now rewrite Hne.
Qed.

Lemma chat_relevance_none t question :
  question_keywords question = [] -> _calculate_relevance t question = 0.
Proof.
  intros He. unfold _calculate_relevance. fold (question_keywords question).
  now rewrite He.
Qed.

End RelevanceProperties.

(** C7. The relevance score is the number of keywords present in the text
    divided by the number of keywords; it is 0 when there is no keyword,
    1 when every keyword is present, between 0 and 1 always, and it does
    not decrease when the number of matched keywords grows. This holds of
    [calculate_relevance], where a keyword is present when it occurs in the
    text, and of the chat agent's [_calculate_relevance], where the
    keywords are the distinct lower-case words of the question that are no
    stop words and one is present when it is a word of the lower-cased
    text. *)
Theorem C7_relevance_score (t : text) (keywords : list text) (question : text) :
  ((Relevance.calculate_relevance t [] == 0)
   /\ (keywords <> [] ->
       Relevance.calculate_relevance t keywords
       == inject_Z (matched t keywords) / inject_Z (len keywords))
   /\ (keywords <> [] -> (forall k, In k keywords -> occurs_in k t) ->
       Relevance.calculate_relevance t keywords == 1)
   /\ (forall t' : text, (matched t keywords <= matched t' keywords)%Z ->
       Relevance.calculate_relevance t keywords
       <= Relevance.calculate_relevance t' keywords)
   /\ 0 <= Relevance.calculate_relevance t keywords <= 1)%Q
  /\
  ((Relevance.question_keywords question = [] ->
    Relevance._calculate_relevance t question == 0)
   /\ (Relevance.question_keywords question <> [] ->
       Relevance._calculate_relevance t question
       == inject_Z (matched_words t question)
          / inject_Z (len (Relevance.question_keywords question)))
   /\ (Relevance.question_keywords question <> [] ->
       (forall k, In k (Relevance.question_keywords question) ->
                  In k (split (lower t))) ->
       Relevance._calculate_relevance t question == 1)
   /\ (forall t' : text, (matched_words t question <= matched_words t' question)%Z ->
       Relevance._calculate_relevance t question
       <= Relevance._calculate_relevance t' question)
   /\ 0 <= Relevance._calculate_relevance t question <= 1)%Q.
Proof.
  split.
  - split; [reflexivity|]. split; [|split; [|split]].
    + intros Hne. now rewrite relevance_ratio.
    + intros Hne Hall. rewrite relevance_ratio by assumption.
      unfold matched. rewrite filter_all.
      * apply ratio_full. now apply len_pos.
      * intros k Hk. apply contains_occurs. auto.
    + intros t' Hle. destruct keywords as [|k ks]; [apply Qle_refl|].
      rewrite !relevance_ratio by easy. apply ratio_mono; [assumption|].
      now apply len_pos.
    + destruct keywords as [|k ks]; [split; [apply Qle_refl|easy]|].
      rewrite relevance_ratio by easy. apply ratio_bounds.
      * apply len_filter_bounds.
      * now apply len_pos.
  - split; [|split; [|split; [|split]]].
    + intros He. now rewrite chat_relevance_none.
    + intros Hne. now rewrite chat_relevance_ratio.
    + intros Hne Hall. rewrite chat_relevance_ratio by assumption.
      unfold matched_words. rewrite filter_all.
      * apply ratio_full. now apply len_pos.
      * intros k Hk. apply mem_In, to_set_In. auto.
    + intros t' Hle.
      destruct (Relevance.question_keywords question) eqn:E.
      * rewrite !chat_relevance_none by assumption. apply Qle_refl.
      * rewrite !chat_relevance_ratio by (rewrite E; easy).
        apply ratio_mono; [assumption|]. apply len_pos. rewrite E; easy.
    + destruct (Relevance.question_keywords question) eqn:E.
      * rewrite chat_relevance_none by assumption. split; [apply Qle_refl|easy].
      * rewrite chat_relevance_ratio by (rewrite E; easy). apply ratio_bounds.
        -- apply len_filter_bounds.
        -- apply len_pos. rewrite E; easy.
Qed.

(** ** C4: a transcript that cannot be fetched *)

(** C4 (as amended). For every video id for which the transcript fetch
    fails, [get_transcript] of [api_server.py] returns the fixed placeholder
    transcript of ten lines, the same for every video, and raises nothing;
    [ImprovedTranscriptAgent.process] raises an [HTTPException] with status
    404 to its caller. *)
Theorem C4_transcript_fetch_failure
    (youtube_api_available : bool) (fetch : Transcripts.source)
    (video_id message : text) (tr : trace) :
  fetch video_id = inr message ->
  Transcripts.get_transcript youtube_api_available fetch video_id tr
  = (Return (Transcripts.generate_mock_transcript []), tr)
  /\ length (Transcripts.generate_mock_transcript []) = 10%nat
  /\ Transcripts.process fetch video_id tr
     = (Raise (HTTPException 404 (s2l "Failed to get transcript: " ++ message)), tr).
Proof.
  intros Hfail. unfold Transcripts.get_transcript, Transcripts.process,
    try_except, bind, Transcripts.get_from. rewrite Hfail.
  destruct youtube_api_available; repeat split.
Qed.

Lemma C4_transcript_fetch_failure_witness :
  Transcripts.get_transcript true no_captions (s2l "dQw4w9WgXcQ") []
  = (Return (Transcripts.generate_mock_transcript []), []).
Proof.
  exact (proj1 (C4_transcript_fetch_failure true no_captions (s2l "dQw4w9WgXcQ")
                  _ [] eq_refl)).
Defined.

(** The agent propagates the failure. *)
Lemma C4_agent_raises_404 :
  Transcripts.process no_captions (s2l "dQw4w9WgXcQ") []
  = (Raise (HTTPException 404
       (s2l "Failed to get transcript: No transcripts were found for any of the requested language codes")),
     []).
Proof. reflexivity. Qed.

(** ** C9: the comparison fallback *)

Section ComparisonProperties.
Import VideoComparison.

Lemma fallback_title_carried i s t : carries_title s t -> fallback_title i s = t.
Proof.
  intros [Ht Hne]. unfold fallback_title. rewrite Ht.
  destruct (shape_of s); [reflexivity|].
  destruct t; [now destruct Hne|reflexivity].
Qed.

Lemma fallback_templated s1 s2 rest t1 t2 :
  carries_title s1 t1 -> carries_title s2 t2 ->
  _generate_fallback_comparison (s1 :: s2 :: rest) = templated t1 t2.
Proof.
  intros H1 H2. unfold _generate_fallback_comparison. simpl fallback_titles.
  now rewrite (fallback_title_carried _ _ _ H1), (fallback_title_carried _ _ _ H2).
Qed.

End ComparisonProperties.

(** C9. For every list of two or more summaries that carry titles, when
    the model is unavailable (no API key, or the call fails) or its output
    does not decode, [compare_videos] raises nothing and returns the
    templated result: both differences name the first title and then the
    second, and the recommendation is "Watch", the first title,
    "first for background, then", the second title,
    "for practical applications." *)
Theorem C9_comparison_fallback
    (api : endpoint) (openai_api_key : option text)
    (decode : text -> option VideoComparison.ComparisonResult)
    (s1 s2 : VideoComparison.summary) (rest : list VideoComparison.summary)
    (t1 t2 : text) (tr : trace) :
  carries_title s1 t1 -> carries_title s2 t2 ->
  no_comparison api openai_api_key decode (s1 :: s2 :: rest) tr ->
  exists tr',
    VideoComparison.compare_videos api openai_api_key decode (s1 :: s2 :: rest) tr
    = (Return
         {| VideoComparison.commonTopics :=
              [s2l "Both videos discuss related topics"; s2l "They share educational content"];
            VideoComparison.differences :=
              [ t1 ++ s2l " focuses more on theory, while " ++ t2 ++ s2l " is more practical";
                t1 ++ s2l " is more detailed in some areas, while " ++ t2
                  ++ s2l " covers additional points" ];
            VideoComparison.recommendation :=
              s2l "Watch " ++ t1 ++ s2l " first for background, then " ++ t2
                ++ s2l " for practical applications." |},
       tr').
Proof.
  intros H1 H2 Hno.
  pose proof (fallback_templated s1 s2 rest t1 t2 H1 H2) as Hfb.
  unfold templated in Hfb. rewrite <- Hfb. clear Hfb.
  unfold no_comparison in Hno.
  unfold VideoComparison.compare_videos, try_except, bind, ret, create, raise.
  destruct (VideoComparison.has_key openai_api_key) eqn:Hkey.
  - change (negb true) with false; cbv beta iota.
    destruct Hno as [Hno|Hno]; [discriminate|].
    destruct (api (completions tr) _) as [content|]; cbv beta iota.
    + rewrite Hno. eexists; reflexivity.
    + eexists; reflexivity.
  - eexists; reflexivity.
Qed.

Lemma C9_comparison_fallback_witness :
  exists tr',
    VideoComparison.compare_videos failing_api None no_json [intro_to_x; advanced_x] []
    = (Return
         {| VideoComparison.commonTopics :=
              [s2l "Both videos discuss related topics"; s2l "They share educational content"];
            VideoComparison.differences :=
              [ s2l "Intro to X" ++ s2l " focuses more on theory, while " ++ s2l "Advanced X"
                  ++ s2l " is more practical";
                s2l "Intro to X" ++ s2l " is more detailed in some areas, while "
                  ++ s2l "Advanced X" ++ s2l " covers additional points" ];
            VideoComparison.recommendation :=
              s2l "Watch " ++ s2l "Intro to X" ++ s2l " first for background, then "
                ++ s2l "Advanced X" ++ s2l " for practical applications." |},
       tr').
Proof.
  apply (C9_comparison_fallback failing_api None no_json intro_to_x advanced_x []
           (s2l "Intro to X") (s2l "Advanced X") []).
  - split; [reflexivity|discriminate].
  - split; [reflexivity|discriminate].
  - left; reflexivity.
Defined.

(** ** Stripping *)

Section Stripping.

Lemma lstrip_app_nonspace a c :
  isspace c = false -> lstrip (a ++ [c]) = lstrip a ++ [c].
Proof.
  intros Hc; induction a as [|x a IH]; simpl; [now rewrite Hc|].
  destruct (isspace x); [assumption|reflexivity].
Qed.

Lemma rstrip_cons_nonspace c s :
  isspace c = false -> rstrip (c :: s) = c :: rstrip s.
Proof.
  intros Hc. unfold rstrip. simpl rev.
  rewrite lstrip_app_nonspace by assumption.
  now rewrite rev_app_distr.
Qed.

Lemma lstrip_starts_clean s : starts_clean (lstrip s).
Proof.
  induction s as [|c s IH]; simpl; [exact I|].
  destruct (isspace c) eqn:E; [assumption|exact E].
Qed.

Lemma lstrip_clean s : starts_clean s -> lstrip s = s.
Proof. destruct s as [|c s]; simpl; [reflexivity|]. now intros ->. Qed.

Lemma rstrip_starts_clean s : starts_clean s -> starts_clean (rstrip s).
Proof.
  destruct s as [|c s]; [intros _; exact I|]. simpl; intros Hc.
  now rewrite rstrip_cons_nonspace.
Qed.

Lemma rstrip_idempotent s : rstrip (rstrip s) = rstrip s.
Proof.
  unfold rstrip. rewrite rev_involutive.
  now rewrite (lstrip_clean (lstrip (rev s))) by apply lstrip_starts_clean.
Qed.

Lemma strip_idempotent s : strip (strip s) = strip s.
Proof.
  unfold strip.
  rewrite (lstrip_clean (rstrip (lstrip s)))
    by apply rstrip_starts_clean, lstrip_starts_clean.
  apply rstrip_idempotent.
Qed.

End Stripping.

(** ** Lists *)

Lemma firstn_In {A} n (l : list A) x : In x (firstn n l) -> In x l.
Proof. intros H. rewrite <- (firstn_skipn n l). apply in_or_app; now left. Qed.

(** ** C6: the frequency strategy *)

Section FrequencyProperties.
Import SummaryAgent.

Lemma truncated_nonempty t : t <> [] -> truthy (truncated t) = true.
Proof.
  intros Hne. unfold truncated. destruct (500 <? len t).
  - now destruct (up_to 500 t).
  - now destruct t.
Qed.

(** Whatever the text and the count, the summary is the text itself, cut
    to 500 characters and closed with "..." when it is longer: the length
    check returns it, and so does the handler of the [NameError]. *)
Lemma summary_is_the_truncated_text t sentences_count :
  _simple_summarize t sentences_count = truncated t.
Proof.
  unfold _simple_summarize, frequency_summary.
  now destruct (negb (truthy t) || (len (split t) <? sentences_count * 2))%bool.
Qed.

End FrequencyProperties.

(** C6. The function never ranks sentences: for every text and every
    count it returns the text itself, cut to its first 500 characters and
    "..." when it is longer, because the [try] block raises [NameError] at
    [punctuation], a name the module does not import. The first part of the
    claim still holds: for a count of at least 1 and a text with that many
    sentences of at least 4 words, the summary is not empty. The second
    part fails: the sentences of the summary need not be sentences of the
    text. For the talk of twelve sentences and the count 10, the summary is
    the first 500 characters and "...", and its last sentence, "Bake with
    the l", is no sentence of the talk. *)
Theorem C6_summary_is_the_text_cut_short :
  (forall t sentences_count,
     SummaryAgent._simple_summarize t sentences_count = SummaryAgent.truncated t)
  /\ (forall t sentences_count,
        1 <= sentences_count ->
        sentences_count <= len (long_sentences t) ->
        truthy (SummaryAgent._simple_summarize t sentences_count) = true)
  /\ (len (long_sentences sourdough_talk) = 12
      /\ SummaryAgent._simple_summarize sourdough_talk 10
         = up_to 500 sourdough_talk ++ s2l "..."
      /\ Relevance.mem (s2l "Bake with the l")
           (sentences (SummaryAgent._simple_summarize sourdough_talk 10)) = true
      /\ Relevance.mem (s2l "Bake with the l") (sentences sourdough_talk) = false).
Proof.
  split; [exact summary_is_the_truncated_text|]. split.
  - intros t sentences_count Hn Hlong. rewrite summary_is_the_truncated_text.
    apply truncated_nonempty. intros ->.
    unfold len in Hlong; simpl in Hlong; lia.
  - vm_compute. repeat split.
Qed.

(** ** Worked examples *)

Example chunker_packs_sentences :
  Chunker._split_into_chunks
    (s2l "Hello there. My name is Dr. Smith. How are you? Fine.") 4
  = [ s2l "Hello there."; s2l "My name is Dr. Smith."; s2l "How are you? Fine." ].
Proof. reflexivity. Qed.

Example video_id_of_short_url :
  SimpleApp.extract_video_id (s2l "https://youtu.be/dQw4w9WgXcQ?t=3")
  = Some (s2l "dQw4w9WgXcQ")
  /\ SimpleApp.extract_video_id (s2l "dQw4w9WgXcQ") = Some (s2l "dQw4w9WgXcQ")
  /\ SimpleApp.extract_video_id (s2l "hello") = None.
Proof. repeat split. Qed.

Example key_point_without_seconds :
  KeyPoints.parse_key_points
    (s2l "[12] Only minutes" ++ [nl] ++ s2l "no stamp here" ++ [nl] ++ s2l "[1:05]")
  = [ {| KeyPoints.timestamp := s2l "12:00"; KeyPoints.point := s2l "Only minutes" |} ].
Proof. reflexivity. Qed.

Example relevance_of_half_the_keywords :
  (Relevance.calculate_relevance (s2l "the cat sat") [s2l "cat"; s2l "dog"] == 1 # 2)%Q
  /\ (Relevance._calculate_relevance (s2l "The Cat sat") (s2l "the cat dog cat") == 1 # 2)%Q.
Proof. split; vm_compute; reflexivity. Qed.

Example segment_start_time :
  Transcripts.format_segment
    {| Transcripts.start := PyFloat.scaled 7451 (-1); Transcripts.text_of := s2l "x" |} []
  = (Return (Transcripts.mock_line "1:02:05" "x"), []).
Proof. vm_compute. reflexivity. Qed.

(* ================================================================= *)
(** * Further properties of the code *)

(** ** The chunker packs whole units, greedily *)

Section ChunkerPacking.
Import Chunker.

Lemma re_split_from_nonempty cut before s : re_split_from cut before s <> [].
Proof.
  revert before; induction s as [|c s IH]; intros before; simpl; [easy|].
  destruct (cut before c); [easy|].
  specialize (IH (c :: before)). now destruct (re_split_from cut (c :: before) s).
Qed.

Lemma units_of_nonempty t : units_of t <> [].
Proof.
  unfold units_of. destruct (_ <? 3) eqn:E.
  - apply re_split_from_nonempty.
  - intros H; rewrite H in E. discriminate.
Qed.

(** The loop closes a group of units at a time: what it adds to [chunks]
    are the joined groups of a partition of [current_chunk ++ units]. *)
Lemma combine_loop_groups W units : forall chunks cur size,
  exists groups,
    concat groups = cur ++ units
    /\ Forall (fun g => g <> []) groups
    /\ combine_loop W units chunks cur size = chunks ++ map (join (s2l " ")) groups.
Proof.
  induction units as [|unit rest IH]; intros chunks cur size; simpl combine_loop.
  - destruct cur as [|u cur]; simpl truthy; cbv iota.
    + exists []; simpl; now rewrite app_nil_r.
    + exists [u :: cur]; simpl; rewrite !app_nil_r. repeat split. now constructor.
  - destruct (_ <=? W).
    + destruct (IH chunks (cur ++ [unit]) (size + len (split unit))) as (gs & Hc & Hne & ->).
      exists gs; rewrite <- app_assoc in Hc. now repeat split.
    + destruct cur as [|u cur]; simpl truthy; cbv iota;
        change [" "%char] with (s2l " ").
      * destruct (IH chunks [unit] (len (split unit))) as (gs & Hc & Hne & ->).
        exists gs. now repeat split.
      * destruct (IH (chunks ++ [join (s2l " ") (u :: cur)]) [unit] (len (split unit)))
          as (gs & Hc & Hne & ->).
        exists ((u :: cur) :: gs). repeat split.
        -- simpl concat. rewrite Hc. reflexivity.
        -- constructor; [easy|assumption].
        -- now rewrite <- app_assoc.
Qed.

(** Units are never cut, reordered, dropped or repeated: the chunks are the
    groups of a partition of the units into runs that are not empty, each
    group joined by single spaces. *)
Theorem chunks_are_groups_of_units (t : text) (W : Z) :
  exists groups : list (list text),
    concat groups = units_of t
    /\ Forall (fun g => g <> []) groups
    /\ _split_into_chunks t W = map (join (s2l " ")) groups.
Proof.
  rewrite split_into_chunks_units. unfold _combine_units.
  destruct (combine_loop_groups W (units_of t) [] [] 0) as (gs & Hc & Hne & ->).
  now exists gs.
Qed.

Lemma len_nonneg {A} (l : list A) : 0 <= len l.
Proof. unfold len; lia. Qed.

Lemma combine_loop_fits W units : forall cur size,
  size = len (concat (map split cur)) ->
  size + len (concat (map split units)) <= W ->
  cur ++ units <> [] ->
  combine_loop W units [] cur size = [join (s2l " ") (cur ++ units)].
Proof.
  induction units as [|unit rest IH]; intros cur size Hsize Hfit Hne; simpl combine_loop.
  - rewrite app_nil_r in *. now destruct cur.
  - simpl in Hfit. rewrite len_app in Hfit.
    pose proof (len_nonneg (concat (map split rest))).
    replace (size + len (split unit) <=? W) with true by (symmetry; apply Z.leb_le; lia).
    rewrite IH.
    + now rewrite <- app_assoc.
    + rewrite map_app, concat_app, len_app; simpl; rewrite app_nil_r; lia.
    + lia.
    + now destruct cur.
Qed.

(** A text of at most [W] words is one chunk: its units joined by single
    spaces. *)
Theorem text_within_bound_is_one_chunk (t : text) (W : Z) :
  word_count t <= W ->
  _split_into_chunks t W = [join (s2l " ") (units_of t)].
Proof.
  intros Hfit. rewrite split_into_chunks_units. unfold _combine_units.
  apply (combine_loop_fits W (units_of t) [] 0).
  - reflexivity.
  - rewrite units_of_words. exact Hfit.
  - apply units_of_nonempty.
Qed.

Lemma text_within_bound_is_one_chunk_witness :
  word_count (s2l "Hello there. How are you?") <= 10
  /\ _split_into_chunks (s2l "Hello there. How are you?") 10
     = [s2l "Hello there. How are you?"].
Proof.
  assert (H : word_count (s2l "Hello there. How are you?") <= 10)
    by (vm_compute; discriminate).
  split; [exact H|].
  exact (text_within_bound_is_one_chunk (s2l "Hello there. How are you?") 10 H).
Defined.

Lemma neighbours_overflow_snoc W sizes a b :
  neighbours_overflow W (sizes ++ [a]) -> W < a + b ->
  neighbours_overflow W ((sizes ++ [a]) ++ [b]).
Proof.
  induction sizes as [|x sizes IH]; simpl; [tauto|].
  destruct sizes as [|y sizes]; simpl in *; [tauto|].
  intros [Hxy H] Hab; split; [assumption|]. now apply IH.
Qed.

Lemma neighbours_overflow_grow W sizes a b :
  neighbours_overflow W (sizes ++ [a]) -> a <= b ->
  neighbours_overflow W (sizes ++ [b]).
Proof.
  induction sizes as [|x sizes IH]; simpl; [tauto|].
  destruct sizes as [|y sizes]; simpl in *; [intros; split; [lia|exact I]|].
  intros [Hxy H] Hab; split; [assumption|]. now apply IH.
Qed.

Lemma combine_loop_greedy W units : forall chunks cur size,
  size = len (concat (map split cur)) ->
  (cur = [] -> chunks = []) ->
  neighbours_overflow W (sizes_so_far chunks cur size) ->
  neighbours_overflow W (map word_count (combine_loop W units chunks cur size)).
Proof.
  unfold sizes_so_far.
  induction units as [|unit rest IH]; intros chunks cur size Hsize Hcur Hadj;
    simpl combine_loop; change [" "%char] with (s2l " ").
  - destruct cur as [|u cur]; simpl truthy in *; cbv iota in *.
    + now rewrite app_nil_r in Hadj.
    + rewrite map_app.
      change (map word_count [join (s2l " ") (u :: cur)])
        with [len (split (join (s2l " ") (u :: cur)))].
      rewrite split_join_space, <- Hsize. exact Hadj.
  - destruct (_ <=? W) eqn:Hfit.
    + apply IH.
      * rewrite map_app, concat_app, len_app; simpl; rewrite app_nil_r; lia.
      * now destruct cur.
      * replace (truthy (cur ++ [unit])) with true by now destruct cur.
        destruct cur as [|u cur]; simpl truthy in *; cbv iota in *.
        -- rewrite Hcur by reflexivity. exact I.
        -- apply neighbours_overflow_grow with (a := size); [assumption|].
           pose proof (len_nonneg (split unit)); lia.
    + apply Z.leb_gt in Hfit. apply IH.
      * simpl; now rewrite app_nil_r.
      * discriminate.
      * simpl truthy; cbv iota.
        destruct cur as [|u cur]; simpl truthy in *; cbv iota in *.
        -- rewrite Hcur by reflexivity. exact I.
        -- rewrite map_app.
           change (map word_count [join (s2l " ") (u :: cur)])
             with [len (split (join (s2l " ") (u :: cur)))].
           rewrite split_join_space, <- Hsize.
           apply neighbours_overflow_snoc; [assumption|lia].
Qed.

(** The packing is greedy: a chunk is closed only when the next unit would
    take it over the bound, so every two neighbouring chunks have more than
    [W] words together. *)
Theorem neighbouring_chunks_overflow (t : text) (W : Z) :
  neighbours_overflow W (map word_count (_split_into_chunks t W)).
Proof.
  rewrite split_into_chunks_units. unfold _combine_units.
  apply combine_loop_greedy; [reflexivity|reflexivity|exact I].
Qed.

End ChunkerPacking.

(** ** The chunks of the summary agent *)

Section AgentChunks.

Variable api : endpoint.
Variable api_key : text.
Variable simple_summarize : text -> Z -> text.

Lemma slices_upto_concat n : (0 < n)%nat -> forall fuel s,
  (length s <= fuel)%nat -> concat (ImprovedSummaryAgent.slices_upto fuel n s) = s.
Proof.
  intros Hn; induction fuel as [|fuel IH]; intros s Hs.
  - destruct s; [reflexivity|simpl in Hs; lia].
  - destruct s as [|c s]; [reflexivity|].
    cbn [ImprovedSummaryAgent.slices_upto concat].
    rewrite IH; [apply firstn_skipn|].
    rewrite length_skipn. simpl length in *. lia.
Qed.

Lemma slices_upto_bound n : (0 < n)%nat -> forall fuel s,
  Forall (fun chunk => chunk <> [] /\ (length chunk <= n)%nat)
    (ImprovedSummaryAgent.slices_upto fuel n s).
Proof.
  intros Hn; induction fuel as [|fuel IH]; intros s; [constructor|].
  destruct s as [|c s]; [constructor|].
  cbn [ImprovedSummaryAgent.slices_upto]. constructor; [|apply IH].
  split; [destruct n; [lia|discriminate]|].
  rewrite length_firstn; lia.
Qed.

(** Cutting a transcript into slices of [n] characters loses nothing: the
    slices put end to end are the transcript, none is empty and none is
    longer than [n]. *)
Theorem slices_partition_the_transcript (n : nat) (transcript : text) :
  (0 < n)%nat ->
  concat (ImprovedSummaryAgent.slices n transcript) = transcript
  /\ Forall (fun chunk => chunk <> [] /\ (length chunk <= n)%nat)
       (ImprovedSummaryAgent.slices n transcript).
Proof.
  intros Hn; split.
  - now apply slices_upto_concat.
  - now apply slices_upto_bound.
Qed.

Lemma slices_partition_the_transcript_witness :
  (0 < 4)%nat
  /\ concat (ImprovedSummaryAgent.slices 4 (s2l "abcdefghij")) = s2l "abcdefghij"
  /\ Forall (fun chunk => chunk <> [] /\ (length chunk <= 4)%nat)
       (ImprovedSummaryAgent.slices 4 (s2l "abcdefghij")).
Proof.
  assert (H : (0 < 4)%nat) by lia.
  split; [exact H|].
  exact (slices_partition_the_transcript 4 (s2l "abcdefghij") H).
Defined.

(** What the retry loop of one chunk leaves: either it appended a reply of
    more than 50 characters, or the last reply it read is too short; it
    sent at least one request and at most one for each attempt. *)
Lemma chunk_attempts_outcome r attempts : forall chunk_summary tr,
  exists last appended tr',
    ImprovedSummaryAgent.chunk_attempts api r attempts chunk_summary tr
    = (Return (last, appended), tr')
    /\ (appended = true ->
        exists s, last = Some s /\ ImprovedSummaryAgent.too_short (Some s) = false)
    /\ (appended = false ->
        ImprovedSummaryAgent.too_short chunk_summary = true ->
        ImprovedSummaryAgent.too_short last = true)
    /\ (completions tr' <= completions tr + length attempts)%nat
    /\ (attempts <> [] -> completions tr < completions tr')%nat
    /\ (completions tr <= completions tr')%nat.
Proof.
  induction attempts as [|attempt rest IH]; intros chunk_summary tr.
  - exists chunk_summary, false, tr; simpl; unfold ret.
    repeat split; try easy; lia.
  - simpl ImprovedSummaryAgent.chunk_attempts.
    unfold bind at 1, try_except, bind at 1, create.
    destruct (api (completions tr) r) as [content|].
    + destruct (truthy (strip content) && (50 <? len (strip content)))%bool eqn:Hlong.
      * exists (Some (strip content)), true, (tr ++ [Completion r]).
        unfold ret; rewrite completions_snoc_completion. simpl length.
        repeat split; try easy; try lia.
        intros _; exists (strip content); split; [reflexivity|].
        apply andb_true_iff in Hlong as [Ht Hl]. unfold ImprovedSummaryAgent.too_short.
        rewrite Ht. simpl. apply Z.leb_gt. now apply Z.ltb_lt.
      * unfold ret.
        destruct (IH (Some (strip content)) (tr ++ [Completion r]))
          as (last & appended & tr' & -> & Ha & Hs & Hle & _ & Hge).
        rewrite completions_snoc_completion in *.
        exists last, appended, tr'. simpl length.
        repeat split; try assumption; try lia.
        intros Hf _. apply Hs; [assumption|].
        unfold ImprovedSummaryAgent.too_short.
        apply andb_false_iff in Hlong as [Ht|Hl].
        -- now rewrite Ht.
        -- apply Z.ltb_ge in Hl. apply orb_true_iff; right. now apply Z.leb_le.
    + assert (Hsleep : exists tr1,
                ((if attempt <? 2 then sleep 2 else ret tt) ;;;
                 ret (chunk_summary, false)) (tr ++ [Completion r])
                = (Return (chunk_summary, false), tr1)
                /\ completions tr1 = S (completions tr)).
      { destruct (attempt <? _); unfold bind, sleep, emit, ret; eexists; split;
          try reflexivity;
          now rewrite ?completions_snoc_sleep, completions_snoc_completion. }
      destruct Hsleep as (tr1 & -> & Htr1).
      destruct (IH chunk_summary tr1)
        as (last & appended & tr' & -> & Ha & Hs & Hle & _ & Hge).
      exists last, appended, tr'. simpl length.
      repeat split; try assumption; try lia.
Qed.

(** What the loop over the chunks returns and sends. *)
Lemma summarize_chunks_outcome (video_title : text) (n i : Z)
    (chunks chunk_summaries : list text) (tr : trace) :
  exists added tr',
    ImprovedSummaryAgent.summarize_chunks api simple_summarize
      video_title n i chunks chunk_summaries tr
    = (Return (chunk_summaries ++ added), tr')
    /\ length added = length chunks
    /\ (completions tr + length chunks <= completions tr')%nat
    /\ (completions tr' <= completions tr + 3 * length chunks)%nat.
Proof.
  revert i chunk_summaries tr.
  induction chunks as [|chunk rest IH]; intros i chunk_summaries tr.
  - exists [], tr; simpl; unfold ret; rewrite app_nil_r. repeat split; lia.
  - cbn [ImprovedSummaryAgent.summarize_chunks]. unfold bind at 1.
    destruct (chunk_attempts_outcome
                (ImprovedSummaryAgent.chunk_request i n video_title chunk)
                (range (Z.to_nat ImprovedSummaryAgent.max_retries)) None tr)
      as (last & appended & tr1 & -> & Ha & Hs & Hle & Hlt & _).
    specialize (Hlt ltac:(discriminate)).
    change (length (range (Z.to_nat ImprovedSummaryAgent.max_retries))) with 3%nat in Hle.
    destruct appended.
    + destruct (Ha eq_refl) as (s & -> & Hlong). rewrite Hlong.
      destruct (IH (i + 1) (chunk_summaries ++ [s]) tr1) as (added & tr' & -> & Hn & H1 & H2).
      exists (s :: added), tr'. rewrite <- app_assoc. simpl length.
      repeat split; try lia.
    + rewrite (Hs eq_refl eq_refl).
      assert (Hsame : match last with
                      | Some _ => chunk_summaries
                      | None => chunk_summaries
                      end = chunk_summaries) by now destruct last.
      rewrite Hsame.
      destruct (IH (i + 1) (chunk_summaries ++ [simple_summarize chunk 3]) tr1)
        as (added & tr' & -> & Hn & H1 & H2).
      exists (simple_summarize chunk 3 :: added), tr'. rewrite <- app_assoc. simpl length.
      repeat split; try lia.
Qed.

Lemma too_short_unusable content :
  ImprovedSummaryAgent.too_short (Some (strip content)) = unusable 50 (Some content).
Proof.
  unfold ImprovedSummaryAgent.too_short, unusable.
  rewrite negb_andb. f_equal. now rewrite Z.ltb_antisym, negb_involutive.
Qed.

(** The retry loop of one chunk, decided by the replies: it stops at the
    first usable reply, and otherwise reads every reply. *)
Lemma chunk_attempts_decided r attempts : forall chunk_summary tr,
  ImprovedSummaryAgent.too_short chunk_summary = true ->
  exists last appended tr',
    ImprovedSummaryAgent.chunk_attempts api r attempts chunk_summary tr
    = (Return (last, appended), tr')
    /\ ((appended = true
         /\ exists k content,
              (k < length attempts)%nat
              /\ (forall j, (j < k)%nat ->
                    unusable 50 (api (completions tr + j)%nat r) = true)
              /\ api (completions tr + k)%nat r = Some content
              /\ unusable 50 (Some content) = false
              /\ last = Some (strip content)
              /\ completions tr' = (completions tr + (k + 1))%nat)
        \/ (appended = false
            /\ ImprovedSummaryAgent.too_short last = true
            /\ (forall j, (j < length attempts)%nat ->
                  unusable 50 (api (completions tr + j)%nat r) = true)
            /\ completions tr' = (completions tr + length attempts)%nat)).
Proof.
  induction attempts as [|attempt rest IH]; intros chunk_summary tr Hshort.
  - exists chunk_summary, false, tr. simpl. unfold ret. split; [reflexivity|].
    right. repeat split; [assumption| |lia]. intros j Hj; lia.
  - assert (Hnext : forall (seen : option text) (tr1 : trace),
              completions tr1 = S (completions tr) ->
              unusable 50 (api (completions tr) r) = true ->
              ImprovedSummaryAgent.too_short seen = true ->
              exists last appended tr',
                ImprovedSummaryAgent.chunk_attempts api r rest seen tr1
                = (Return (last, appended), tr')
                /\ ((appended = true
                     /\ exists k content,
                          (k < length (attempt :: rest))%nat
                          /\ (forall j, (j < k)%nat ->
                                unusable 50 (api (completions tr + j)%nat r) = true)
                          /\ api (completions tr + k)%nat r = Some content
                          /\ unusable 50 (Some content) = false
                          /\ last = Some (strip content)
                          /\ completions tr' = (completions tr + (k + 1))%nat)
                    \/ (appended = false
                        /\ ImprovedSummaryAgent.too_short last = true
                        /\ (forall j, (j < length (attempt :: rest))%nat ->
                              unusable 50 (api (completions tr + j)%nat r) = true)
                        /\ completions tr'
                           = (completions tr + length (attempt :: rest))%nat))).
    { intros seen tr1 Htr1 Hbad Hseen.
      assert (Hshift : forall j, (S (completions tr) + j = completions tr + S j)%nat)
        by (intros; lia).
      destruct (IH seen tr1 Hseen) as (last & appended & tr' & Hrun & Hres).
      exists last, appended, tr'. split; [exact Hrun|].
      rewrite Htr1 in Hres. simpl length.
      destruct Hres as [(Ha & k & content & Hk & Hbefore & Hreply & Hgood & Hlast & Hcount)
                       |(Ha & Hl & Hall & Hcount)].
      - left. split; [assumption|]. exists (S k), content.
        repeat split; try assumption; try lia.
        + intros j Hj. destruct j as [|j].
          * now rewrite Nat.add_0_r.
          * rewrite <- Hshift. apply Hbefore. lia.
        + now rewrite <- Hshift.
      - right. repeat split; try assumption; try lia.
        intros j Hj. destruct j as [|j].
        + now rewrite Nat.add_0_r.
        + rewrite <- Hshift. apply Hall. lia. }
    simpl ImprovedSummaryAgent.chunk_attempts.
    unfold bind at 1, try_except, bind at 1, create.
    destruct (api (completions tr) r) as [content|] eqn:Hreply.
    + destruct (truthy (strip content) && (50 <? len (strip content)))%bool eqn:Hlong.
      * exists (Some (strip content)), true, (tr ++ [Completion r]).
        unfold ret. split; [reflexivity|]. left. split; [reflexivity|].
        exists O, content. rewrite completions_snoc_completion, Nat.add_0_r.
        simpl length.
        split; [lia|]. split; [intros j Hj; lia|]. split; [assumption|].
        split; [unfold unusable; now rewrite Hlong|]. split; [reflexivity|lia].
      * unfold ret. apply Hnext.
        -- apply completions_snoc_completion.
        -- unfold unusable. now rewrite Hlong.
        -- rewrite too_short_unusable. unfold unusable. now rewrite Hlong.
    + assert (Hsleep : exists tr1,
                ((if attempt <? 2 then sleep 2 else ret tt) ;;;
                 ret (chunk_summary, false)) (tr ++ [Completion r])
                = (Return (chunk_summary, false), tr1)
                /\ completions tr1 = S (completions tr)).
      { destruct (attempt <? _); unfold bind, sleep, emit, ret; eexists; split;
          try reflexivity;
          now rewrite ?completions_snoc_sleep, completions_snoc_completion. }
      destruct Hsleep as (tr1 & -> & Htr1).
      now apply Hnext.
Qed.

(** The loop over the chunks raises nothing and adds exactly one summary
    for each chunk, in the order of the chunks. The summary of a chunk is
    the first of its three replies that has more than 50 characters,
    stripped, and no request follows that reply; when the three requests
    all fail or bring at most 50 characters, it is [simple_summarize(chunk,
    3)]. So the loop sends at least one request and at most three for each
    chunk. *)
Theorem one_summary_for_each_chunk (video_title : text) (n i : Z)
    (chunks chunk_summaries : list text) (tr : trace) :
  exists added tr',
    ImprovedSummaryAgent.summarize_chunks api simple_summarize
      video_title n i chunks chunk_summaries tr
    = (Return (chunk_summaries ++ added), tr')
    /\ summaries_of_chunks api simple_summarize video_title n
         (completions tr) i chunks added (completions tr')
    /\ length added = length chunks
    /\ (completions tr + length chunks <= completions tr')%nat
    /\ (completions tr' <= completions tr + 3 * length chunks)%nat.
Proof.
  revert i chunk_summaries tr.
  induction chunks as [|chunk rest IH]; intros i chunk_summaries tr.
  - exists [], tr; simpl; unfold ret; rewrite app_nil_r.
    repeat split; try lia. constructor.
  - cbn [ImprovedSummaryAgent.summarize_chunks]. unfold bind at 1.
    destruct (chunk_attempts_decided
                (ImprovedSummaryAgent.chunk_request i n video_title chunk)
                (range (Z.to_nat ImprovedSummaryAgent.max_retries)) None tr eq_refl)
      as (last & appended & tr1 & -> & Hres).
    change (length (range (Z.to_nat ImprovedSummaryAgent.max_retries))) with 3%nat in Hres.
    destruct Hres as [(-> & k & content & Hk & Hbefore & Hreply & Hgood & -> & Hcount)
                     |(-> & Hshort & Hall & Hcount)].
    + rewrite too_short_unusable, Hgood.
      destruct (IH (i + 1) (chunk_summaries ++ [strip content]) tr1)
        as (added & tr' & -> & Hsum & Hn & H1 & H2).
      exists (strip content :: added), tr'. rewrite <- app_assoc. simpl length.
      repeat split; try lia.
      apply summaries_of_more_chunks with (used := (k + 1)%nat).
      * now apply summary_from_reply.
      * now rewrite <- Hcount.
    + rewrite Hshort.
      assert (Hsame : match last with
                      | Some _ => chunk_summaries
                      | None => chunk_summaries
                      end = chunk_summaries) by now destruct last.
      rewrite Hsame.
      destruct (IH (i + 1) (chunk_summaries ++ [simple_summarize chunk 3]) tr1)
        as (added & tr' & -> & Hsum & Hn & H1 & H2).
      exists (simple_summarize chunk 3 :: added), tr'. rewrite <- app_assoc. simpl length.
      repeat split; try lia.
      apply summaries_of_more_chunks with (used := 3%nat).
      * now apply summary_by_extraction.
      * now rewrite <- Hcount.
Qed.

Lemma attempts_until_long_outcome r min_chars attempts : forall tr,
  exists returned tr',
    ImprovedSummaryAgent.attempts_until_long api r min_chars attempts tr
    = (Return returned, tr')
    /\ (completions tr <= completions tr')%nat
    /\ (completions tr' <= completions tr + length attempts)%nat.
Proof.
  induction attempts as [|attempt rest IH]; intros tr.
  - exists None, tr; simpl; unfold ret. repeat split; lia.
  - simpl ImprovedSummaryAgent.attempts_until_long.
    unfold bind at 1, try_except, bind at 1, create.
    destruct (api (completions tr) r) as [content|].
    + destruct (truthy (strip content) && (min_chars <? len (strip content)))%bool.
      * exists (Some (strip content)), (tr ++ [Completion r]).
        unfold ret; rewrite completions_snoc_completion. simpl length.
        repeat split; lia.
      * unfold ret.
        destruct (IH (tr ++ [Completion r])) as (returned & tr' & -> & H1 & H2).
        rewrite completions_snoc_completion in *.
        exists returned, tr'. simpl length. repeat split; lia.
    + assert (Hsleep : exists tr1,
                ((if attempt <? 2 then sleep 2 else ret tt) ;;;
                 ret (@None text)) (tr ++ [Completion r])
                = (Return None, tr1)
                /\ completions tr1 = S (completions tr)).
      { destruct (attempt <? _); unfold bind, sleep, emit, ret; eexists; split;
          try reflexivity;
          now rewrite ?completions_snoc_sleep, completions_snoc_completion. }
      destruct Hsleep as (tr1 & -> & Htr1).
      destruct (IH tr1) as (returned & tr' & -> & H1 & H2).
      exists returned, tr'. simpl length. repeat split; lia.
Qed.

(** With a key, a transcript of more than 12000 characters always gets a
    summary, never [None]: when the model fails on the final summary the
    summaries of the chunks are joined. The run raises nothing and sends at
    most three requests for each chunk and three for the final summary. *)
Theorem long_transcript_summary_is_not_none (transcript video_title : text) (tr : trace) :
  truthy api_key = true ->
  12000 < len transcript ->
  exists summary tr',
    ImprovedSummaryAgent.generate_openai_summary api api_key simple_summarize
      transcript video_title tr
    = (Return (Some summary), tr')
    /\ (completions tr' <= completions tr
          + 3 * (length (ImprovedSummaryAgent.slices
                           (Z.to_nat ImprovedSummaryAgent.max_chunk_size) transcript) + 1))%nat.
Proof.
  intros Hkey Hlong. unfold ImprovedSummaryAgent.generate_openai_summary, try_except.
  rewrite Hkey. change (negb true) with false. cbv beta iota.
  destruct (len (split transcript) <? 200).
  - exists transcript, tr. unfold ret. split; [reflexivity|lia].
  - assert (Hl : (ImprovedSummaryAgent.max_chunk_size <? len transcript) = true)
      by (apply Z.ltb_lt; exact Hlong).
    rewrite Hl.
    set (chunks := ImprovedSummaryAgent.slices
                     (Z.to_nat ImprovedSummaryAgent.max_chunk_size) transcript).
    unfold bind at 1.
    destruct (summarize_chunks_outcome video_title (len chunks) 0 chunks [] tr)
      as (added & tr1 & -> & Hn & _ & Hle).
    simpl app. unfold bind at 1.
    destruct (attempts_until_long_outcome
                (ImprovedSummaryAgent.final_request video_title
                   (join [nl; nl] (ImprovedSummaryAgent.label_parts 0 added)))
                100 (range (Z.to_nat ImprovedSummaryAgent.max_retries)) tr1)
      as (returned & tr2 & -> & _ & Hle2).
    change (length (range (Z.to_nat ImprovedSummaryAgent.max_retries))) with 3%nat in Hle2.
    destruct returned as [final_summary|]; unfold ret; eexists; eexists;
      (split; [reflexivity|lia]).
Qed.

End AgentChunks.

Lemma long_transcript_summary_is_not_none_witness :
  truthy sample_key = true
  /\ 12000 < len (sample_words 2401)
  /\ exists summary tr',
       ImprovedSummaryAgent.generate_openai_summary failing_api sample_key first_words
         (sample_words 2401) sample_title []
       = (Return (Some summary), tr')
       /\ (completions tr' <= completions []
             + 3 * (length (ImprovedSummaryAgent.slices
                              (Z.to_nat ImprovedSummaryAgent.max_chunk_size)
                              (sample_words 2401)) + 1))%nat.
Proof.
  assert (H1 : truthy sample_key = true) by reflexivity.
  assert (H2 : 12000 < len (sample_words 2401)) by (vm_compute; reflexivity).
  split; [exact H1|split; [exact H2|]].
  exact (long_transcript_summary_is_not_none failing_api sample_key first_words
           (sample_words 2401) sample_title [] H1 H2).
Defined.

(** ** The summarizer: what it sends, and that it raises nothing *)

Section SummarizerRuns.

Variable api : endpoint.
Variable _simple_summarize : text -> Z -> text.

Local Abbreviation summarize' := (OpenAISummarizer.summarize api _simple_summarize).

(** [summarize] and [summarize_long_text] raise nothing, whatever the
    endpoint does and however deep the calls nest: a failed call and the
    recursion limit both end in a summary. *)
Theorem summarizer_raises_nothing
    (depth : nat) (t : text) (max_length min_length : Z) (tr : trace) :
  (exists summary tr', summarize' depth t max_length min_length tr = (Return summary, tr'))
  /\ (exists summary tr',
        OpenAISummarizer.summarize_long_text api _simple_summarize depth
          t max_length min_length tr
        = (Return summary, tr')).
Proof.
  split; [apply summarize_returns|].
  unfold OpenAISummarizer.summarize_long_text, OpenAISummarizer.summarize_long_text_with.
  unfold bind at 1.
  destruct (summarize_chunks_returns
              (fun chunk => summarize' depth chunk (max_length / 2) (min_length / 2))
              (Chunker._split_into_chunks t 4000)
              (fun chunk => summarize_returns api _simple_summarize depth chunk _ _) tr)
    as (chunk_summaries & tr1 & -> & _).
  destruct (_ <? _).
  - apply try_except_returns. intros e tr2. unfold ret. now eexists; eexists.
  - unfold ret. now eexists; eexists.
Qed.

Lemma summarize_attempts_events r attempts : forall tr,
  exists returned events,
    OpenAISummarizer.summarize_attempts api r attempts tr = (Return returned, tr ++ events)
    /\ (completions events <= length attempts)%nat
    /\ Forall (attempt_event r) events.
Proof.
  induction attempts as [|attempt rest IH]; intros tr.
  - exists None, []; simpl; unfold ret; rewrite app_nil_r.
    repeat split; [unfold completions; simpl; lia|constructor].
  - cbn [OpenAISummarizer.summarize_attempts].
    unfold bind at 1, try_except, bind at 1, create.
    destruct (api (completions tr) r) as [content|].
    + destruct (truthy (strip content) && (50 <? len (strip content)))%bool.
      * exists (Some (strip content)), [Completion r]. unfold ret.
        repeat split; [unfold completions; simpl; lia|].
        constructor; [now left|constructor].
      * unfold ret. destruct (IH (tr ++ [Completion r])) as (returned & events & -> & Hn & Hev).
        exists returned, (Completion r :: events).
        rewrite <- app_assoc. repeat split.
        -- change (Completion r :: events) with ([Completion r] ++ events).
           rewrite completions_app. simpl length. unfold completions at 1. simpl. lia.
        -- constructor; [now left|assumption].
    + destruct (attempt <? OpenAISummarizer.max_retries - 1);
        unfold bind at 1, sleep, emit, ret.
      * destruct (IH ((tr ++ [Completion r]) ++ [Sleep 2]))
          as (returned & events & -> & Hn & Hev).
        exists returned, (Completion r :: Sleep 2 :: events).
        rewrite <- !app_assoc. repeat split.
        -- change (Completion r :: Sleep 2 :: events)
             with ([Completion r; Sleep 2] ++ events).
           rewrite completions_app. simpl length. unfold completions at 1. simpl. lia.
        -- constructor; [now left|constructor; [now right|assumption]].
      * destruct (IH (tr ++ [Completion r])) as (returned & events & -> & Hn & Hev).
        exists returned, (Completion r :: events).
        rewrite <- app_assoc. repeat split.
        -- change (Completion r :: events) with ([Completion r] ++ events).
           rewrite completions_app. simpl length. unfold completions at 1. simpl. lia.
        -- constructor; [now left|assumption].
Qed.

(** A text of at most 4000 words costs at most three requests, all of them
    the same request for a summary of the whole text; between them the
    summarizer only sleeps, two seconds at a time. *)
Theorem single_pass_sends_at_most_three_requests
    (depth : nat) (t : text) (max_length min_length : Z) (tr : trace) :
  len (split t) <= 4000 ->
  exists summary events,
    summarize' depth t max_length min_length tr = (Return summary, tr ++ events)
    /\ (completions events <= 3)%nat
    /\ Forall (attempt_event (OpenAISummarizer.summarize_request t max_length)) events.
Proof.
  intros Hhi. destruct (Z_lt_ge_dec (len (split t)) 100) as [Hshort|Hlo].
  - rewrite summarizer_short by assumption.
    exists t, []. rewrite app_nil_r.
    repeat split; [unfold completions; simpl; lia|constructor].
  - rewrite summarizer_single_pass by lia. unfold try_except, bind at 1.
    destruct (summarize_attempts_events
                (OpenAISummarizer.summarize_request t max_length) [0; 1; 2] tr)
      as (returned & events & -> & Hn & Hev).
    destruct returned as [summary|]; unfold ret; eexists; exists events;
      (repeat split; [exact Hn|exact Hev]).
Qed.

Lemma summarize_attempts_first_good r content : forall k attempts tr,
  (k < length attempts)%nat ->
  (forall j, (j < k)%nat -> unusable 50 (api (completions tr + j)%nat r) = true) ->
  api (completions tr + k)%nat r = Some content ->
  unusable 50 (Some content) = false ->
  exists tr',
    OpenAISummarizer.summarize_attempts api r attempts tr
    = (Return (Some (strip content)), tr')
    /\ completions tr' = (completions tr + k + 1)%nat.
Proof.
  induction k as [|k IH]; intros attempts tr Hk Hbad Hgood Husable;
    (destruct attempts as [|attempt rest]; [simpl in Hk; lia|]).
  - rewrite Nat.add_0_r in Hgood.
    cbn [OpenAISummarizer.summarize_attempts].
    unfold bind at 1, try_except, bind at 1, create. rewrite Hgood.
    simpl in Husable. apply negb_false_iff in Husable. rewrite Husable.
    unfold ret. eexists; split; [reflexivity|].
    rewrite completions_snoc_completion. lia.
  - rewrite summarize_attempts_step
      by (specialize (Hbad O ltac:(lia)); now rewrite Nat.add_0_r in Hbad).
    destruct (IH rest (tr ++ Completion r :: pause_after (api (completions tr) r) attempt))
      as (tr' & -> & Hn).
    + simpl in Hk; lia.
    + intros j Hj. rewrite completions_attempt.
      replace (S (completions tr) + j)%nat with (completions tr + S j)%nat by lia.
      apply Hbad; lia.
    + rewrite completions_attempt.
      now replace (S (completions tr) + k)%nat with (completions tr + S k)%nat by lia.
    + assumption.
    + exists tr'. split; [reflexivity|]. rewrite Hn, completions_attempt. lia.
Qed.

(** The first reply of more than 50 characters is the summary, stripped,
    and no request follows it: after [k] unusable replies ([k] below 3) and
    a usable one, [summarize] has sent [k + 1] requests. *)
Theorem first_usable_reply_is_the_summary
    (depth : nat) (t : text) (max_length min_length : Z) (tr : trace)
    (k : nat) (content : text) :
  100 <= len (split t) <= 4000 ->
  (k < 3)%nat ->
  (forall j, (j < k)%nat ->
     unusable 50
       (api (completions tr + j)%nat (OpenAISummarizer.summarize_request t max_length))
     = true) ->
  api (completions tr + k)%nat (OpenAISummarizer.summarize_request t max_length)
  = Some content ->
  unusable 50 (Some content) = false ->
  exists tr',
    summarize' depth t max_length min_length tr = (Return (strip content), tr')
    /\ completions tr' = (completions tr + k + 1)%nat.
Proof.
  intros Hwc Hk Hbad Hgood Husable.
  rewrite summarizer_single_pass by assumption. unfold try_except, bind at 1.
  destruct (summarize_attempts_first_good
              (OpenAISummarizer.summarize_request t max_length) content
              k [0; 1; 2] tr Hk Hbad Hgood Husable) as (tr' & -> & Hn).
  exists tr'. now split.
Qed.

End SummarizerRuns.

Lemma single_pass_sends_at_most_three_requests_witness :
  len (split (sample_words 120)) <= 4000
  /\ exists summary events,
       OpenAISummarizer.summarize failing_api first_words 0 (sample_words 120) 150 50 []
       = (Return summary, [] ++ events)
       /\ (completions events <= 3)%nat
       /\ Forall (attempt_event (OpenAISummarizer.summarize_request (sample_words 120) 150))
            events.
Proof.
  assert (H : len (split (sample_words 120)) <= 4000) by (vm_compute; discriminate).
  split; [exact H|].
  exact (single_pass_sends_at_most_three_requests failing_api first_words 0
           (sample_words 120) 150 50 [] H).
Defined.

Lemma first_usable_reply_is_the_summary_witness :
  exists tr',
    OpenAISummarizer.summarize second_try_api first_words 0 (sample_words 120) 150 50 []
    = (Return (strip sample_reply), tr')
    /\ completions tr' = (completions [] + 1 + 1)%nat.
Proof.
  assert (H1 : 100 <= len (split (sample_words 120)) <= 4000)
    by (split; vm_compute; discriminate).
  assert (H2 : (1 < 3)%nat) by lia.
  assert (H3 : forall j, (j < 1)%nat ->
            unusable 50
              (second_try_api (completions [] + j)%nat
                 (OpenAISummarizer.summarize_request (sample_words 120) 150)) = true)
    by (intros [|j] Hj; [reflexivity|lia]).
  assert (H4 : second_try_api (completions [] + 1)%nat
                 (OpenAISummarizer.summarize_request (sample_words 120) 150)
               = Some sample_reply) by reflexivity.
  assert (H5 : unusable 50 (Some sample_reply) = false) by (vm_compute; reflexivity).
  exact (first_usable_reply_is_the_summary second_try_api first_words 0
           (sample_words 120) 150 50 [] 1 sample_reply H1 H2 H3 H4 H5).
Defined.

(** ** Comparing videos: what a run does *)

Section ComparisonRuns.
Import VideoComparison.

Variable api : endpoint.
Variable openai_api_key : option text.
Variable decode : text -> option ComparisonResult.

(** [compare_videos] raises nothing and sends at most one request.
    Without a summary, or without an API key, it sends nothing and returns
    the fallback comparison. Otherwise it sends exactly one request, and it
    returns what the reply decodes to; when the request fails, or the reply
    does not decode, it returns the fallback comparison. *)
Theorem compare_videos_sends_at_most_one_request
    (summaries : list summary) (tr : trace) :
  compare_videos api openai_api_key decode summaries tr
  = match summaries with
    | [] => (Return (_generate_fallback_comparison summaries), tr)
    | _ :: _ =>
        if has_key openai_api_key
        then
          (Return
             match api (completions tr) (comparison_request summaries) with
             | Some response_content =>
                 match decode response_content with
                 | Some result => result
                 | None => _generate_fallback_comparison summaries
                 end
             | None => _generate_fallback_comparison summaries
             end,
           tr ++ [Completion (comparison_request summaries)])
        else (Return (_generate_fallback_comparison summaries), tr)
    end.
Proof.
  unfold compare_videos, try_except.
  destruct summaries as [|s rest]; [reflexivity|].
  unfold bind at 1, ret at 1.
  destruct (has_key openai_api_key).
  - change (negb true) with false; cbv beta iota.
    unfold bind, create.
    destruct (api (completions tr) (comparison_request (s :: rest))) as [content|];
      [|reflexivity].
    now destruct (decode content).
  - reflexivity.
Qed.

(** Comparing no video at all: the first log line reads [summaries[0]],
    which raises, and the outer handler answers with the generic
    comparison. No request is sent, with or without a key. *)
Theorem comparing_no_video_gives_the_generic_result (tr : trace) :
  compare_videos api openai_api_key decode [] tr
  = (Return
       {| commonTopics :=
            [s2l "Both videos discuss related topics"; s2l "They share educational content"];
          differences :=
            [ s2l "Videos have different approaches";
              s2l "Videos cover different aspects of the topic" ];
          recommendation := s2l "Watch videos in any order based on your interest." |},
     tr).
Proof. reflexivity. Qed.

End ComparisonRuns.

(** ** The video id: round trips *)

Section VideoIdRoundTrip.
Import SimpleApp.

Lemma alphabet_is_id_char c : In c id_alphabet -> is_id_char c = true.
Proof.
  unfold id_alphabet, s2l; simpl.
  intros H. repeat (destruct H as [<-|H]; [reflexivity|]). destruct H.
Qed.

Lemma well_formed_id_chars id :
  well_formed_id id -> length id = 11%nat /\ forallb is_id_char id = true.
Proof.
  intros [Hlen Hall]; split; [assumption|].
  apply forallb_forall. intros c Hc. apply alphabet_is_id_char.
  rewrite Forall_forall in Hall; auto.
Qed.

(** The id pattern reads a well-formed id off the head of a text. *)
Lemma id_at_app id rest : well_formed_id id -> id_at (id ++ rest) = Some id.
Proof.
  intros H; apply well_formed_id_chars in H as [Hlen Hall]. unfold id_at.
  replace (firstn 11 (id ++ rest)) with id.
  - now rewrite Hlen, Hall.
  - rewrite <- Hlen, firstn_app, firstn_all, Nat.sub_diag. simpl. now rewrite app_nil_r.
Qed.

Lemma search_prefixed_next alternatives c s :
  match_prefixed alternatives (c :: s) = None ->
  search_prefixed alternatives (c :: s) = search_prefixed alternatives s.
Proof. intros H; simpl search_prefixed. now rewrite H. Qed.

Lemma search_prefixed_here alternatives s group :
  match_prefixed alternatives s = Some group ->
  search_prefixed alternatives s = Some group.
Proof. intros H; destruct s; simpl search_prefixed; now rewrite H. Qed.

Lemma starts_with_forallb (p : ascii -> bool) a s :
  starts_with a s = true -> forallb p s = true -> forallb p a = true.
Proof.
  revert s; induction a as [|x a IH]; intros [|y s]; simpl; try easy.
  intros H1 H2. apply andb_true_iff in H1 as [Hxy Ha], H2 as [Hy Hs].
  apply Ascii.eqb_eq in Hxy; subst. rewrite Hy. simpl. eauto.
Qed.

(** No prefix that holds a character outside the id alphabet matches
    inside a run of id characters. *)
Lemma match_prefixed_among_id_chars alternatives s :
  Forall (fun a => forallb is_id_char a = false) alternatives ->
  forallb is_id_char s = true ->
  match_prefixed alternatives s = None.
Proof.
  intros Halt Hs; induction Halt as [|a others Ha _ IH]; simpl; [reflexivity|].
  destruct (starts_with a s) eqn:E; [|exact IH].
  rewrite (starts_with_forallb is_id_char a s E Hs) in Ha. discriminate.
Qed.

Lemma search_prefixed_among_id_chars alternatives s :
  Forall (fun a => forallb is_id_char a = false) alternatives ->
  forallb is_id_char s = true ->
  search_prefixed alternatives s = None.
Proof.
  intros Halt; induction s as [|c s IH]; intros Hs.
  - simpl search_prefixed. now rewrite match_prefixed_among_id_chars.
  - simpl search_prefixed. rewrite match_prefixed_among_id_chars by assumption.
    apply IH. simpl in Hs. now apply andb_true_iff in Hs.
Qed.

Lemma search_prefixed_skip alternatives pre s :
  no_match_within alternatives pre s = true ->
  search_prefixed alternatives (pre ++ s) = search_prefixed alternatives s.
Proof.
  induction pre as [|c pre IH]; [reflexivity|].
  cbn [no_match_within]. destruct (match_prefixed alternatives ((c :: pre) ++ s)) eqn:E;
    [discriminate|].
  intros H. simpl app in *. rewrite search_prefixed_next by assumption. auto.
Qed.

(** The first pattern finds the id behind [pre ++ last], when [last] is one
    of its prefixes and nothing matches inside [pre]. *)
Lemma first_pattern_finds_the_id pre last id rest :
  well_formed_id id ->
  In last [s2l "v="; s2l "/"] ->
  no_match_within [s2l "v="; s2l "/"] pre (last ++ id ++ rest) = true ->
  search_prefixed [s2l "v="; s2l "/"] (pre ++ last ++ id ++ rest) = Some id.
Proof.
  intros Hid Hlast Hpre. rewrite search_prefixed_skip by assumption.
  apply search_prefixed_here. pose proof (id_at_app id rest Hid) as Hat.
  destruct Hlast as [<-|[<-|[]]]; simpl match_prefixed; simpl app; now rewrite Hat.
Qed.

(** Round trip: a well-formed id is read back from the id alone and from
    the usual URLs built on it (watch, short link, shorts, embed),
    whatever follows the id. *)
Theorem video_id_round_trip (id rest : text) :
  well_formed_id id ->
  extract_video_id id = Some id
  /\ extract_video_id (s2l "https://www.youtube.com/watch?v=" ++ id ++ rest) = Some id
  /\ extract_video_id (s2l "https://youtu.be/" ++ id ++ rest) = Some id
  /\ extract_video_id (s2l "https://www.youtube.com/shorts/" ++ id ++ rest) = Some id
  /\ extract_video_id (s2l "https://www.youtube.com/embed/" ++ id ++ rest) = Some id.
Proof.
  intros Hid. pose proof (well_formed_id_chars id Hid) as [Hlen Hall].
  unfold extract_video_id. split; [|repeat split].
  - rewrite !search_prefixed_among_id_chars;
      try assumption; try (repeat constructor).
    simpl first_match. unfold search_whole.
    pose proof (id_at_app id [] Hid) as Hat0. rewrite app_nil_r in Hat0. rewrite Hat0.
    rewrite <- Hlen, skipn_all. reflexivity.
  - change (s2l "https://www.youtube.com/watch?v=" ++ id ++ rest)
      with (s2l "https://www.youtube.com/watch?" ++ s2l "v=" ++ id ++ rest).
    rewrite first_pattern_finds_the_id; [reflexivity|assumption|now left|].
    destruct id as [|c1 [|c2 [|c3 [|c4 [|c5 [|c6 [|c7 [|c8 [|c9 [|c10 [|c11 [|]]]]]]]]]]]];
      try discriminate Hlen.
    vm_compute; reflexivity.
  - change (s2l "https://youtu.be/" ++ id ++ rest)
      with (s2l "https://youtu.be" ++ s2l "/" ++ id ++ rest).
    rewrite first_pattern_finds_the_id; [reflexivity|assumption|now right; left|].
    destruct id as [|c1 [|c2 [|c3 [|c4 [|c5 [|c6 [|c7 [|c8 [|c9 [|c10 [|c11 [|]]]]]]]]]]]];
      try discriminate Hlen.
    vm_compute; reflexivity.
  - change (s2l "https://www.youtube.com/shorts/" ++ id ++ rest)
      with (s2l "https://www.youtube.com/shorts" ++ s2l "/" ++ id ++ rest).
    rewrite first_pattern_finds_the_id; [reflexivity|assumption|now right; left|].
    destruct id as [|c1 [|c2 [|c3 [|c4 [|c5 [|c6 [|c7 [|c8 [|c9 [|c10 [|c11 [|]]]]]]]]]]]];
      try discriminate Hlen.
    vm_compute; reflexivity.
  - change (s2l "https://www.youtube.com/embed/" ++ id ++ rest)
      with (s2l "https://www.youtube.com/embed" ++ s2l "/" ++ id ++ rest).
    rewrite first_pattern_finds_the_id; [reflexivity|assumption|now right; left|].
    destruct id as [|c1 [|c2 [|c3 [|c4 [|c5 [|c6 [|c7 [|c8 [|c9 [|c10 [|c11 [|]]]]]]]]]]]];
      try discriminate Hlen.
    vm_compute; reflexivity.
Qed.

End VideoIdRoundTrip.

Lemma video_id_round_trip_witness :
  well_formed_id (s2l "dQw4w9WgXcQ")
  /\ SimpleApp.extract_video_id (s2l "dQw4w9WgXcQ") = Some (s2l "dQw4w9WgXcQ")
  /\ SimpleApp.extract_video_id
       (s2l "https://www.youtube.com/watch?v=" ++ s2l "dQw4w9WgXcQ" ++ s2l "&t=10s")
     = Some (s2l "dQw4w9WgXcQ")
  /\ SimpleApp.extract_video_id (s2l "https://youtu.be/" ++ s2l "dQw4w9WgXcQ" ++ s2l "&t=10s")
     = Some (s2l "dQw4w9WgXcQ")
  /\ SimpleApp.extract_video_id
       (s2l "https://www.youtube.com/shorts/" ++ s2l "dQw4w9WgXcQ" ++ s2l "&t=10s")
     = Some (s2l "dQw4w9WgXcQ")
  /\ SimpleApp.extract_video_id
       (s2l "https://www.youtube.com/embed/" ++ s2l "dQw4w9WgXcQ" ++ s2l "&t=10s")
     = Some (s2l "dQw4w9WgXcQ").
Proof.
  assert (H : well_formed_id (s2l "dQw4w9WgXcQ")).
  { split; [reflexivity|].
    repeat (apply Forall_cons; [apply is_id_char_alphabet; reflexivity|]). constructor. }
  split; [exact H|].
  exact (video_id_round_trip (s2l "dQw4w9WgXcQ") (s2l "&t=10s") H).
Defined.

(** ** Words, and slices of lists of words *)

Section WordLists.
Import PyList.

Lemma tokens_words s :
  Forall (fun c => isspace c = false) (fst (tokens s))
  /\ Forall a_word (snd (tokens s)).
Proof.
  induction s as [|c s [IHw IHws]]; simpl; [split; constructor|].
  destruct (tokens s) as [w ws]; simpl in *.
  destruct (isspace c) eqn:E; simpl.
  - split; [constructor|]. unfold push.
    destruct w as [|x w]; simpl; [assumption|].
    constructor; [|assumption]. split; [discriminate|assumption].
  - split; [now constructor|assumption].
Qed.

(** What [str.split()] returns are words. *)
Lemma split_words s : Forall a_word (split s).
Proof.
  unfold split. pose proof (tokens_words s) as [Hw Hws].
  destruct (tokens s) as [w ws]; simpl in *. unfold push.
  destruct w as [|x w]; simpl; [assumption|].
  constructor; [|assumption]. split; [discriminate|assumption].
Qed.

Lemma tokens_word w :
  Forall (fun c => isspace c = false) w -> tokens w = (w, []).
Proof.
  induction 1 as [|c w Hc Hw IH]; simpl; [reflexivity|]. now rewrite IH, Hc.
Qed.

Lemma split_word w : a_word w -> split w = [w].
Proof.
  intros [Hne Hw]. unfold split. rewrite tokens_word by assumption.
  destruct w; [congruence|reflexivity].
Qed.

(** Words joined by single spaces split into the same words. *)
Lemma split_join_words ws : Forall a_word ws -> split (join (s2l " ") ws) = ws.
Proof.
  intros H. rewrite split_join_space.
  induction H as [|w ws Hw Hws IH]; simpl; [reflexivity|].
  now rewrite split_word, IH.
Qed.

Lemma Forall_firstn {A} (P : A -> Prop) n l : Forall P l -> Forall P (firstn n l).
Proof.
  intros H; revert n; induction H as [|x l Hx Hl IH]; intros [|n]; simpl;
    constructor; auto.
Qed.

Lemma Forall_skipn {A} (P : A -> Prop) n l : Forall P l -> Forall P (skipn n l).
Proof.
  intros H; revert n; induction H as [|x l Hx Hl IH]; intros [|n]; simpl;
    try constructor; auto.
Qed.

Lemma firstn_plus {A} (a b : nat) (l : list A) :
  firstn a l ++ firstn b (skipn a l) = firstn (a + b) l.
Proof.
  revert l; induction a as [|a IH]; intros l; [reflexivity|].
  destruct l as [|x l]; simpl; [now destruct b|]. now rewrite IH.
Qed.

Lemma Forall_slice {A} (P : A -> Prop) start stop l :
  Forall P l -> Forall P (slice start stop l).
Proof. intros H; unfold slice. now apply Forall_firstn, Forall_skipn. Qed.

(** A slice of the words of a text, joined by single spaces, has these
    words again. *)
Lemma split_join_slice start stop t :
  split (join (s2l " ") (slice start stop (split t))) = slice start stop (split t).
Proof. apply split_join_words, Forall_slice, split_words. Qed.

Lemma slice_in_a_row {A} start stop (l : list A) :
  exists before after, l = before ++ slice start stop l ++ after.
Proof.
  unfold slice.
  exists (firstn (Z.to_nat start) l),
         (skipn (Z.to_nat (stop - start)) (skipn (Z.to_nat start) l)).
  now rewrite firstn_skipn, firstn_skipn.
Qed.

Lemma len_slice {A} start stop (l : list A) :
  0 <= start -> len (slice start stop l) <= Z.max 0 (stop - start).
Proof.
  intros Hs. unfold slice, len. rewrite length_firstn. lia.
Qed.

Lemma len_map {A B} (f : A -> B) l : len (map f l) = len l.
Proof. unfold len; now rewrite length_map. Qed.

Lemma len_range n : len (range n) = Z.of_nat n.
Proof. unfold len, range; now rewrite length_map, length_seq. Qed.

Lemma range_S n : range (S n) = range n ++ [Z.of_nat n].
Proof. unfold range. rewrite seq_S, map_app. reflexivity. Qed.

Lemma in_range_bounds i n : In i (range n) -> 0 <= i < Z.of_nat n.
Proof.
  unfold range. rewrite in_map_iff. intros (k & <- & Hk).
  apply in_seq in Hk. lia.
Qed.

(** Slices that follow each other make up a prefix. *)
Lemma consecutive_slices {A} (l : list A) (size : Z) (n : nat) :
  0 <= size ->
  concat (map (fun i => slice (i * size) (i * size + size) l) (range n))
  = firstn (Z.to_nat (Z.of_nat n * size)) l.
Proof.
  intros Hsize. induction n as [|n IH]; [reflexivity|].
  rewrite range_S, map_app, concat_app, IH. simpl map. simpl concat.
  rewrite app_nil_r. unfold slice.
  replace (Z.of_nat n * size + size - Z.of_nat n * size) with size by lia.
  replace (Z.to_nat (Z.of_nat (S n) * size))
    with (Z.to_nat (Z.of_nat n * size) + Z.to_nat size)%nat by nia.
  apply firstn_plus.
Qed.

End WordLists.

(** ** Segments of a transcript, and the key points made of them *)

Section Segments.
Import KeyPoints PyList KeyPointExtraction.

Lemma slice_to_end {A} (start : Z) (l : list A) :
  0 <= start -> slice start (len l) l = skipn (Z.to_nat start) l.
Proof.
  intros Hs. unfold slice. apply firstn_all2. rewrite length_skipn. unfold len. lia.
Qed.

(** The segments are as many as asked for, and their words, one segment
    after the other, are the words of the transcript. *)
Theorem segments_keep_the_words (transcript : text) (num_segments : Z) :
  0 < num_segments ->
  exists segments,
    split_transcript_into_segments transcript num_segments = Some segments
    /\ len segments = num_segments
    /\ concat (map split segments) = split transcript.
Proof.
  intros Hn. unfold split_transcript_into_segments.
  replace (num_segments =? 0) with false by (symmetry; apply Z.eqb_neq; lia).
  eexists; split; [reflexivity|]. split.
  - rewrite len_map, len_range. lia.
  - set (words := split transcript). set (size := len words / num_segments).
    assert (Hsize : 0 <= size) by (apply Z.div_pos; [apply len_nonneg|lia]).
    assert (Hfit : (num_segments - 1) * size <= len words).
    { pose proof (Z.mul_div_le (len words) num_segments Hn). fold size in H. nia. }
    rewrite map_map.
    destruct (Z.to_nat num_segments) as [|k] eqn:Hk; [lia|].
    assert (Hk' : Z.of_nat k = num_segments - 1) by lia.
    rewrite range_S, map_app, concat_app. cbn [map concat]. rewrite app_nil_r.
    replace (Z.of_nat k <? num_segments - 1) with false by (symmetry; apply Z.ltb_ge; lia).
    rewrite (map_ext_in _ (fun i => slice (i * size) (i * size + size) words)).
    + rewrite consecutive_slices by assumption.
      unfold words in *. rewrite split_join_slice.
      rewrite slice_to_end by nia. apply firstn_skipn.
    + intros i Hi. apply in_range_bounds in Hi.
      replace (i <? num_segments - 1) with true by (symmetry; apply Z.ltb_lt; lia).
      unfold words. apply split_join_slice.
Qed.

Lemma segments_keep_the_words_witness :
  0 < 3
  /\ exists segments,
       split_transcript_into_segments (s2l "a b c d e f g h") 3 = Some segments
       /\ len segments = 3
       /\ concat (map split segments) = split (s2l "a b c d e f g h").
Proof.
  assert (H : 0 < 3) by lia.
  split; [exact H|].
  exact (segments_keep_the_words (s2l "a b c d e f g h") 3 H).
Defined.

(** The simple extraction always gives five key points, at 0, 4, 8, 12 and
    16 minutes; each is a run of at most 40 consecutive words of the
    transcript, joined by single spaces. *)
Theorem five_points_of_at_most_forty_words (transcript video_id : text) :
  map timestamp (simple_extract_key_points transcript video_id)
  = [s2l "0:00"; s2l "4:00"; s2l "8:00"; s2l "12:00"; s2l "16:00"]
  /\ Forall
       (fun kp =>
          word_count (point kp) <= 40
          /\ words_in_a_row (split (point kp)) transcript
          /\ point kp = join (s2l " ") (split (point kp)))
       (simple_extract_key_points transcript video_id).
Proof.
  split; [reflexivity|].
  unfold simple_extract_key_points. apply Forall_forall. intros kp Hkp.
  apply in_map_iff in Hkp as (i & <- & Hi). apply in_range_bounds in Hi.
  cbn [point]. unfold word_count. rewrite split_join_slice.
  repeat split.
  - etransitivity; [apply len_slice; lia|]. lia.
  - apply slice_in_a_row.
Qed.

End Segments.

(** ** Key points: what the parsers let through *)

Section ParsedKeyPoints.
Import KeyPoints.

Lemma span_parts p s : s = fst (span p s) ++ snd (span p s).
Proof.
  induction s as [|c s IH]; simpl; [reflexivity|].
  destruct (p c); [|reflexivity].
  destruct (span p s) as [run rest]; simpl in *. now rewrite <- IH.
Qed.

Lemma span_run p s : forallb p (fst (span p s)) = true.
Proof.
  induction s as [|c s IH]; simpl; [reflexivity|].
  destruct (p c) eqn:E; [|reflexivity].
  destruct (span p s) as [run rest]; simpl in *. now rewrite E.
Qed.

Lemma digit_is_no_colon c : is_digit c = true -> is_char ":" c = false.
Proof.
  destruct c as [[] [] [] [] [] [] [] []]; vm_compute; intros H;
    first [reflexivity | discriminate H].
Qed.

Lemma digits_hold_no_colon s :
  forallb is_digit s = true -> existsb (is_char ":") s = false.
Proof.
  induction s as [|c s IH]; simpl; [reflexivity|].
  intros H; apply andb_true_iff in H as [Hc Hs].
  now rewrite digit_is_no_colon, IH.
Qed.

Lemma timestamp_at_shape s ts :
  timestamp_at s = Some ts ->
  exists minutes colon seconds,
    ts = minutes ++ colon ++ seconds
    /\ minutes <> []
    /\ forallb is_digit minutes = true
    /\ forallb is_digit seconds = true
    /\ (colon = [] \/ colon = s2l ":").
Proof.
  unfold timestamp_at. destruct s as [|c s1]; [discriminate|].
  destruct (is_char "[" c); [|discriminate].
  pose proof (span_run is_digit s1) as Hm.
  destruct (span is_digit s1) as [minutes s2]; simpl in Hm.
  destruct (truthy minutes) eqn:Hne; [|discriminate].
  assert (Hcolon : exists colon s3,
            (match s2 with
             | c2 :: rest => if is_char ":" c2 then ([c2], rest) else ([], s2)
             | [] => ([], [])
             end) = (colon, s3) /\ (colon = [] \/ colon = s2l ":")).
  { destruct s2 as [|c2 rest]; [now exists [], []; auto|].
    destruct (is_char ":" c2) eqn:E.
    - apply Ascii.eqb_eq in E; subst. exists (s2l ":"), rest; auto.
    - exists [], (c2 :: rest); auto. }
  destruct Hcolon as (colon & s3 & -> & Hcolon).
  pose proof (span_run is_digit s3) as Hs.
  destruct (span is_digit s3) as [seconds s4]; simpl in Hs.
  destruct s4 as [|c4 s5]; [discriminate|].
  destruct (is_char "]" c4); [|discriminate].
  intros [= <-]. exists minutes, colon, seconds. repeat split; try assumption.
  now destruct minutes.
Qed.

Lemma search_timestamp_shape line ts :
  search_timestamp line = Some ts ->
  exists minutes colon seconds,
    ts = minutes ++ colon ++ seconds
    /\ minutes <> []
    /\ forallb is_digit minutes = true
    /\ forallb is_digit seconds = true
    /\ (colon = [] \/ colon = s2l ":").
Proof.
  induction line as [|c line IH]; [discriminate|].
  cbn [search_timestamp]. destruct (timestamp_at (c :: line)) as [group|] eqn:E.
  - intros [= <-]. eapply timestamp_at_shape; eassumption.
  - exact IH.
Qed.

(** A timestamp without a colon gets ":00"; either way it is clock-like. *)
Lemma completed_timestamp_clock_like line ts :
  search_timestamp line = Some ts ->
  clock_like (if existsb (is_char ":") ts then ts else ts ++ s2l ":00").
Proof.
  intros H. apply search_timestamp_shape in H
    as (minutes & colon & seconds & -> & Hne & Hm & Hs & [->| ->]).
  - simpl app. rewrite digits_hold_no_colon
      by (rewrite forallb_app; now rewrite Hm, Hs).
    exists (minutes ++ seconds), (s2l "00"). repeat split.
    + now destruct minutes.
    + rewrite forallb_app; now rewrite Hm, Hs.
  - rewrite existsb_app. replace (existsb (is_char ":") (s2l ":" ++ seconds)) with true
      by reflexivity.
    rewrite orb_true_r. now exists minutes, seconds.
Qed.

Lemma parse_lines_well_formed lines : forall key_points,
  Forall well_formed_key_point key_points ->
  Forall well_formed_key_point (parse_lines lines key_points).
Proof.
  induction lines as [|line rest IH]; intros key_points Hkp; cbn [parse_lines];
    [assumption|].
  destruct (negb (truthy (strip line))); [now apply IH|].
  destruct (search_timestamp (strip line)) as [ts|] eqn:Hts; [|now apply IH].
  destruct (truthy (strip (after_bracket (strip line) (strip line)))) eqn:Hpt;
    [|now apply IH].
  apply IH, Forall_app; split; [assumption|]. constructor; [|constructor].
  split; [|split]; cbn [timestamp point].
  - eapply completed_timestamp_clock_like; eassumption.
  - now destruct (strip (after_bracket (strip line) (strip line))).
  - apply strip_idempotent.
Qed.

(** Whatever the model replies, the bracket parser lets through only
    well-formed key points: a timestamp of digits, a colon and digits, and a
    text that is stripped and not empty. *)
Theorem bracket_parser_gives_well_formed_key_points (key_points_text : text) :
  Forall well_formed_key_point (parse_key_points key_points_text).
Proof. apply parse_lines_well_formed. constructor. Qed.

(** *** The dash parser *)

Lemma rev_starts_clean_app pre s :
  s <> [] -> ends_clean (pre ++ s) -> ends_clean s.
Proof.
  unfold ends_clean. rewrite rev_app_distr. intros Hne.
  destruct (rev s) as [|c r] eqn:E.
  - apply (f_equal (@rev ascii)) in E. rewrite rev_involutive in E. now subst.
  - simpl. tauto.
Qed.

Lemma strip_ends_clean s : ends_clean (strip s).
Proof.
  unfold ends_clean, strip, rstrip. rewrite rev_involutive.
  apply lstrip_starts_clean.
Qed.

Lemma ends_clean_not_blank s : s <> [] -> ends_clean s -> forallb isspace s = false.
Proof.
  unfold ends_clean. intros Hne Hclean.
  destruct (forallb isspace s) eqn:E; [|reflexivity].
  destruct (rev s) as [|c r] eqn:Er.
  - apply (f_equal (@rev ascii)) in Er. rewrite rev_involutive in Er. now subst.
  - simpl in Hclean. rewrite forallb_forall in E.
    rewrite E in Hclean; [discriminate|]. apply in_rev. rewrite Er. now left.
Qed.

Lemma lstrip_suffix s : exists pre, s = pre ++ lstrip s.
Proof.
  induction s as [|c s [pre IH]]; simpl; [now exists []|].
  destruct (isspace c); [|now exists []].
  exists (c :: pre). simpl. now rewrite <- IH.
Qed.

Lemma dash_description_none s : dash_description s = None -> forallb isspace s = true.
Proof.
  induction s as [|c s IH]; [reflexivity|]. cbn [dash_description].
  destruct (isspace c) eqn:E; [|discriminate].
  destruct (dash_description s); [discriminate|].
  destruct (is_char nl c); [|discriminate].
  intros _. simpl. rewrite E. now apply IH.
Qed.

Lemma nl_is_space c : is_char nl c = true -> isspace c = true.
Proof. intros H. apply Ascii.eqb_eq in H. now subst. Qed.

(** The description starts with a character that is no whitespace, unless
    all that follows the dash is whitespace. *)
Lemma dash_description_not_blank s description :
  dash_description s = Some description ->
  forallb isspace s = false ->
  strip description <> [].
Proof.
  induction s as [|c s IH]; [discriminate|]. cbn [dash_description].
  destruct (isspace c) eqn:E.
  - destruct (dash_description s) as [d|] eqn:Hd.
    + intros [= <-] Hb. apply IH; [reflexivity|]. simpl in Hb. now rewrite E in Hb.
    + intros _ Hb. apply dash_description_none in Hd. simpl in Hb.
      rewrite E, Hd in Hb. discriminate.
  - intros [= <-] _. cbn [span].
    replace (negb (is_char nl c)) with true.
    + destruct (span (fun c0 => negb (is_char nl c0)) s) as [run rest]. cbn [fst].
      unfold strip. cbn [lstrip]. rewrite E.
      rewrite rstrip_cons_nonspace by assumption. discriminate.
    + destruct (is_char nl c) eqn:En; [|reflexivity].
      apply nl_is_space in En. congruence.
Qed.

Lemma drop_numbering_suffix line : exists pre, line = pre ++ drop_numbering line.
Proof.
  unfold drop_numbering. pose proof (span_parts is_digit line) as Hparts.
  destruct (span is_digit line) as [digits rest]; simpl in Hparts.
  destruct (truthy digits); [|now exists []].
  destruct rest as [|c rest']; [now exists []|].
  destruct (is_char "." c); [|now exists []].
  destruct (lstrip_suffix rest') as [pre Hpre].
  exists (digits ++ c :: pre). rewrite Hparts at 1. rewrite Hpre at 1.
  now rewrite <- app_assoc.
Qed.

Lemma match_dash_line_shape line ts description :
  ends_clean line ->
  match_dash_line line = Some (ts, description) ->
  clock_like ts /\ strip description <> [].
Proof.
  intros Hclean. unfold match_dash_line.
  pose proof (span_parts is_digit line) as Hparts.
  pose proof (span_run is_digit line) as Hm.
  destruct (span is_digit line) as [minutes s1]; simpl in Hparts, Hm.
  destruct (truthy minutes) eqn:Hne; [|discriminate].
  destruct s1 as [|c1 s2]; [discriminate|].
  destruct (is_char ":" c1) eqn:Hc1; [|discriminate].
  apply Ascii.eqb_eq in Hc1; subst c1.
  pose proof (span_parts is_digit s2) as Hparts2.
  pose proof (span_run is_digit s2) as Hs.
  destruct (span is_digit s2) as [seconds s3]; simpl in Hparts2, Hs.
  destruct (truthy seconds) eqn:Hne2; [|discriminate].
  destruct (lstrip_suffix s3) as [spaces Hs3].
  destruct (lstrip s3) as [|c3 s4]; [discriminate|].
  destruct (is_char "-" c3); [|discriminate].
  destruct (dash_description s4) as [d|] eqn:Hd; [|discriminate].
  intros [= <- <-]. split.
  - exists minutes, seconds. repeat split; try assumption. now destruct minutes.
  - apply (dash_description_not_blank s4); [assumption|].
    destruct s4 as [|c4 s5]; [discriminate Hd|].
    apply ends_clean_not_blank; [discriminate|].
    apply (rev_starts_clean_app (minutes ++ ":"%char :: seconds ++ spaces ++ [c3]));
      [discriminate|].
    rewrite Hparts, Hparts2, Hs3 in Hclean.
    now rewrite <- !app_assoc; simpl; rewrite <- !app_assoc.
Qed.

Lemma suffix_ends_clean pre s : ends_clean (pre ++ s) -> ends_clean s.
Proof.
  destruct s as [|c s]; [intros _; exact I|].
  apply rev_starts_clean_app. discriminate.
Qed.

Lemma parse_dash_lines_well_formed lines : forall key_points,
  Forall well_formed_key_point key_points ->
  Forall well_formed_key_point (parse_dash_lines lines key_points).
Proof.
  induction lines as [|line rest IH]; intros key_points Hkp; cbn [parse_dash_lines];
    [assumption|].
  destruct (_ || _)%bool; [now apply IH|].
  destruct (match_dash_line (drop_numbering (strip line))) as [[ts description]|] eqn:Hm;
    [|now apply IH].
  apply IH, Forall_app; split; [assumption|]. constructor; [|constructor].
  apply match_dash_line_shape in Hm as [Hts Hd].
  - split; [|split]; cbn [timestamp point]; [assumption|assumption|apply strip_idempotent].
  - destruct (drop_numbering_suffix (strip line)) as [pre Hpre].
    apply (suffix_ends_clean pre). rewrite <- Hpre. apply strip_ends_clean.
Qed.

(** The dash parser, too, lets through only well-formed key points,
    whatever the model replies. *)
Theorem dash_parser_gives_well_formed_key_points (key_points_text : text) :
  Forall well_formed_key_point (parse_dash_key_points key_points_text).
Proof. apply parse_dash_lines_well_formed. constructor. Qed.

End ParsedKeyPoints.

(** ** Key points: how many, and of what form *)

Section ExtractedKeyPoints.
Import KeyPoints PyList KeyPointExtraction.

Variable api : endpoint.
Variable api_key : text.
Variable lexrank_key_points : text -> option (list KeyPoint).

Lemma uint_digits d :
  forallb is_digit (s2l (NilEmpty.string_of_uint d)) = true.
Proof. induction d; simpl; try assumption; reflexivity. Qed.

(** [str(n)] is a run of digits that is not empty, for [n] not negative. *)
Lemma str_of_Z_digits n :
  0 <= n -> str_of_Z n <> [] /\ forallb is_digit (str_of_Z n) = true.
Proof.
  intros Hn. unfold str_of_Z. destruct n as [|p|p]; [split; [discriminate|reflexivity]| |lia].
  cbn [Z.to_int NilZero.string_of_int]. unfold NilZero.string_of_uint.
  pose proof (DecimalPos.Unsigned.to_uint_nonnil p) as Hnil.
  destruct (Pos.to_uint p) eqn:E; try congruence;
    (split; [discriminate|]); rewrite <- E at 1;
    rewrite <- (uint_digits (Pos.to_uint p)); now rewrite E.
Qed.

Lemma two_digits_digits n :
  0 <= n -> forallb is_digit (Transcripts.two_digits n) = true.
Proof.
  intros Hn. unfold Transcripts.two_digits.
  destruct (_ && _)%bool; [simpl|]; now apply str_of_Z_digits.
Qed.

Lemma clock_is_clock_like minutes seconds :
  0 <= minutes -> 0 <= seconds -> clock_like (clock minutes seconds).
Proof.
  intros Hm Hs. exists (str_of_Z minutes), (Transcripts.two_digits seconds).
  destruct (str_of_Z_digits minutes Hm) as [Hne Hd].
  repeat split; try assumption. now apply two_digits_digits.
Qed.

Lemma strip_keeps_last x c :
  isspace c = false -> exists body, strip (x ++ [c]) = body ++ [c].
Proof.
  intros Hc. unfold strip. rewrite lstrip_app_nonspace by assumption.
  exists (lstrip x). unfold rstrip.
  rewrite rev_app_distr. simpl rev. simpl app. cbn [lstrip]. rewrite Hc.
  simpl rev. now rewrite rev_involutive.
Qed.

Lemma split_on_from_nonempty sep s skip : split_on_from sep s skip <> [].
Proof.
  revert skip; induction s as [|c s IH]; intros skip; simpl; [easy|].
  destruct skip; [|apply IH].
  destruct (starts_with sep (c :: s)); [easy|].
  specialize (IH O). now destruct (split_on_from sep s 0).
Qed.

Lemma first_sentence_ends_with_stop segment :
  exists body, first_sentence segment = body ++ s2l ".".
Proof.
  unfold first_sentence. pose proof (split_on_from_nonempty (s2l ".") segment 0) as Hne.
  unfold split_on. destruct (split_on_from (s2l ".") segment 0) as [|first rest];
    [congruence|].
  now apply strip_keeps_last.
Qed.

Lemma first_sentence_well_formed segment :
  first_sentence segment <> [] /\ strip (first_sentence segment) = first_sentence segment.
Proof.
  split.
  - destruct (first_sentence_ends_with_stop segment) as [body ->]. now destruct body.
  - unfold first_sentence. destruct (split_on _ _); apply strip_idempotent.
Qed.

(** The spread timestamps stay within ten minutes. *)
Lemma spread_timestamp_bounds i num_points :
  0 <= i < num_points ->
  exists minutes seconds,
    0 <= minutes <= 9 /\ 0 <= seconds <= 59
    /\ spread_timestamp i num_points = clock minutes seconds.
Proof.
  intros [Hi Hn]. unfold spread_timestamp.
  exists ((i * 10) / num_points), (((i * 10) mod num_points) * (60 / num_points)).
  assert (Hpos : 0 < num_points) by lia.
  pose proof (Z.mod_pos_bound (i * 10) num_points Hpos) as Hmod.
  pose proof (Z.mul_div_le 60 num_points Hpos) as Hq.
  assert (0 <= 60 / num_points) by (apply Z.div_pos; lia).
  repeat split; try reflexivity.
  - apply Z.div_pos; lia.
  - assert ((i * 10) / num_points < 10) by (apply Z.div_lt_upper_bound; lia). lia.
  - nia.
  - nia.
Qed.

Lemma generated_point_shape t num_points i :
  0 <= i < num_points ->
  within_ten_minutes (generated_point t num_points i)
  /\ well_formed_key_point (generated_point t num_points i).
Proof.
  intros Hi. destruct (spread_timestamp_bounds i num_points Hi)
    as (minutes & seconds & Hm & Hs & Hts).
  unfold within_ten_minutes, well_formed_key_point, generated_point. cbn [timestamp point].
  rewrite Hts. repeat split.
  - now exists minutes, seconds.
  - apply first_sentence_ends_with_stop.
  - apply clock_is_clock_like; lia.
  - apply first_sentence_well_formed.
  - apply first_sentence_well_formed.
Qed.

(** How many points the simple extraction makes. *)
Lemma simple_count words num_points :
  0 <= words -> 0 < num_points ->
  Z.min num_points (words / Z.max 1 (words / num_points)) = Z.min num_points words.
Proof.
  intros Hw Hn. destruct (Z_lt_ge_dec words num_points) as [Hlt|Hge].
  - rewrite (Z.div_small words num_points) by lia.
    now rewrite Z.max_l, Z.div_1_r by lia.
  - assert (1 <= words / num_points) by (apply Z.div_le_lower_bound; lia).
    rewrite Z.max_r by lia.
    assert (num_points <= words / (words / num_points)).
    { apply Z.div_le_lower_bound; [lia|].
      rewrite Z.mul_comm. apply Z.mul_div_le. lia. }
    lia.
Qed.

Lemma simple_key_points_shape t video_id num_points :
  0 < num_points ->
  exists key_points,
    _simple_extract_key_points t video_id num_points = Some key_points
    /\ len key_points = Z.min num_points (word_count t)
    /\ Forall within_ten_minutes key_points
    /\ Forall well_formed_key_point key_points.
Proof.
  intros Hn. unfold _simple_extract_key_points.
  replace (num_points =? 0) with false by (symmetry; apply Z.eqb_neq; lia).
  eexists; split; [reflexivity|].
  pose proof (simple_count (len (split t)) num_points (len_nonneg _) Hn) as Hcount.
  split; [|split].
  - rewrite len_map, len_range, Hcount. unfold word_count.
    pose proof (len_nonneg (split t)). lia.
  - apply Forall_forall. intros kp Hkp.
    apply in_map_iff in Hkp as (i & <- & Hi). apply in_range_bounds in Hi.
    assert (Hin : 0 <= i < num_points) by lia.
    destruct (spread_timestamp_bounds i num_points Hin)
      as (minutes & seconds & Hm & Hs & Hts).
    split; cbn [timestamp point].
    + exists minutes, seconds. now rewrite Hts.
    + apply first_sentence_ends_with_stop.
  - apply Forall_forall. intros kp Hkp.
    apply in_map_iff in Hkp as (i & <- & Hi). apply in_range_bounds in Hi.
    assert (Hin : 0 <= i < num_points) by lia.
    destruct (spread_timestamp_bounds i num_points Hin)
      as (minutes & seconds & Hm & Hs & Hts).
    split; [|split]; cbn [timestamp point].
    + rewrite Hts. apply clock_is_clock_like; lia.
    + apply first_sentence_well_formed.
    + apply first_sentence_well_formed.
Qed.

(** Without the model, the summarizer makes up [num_points] key points, or
    one for each word when the text has fewer words. Their timestamps lie
    within ten minutes, seconds below 60, and each text ends with a full
    stop. *)
Theorem made_up_key_points (t video_id : text) (num_points : Z) :
  0 < num_points ->
  exists key_points,
    _simple_extract_key_points t video_id num_points = Some key_points
    /\ len key_points = Z.min num_points (word_count t)
    /\ Forall within_ten_minutes key_points.
Proof.
  intros Hn. destruct (simple_key_points_shape t video_id num_points Hn)
    as (key_points & H1 & H2 & H3 & _).
  now exists key_points.
Qed.

Lemma made_up_key_points_witness :
  0 < 5
  /\ exists key_points,
       _simple_extract_key_points (s2l "One two. Three four five six. Seven eight")
         (s2l "dQw4w9WgXcQ") 5
       = Some key_points
       /\ len key_points
          = Z.min 5 (word_count (s2l "One two. Three four five six. Seven eight"))
       /\ Forall within_ten_minutes key_points.
Proof.
  assert (H : 0 < 5) by lia.
  split; [exact H|].
  exact (made_up_key_points (s2l "One two. Three four five six. Seven eight")
           (s2l "dQw4w9WgXcQ") 5 H).
Defined.

Lemma len_prefix_exact {A} (n : Z) (l : list A) :
  0 <= n <= len l -> len (prefix n l) = n.
Proof.
  intros Hn. unfold prefix.
  replace (n <? 0) with false by (symmetry; apply Z.ltb_ge; lia).
  unfold len in *. rewrite length_firstn. lia.
Qed.

Lemma Forall_prefix {A} (P : A -> Prop) n l : Forall P l -> Forall P (prefix n l).
Proof. intros H. unfold prefix. destruct (n <? 0); now apply Forall_firstn. Qed.

(** For a positive number of points, [extract_key_points] raises nothing
    and sends one request. When the model replies, whatever it replies,
    the result has exactly [num_points] key points: those parsed from the
    reply first, made-up ones for the rest. When the call fails, the result
    is the simple extraction. Every key point returned is well formed. *)
Theorem extract_key_points_count (t video_id : text) (num_points : Z) (tr : trace) :
  0 < num_points ->
  exists key_points,
    extract_key_points api t video_id num_points tr
    = (Return key_points, tr ++ [Completion (key_points_request t num_points)])
    /\ match api (completions tr) (key_points_request t num_points) with
       | Some content =>
           len key_points = num_points
           /\ prefix num_points (parse_dash_key_points (strip content))
              = prefix (len (parse_dash_key_points (strip content))) key_points
       | None =>
           _simple_extract_key_points t video_id num_points = Some key_points
       end
    /\ Forall well_formed_key_point key_points.
Proof.
  intros Hn. unfold extract_key_points, try_except, bind, create.
  destruct (api (completions tr) (key_points_request t num_points)) as [content|].
  - set (parsed := parse_dash_key_points (strip content)).
    assert (Hparsed : Forall well_formed_key_point parsed)
      by (apply parse_dash_lines_well_formed; constructor).
    unfold ret. eexists; split; [reflexivity|].
    pose proof (len_nonneg parsed) as Hp.
    destruct (len parsed <? num_points) eqn:Hlt.
    + apply Z.ltb_lt in Hlt.
      assert (Hlen : len (parsed ++ map (generated_point t num_points)
                                     (range (Z.to_nat (num_points - len parsed))))
                     = num_points)
        by (rewrite len_app, len_map, len_range; lia).
      repeat split.
      * rewrite len_prefix_exact; lia.
      * unfold prefix at 1 2 3.
        replace (num_points <? 0) with false by (symmetry; apply Z.ltb_ge; lia).
        replace (len parsed <? 0) with false by (symmetry; apply Z.ltb_ge; lia).
        rewrite (firstn_all2 parsed) by (unfold len in *; lia).
        rewrite (firstn_all2 (parsed ++ _)) by (unfold len in *; lia).
        unfold len. rewrite Nat2Z.id.
        rewrite firstn_app, firstn_all, Nat.sub_diag. simpl. now rewrite app_nil_r.
      * apply Forall_prefix, Forall_app; split; [assumption|].
        apply Forall_forall. intros kp Hkp.
        apply in_map_iff in Hkp as (i & <- & Hi). apply in_range_bounds in Hi.
        apply generated_point_shape. lia.
    + apply Z.ltb_ge in Hlt. repeat split.
      * rewrite len_prefix_exact; lia.
      * unfold prefix.
        replace (num_points <? 0) with false by (symmetry; apply Z.ltb_ge; lia).
        replace (len parsed <? 0) with false by (symmetry; apply Z.ltb_ge; lia).
        rewrite firstn_firstn. f_equal. lia.
      * now apply Forall_prefix.
  - destruct (simple_key_points_shape t video_id num_points Hn)
      as (key_points & -> & _ & _ & Hwf).
    unfold ret. exists key_points. repeat split. assumption.
Qed.

Lemma key_point_attempts_outcome r attempts : forall tr,
  exists returned tr',
    key_point_attempts api r attempts tr = (Return returned, tr')
    /\ match returned with
       | Some key_points =>
           exists k content,
             (k < length attempts)%nat
             /\ (forall j, (j < k)%nat ->
                   too_few_key_points (api (completions tr + j)%nat r) = true)
             /\ api (completions tr + k)%nat r = Some content
             /\ key_points = parse_key_points (strip content)
             /\ 3 <= len key_points
             /\ Forall well_formed_key_point key_points
             /\ completions tr' = (completions tr + k + 1)%nat
       | None =>
           (forall j, (j < length attempts)%nat ->
              too_few_key_points (api (completions tr + j)%nat r) = true)
           /\ completions tr' = (completions tr + length attempts)%nat
       end.
Proof.
  induction attempts as [|attempt rest IH]; intros tr.
  - exists None, tr. simpl. unfold ret. repeat split; [|lia].
    intros j Hj; lia.
  - cbn [key_point_attempts].
    unfold bind at 1, try_except, bind at 1, create.
    assert (Hnext : forall tr1 : trace,
              completions tr1 = S (completions tr) ->
              too_few_key_points (api (completions tr) r) = true ->
              forall returned tr',
                match returned with
                | Some key_points =>
                    exists k content,
                      (k < length rest)%nat
                      /\ (forall j, (j < k)%nat ->
                            too_few_key_points (api (completions tr1 + j)%nat r) = true)
                      /\ api (completions tr1 + k)%nat r = Some content
                      /\ key_points = parse_key_points (strip content)
                      /\ 3 <= len key_points
                      /\ Forall well_formed_key_point key_points
                      /\ completions tr' = (completions tr1 + k + 1)%nat
                | None =>
                    (forall j, (j < length rest)%nat ->
                       too_few_key_points (api (completions tr1 + j)%nat r) = true)
                    /\ completions tr' = (completions tr1 + length rest)%nat
                end ->
                match returned with
                | Some key_points =>
                    exists k content,
                      (k < length (attempt :: rest))%nat
                      /\ (forall j, (j < k)%nat ->
                            too_few_key_points (api (completions tr + j)%nat r) = true)
                      /\ api (completions tr + k)%nat r = Some content
                      /\ key_points = parse_key_points (strip content)
                      /\ 3 <= len key_points
                      /\ Forall well_formed_key_point key_points
                      /\ completions tr' = (completions tr + k + 1)%nat
                | None =>
                    (forall j, (j < length (attempt :: rest))%nat ->
                       too_few_key_points (api (completions tr + j)%nat r) = true)
                    /\ completions tr' = (completions tr + length (attempt :: rest))%nat
                end).
    { intros tr1 Htr1 Hfew returned tr' Hres. rewrite Htr1 in Hres.
      assert (Hshift : forall j, (S (completions tr) + j = completions tr + S j)%nat)
        by (intros; lia).
      destruct returned as [key_points|].
      - destruct Hres as (k & content & Hk & Hbefore & Hreply & Hkp & Hlen & Hwf & Hcount).
        exists (S k), content. simpl length. repeat split; try assumption; try lia.
        + intros j Hj. destruct j as [|j].
          * now rewrite Nat.add_0_r.
          * rewrite <- Hshift. apply Hbefore. lia.
        + now rewrite <- Hshift.
      - destruct Hres as [Hall Hcount]. simpl length. split; [|lia].
        intros j Hj. destruct j as [|j].
        + now rewrite Nat.add_0_r.
        + rewrite <- Hshift. apply Hall. lia. }
    destruct (api (completions tr) r) as [content|] eqn:Hreply.
    + destruct (3 <=? len (parse_key_points (strip content))) eqn:Hmany; unfold ret.
      * exists (Some (parse_key_points (strip content))), (tr ++ [Completion r]).
        split; [reflexivity|].
        exists O, content. rewrite completions_snoc_completion, Nat.add_0_r.
        simpl length.
        split; [lia|]. split; [intros j Hj; lia|]. split; [assumption|].
        split; [reflexivity|]. split; [now apply Z.leb_le|].
        split; [|lia]. apply parse_lines_well_formed. constructor.
      * destruct (IH (tr ++ [Completion r])) as (returned & tr' & -> & Hres).
        exists returned, tr'. split; [reflexivity|].
        apply (Hnext (tr ++ [Completion r])); try assumption.
        -- apply completions_snoc_completion.
        -- cbn [too_few_key_points]. apply Z.ltb_lt. apply Z.leb_gt in Hmany. lia.
    + assert (Hsleep : exists tr1,
                ((if attempt <? 3 - 1 then sleep 2 else ret tt) ;;;
                 ret (@None (list KeyPoint))) (tr ++ [Completion r])
                = (Return None, tr1)
                /\ completions tr1 = S (completions tr)).
      { destruct (attempt <? _); unfold bind, sleep, emit, ret; eexists; split;
          try reflexivity;
          now rewrite ?completions_snoc_sleep, completions_snoc_completion. }
      destruct Hsleep as (tr1 & -> & Htr1).
      destruct (IH tr1) as (returned & tr' & -> & Hres).
      exists returned, tr'. split; [reflexivity|].
      apply (Hnext tr1); try assumption. reflexivity.
Qed.

(** With a key and a transcript of at least 200 words,
    [extract_key_points_with_openai] raises nothing and sends at most three
    requests. The key points it returns come from one reply:
    they are all the key points of the first reply that holds at least three
    (nothing is kept from an earlier reply), they are well formed, and no
    request follows that reply. It returns [None] when each of the three
    requests failed or brought fewer than three key points. *)
Theorem key_points_from_the_model (transcript video_id : text) (tr : trace) :
  truthy api_key = true ->
  200 <= len (split transcript) ->
  exists returned tr',
    extract_key_points_with_openai api api_key lexrank_key_points transcript video_id tr
    = (Return returned, tr')
    /\ (completions tr' <= completions tr + 3)%nat
    /\ match returned with
       | Some key_points =>
           exists k content,
             (k < 3)%nat
             /\ (forall j, (j < k)%nat ->
                   too_few_key_points
                     (api (completions tr + j)%nat (timestamped_request transcript)) = true)
             /\ api (completions tr + k)%nat (timestamped_request transcript) = Some content
             /\ key_points = parse_key_points (strip content)
             /\ 3 <= len key_points
             /\ Forall well_formed_key_point key_points
             /\ completions tr' = (completions tr + k + 1)%nat
       | None =>
           (forall j, (j < 3)%nat ->
              too_few_key_points
                (api (completions tr + j)%nat (timestamped_request transcript)) = true)
           /\ completions tr' = (completions tr + 3)%nat
       end.
Proof.
  intros Hkey Hlong. unfold extract_key_points_with_openai, try_except.
  rewrite Hkey. change (negb true) with false. cbv beta iota.
  replace (len (split transcript) <? 200) with false by (symmetry; apply Z.ltb_ge; lia).
  destruct (key_point_attempts_outcome (timestamped_request transcript) (range 3) tr)
    as (returned & tr' & -> & Hres).
  change (length (range 3)) with 3%nat in Hres.
  exists returned, tr'. split; [reflexivity|]. split; [|exact Hres].
  destruct returned as [key_points|].
  - destruct Hres as (k & content & Hk & _ & _ & _ & _ & _ & ->). lia.
  - destruct Hres as [_ ->]. lia.
Qed.

End ExtractedKeyPoints.

Lemma extract_key_points_count_witness :
  0 < 5
  /\ exists key_points,
       KeyPointExtraction.extract_key_points two_points_api (sample_words 12)
         (s2l "dQw4w9WgXcQ") 5 []
       = (Return key_points,
          [] ++ [Completion (KeyPointExtraction.key_points_request (sample_words 12) 5)])
       /\ match two_points_api (completions [])
                (KeyPointExtraction.key_points_request (sample_words 12) 5) with
          | Some content =>
              len key_points = 5
              /\ PyList.prefix 5 (KeyPoints.parse_dash_key_points (strip content))
                 = PyList.prefix (len (KeyPoints.parse_dash_key_points (strip content)))
                     key_points
          | None =>
              KeyPointExtraction._simple_extract_key_points (sample_words 12)
                (s2l "dQw4w9WgXcQ") 5
              = Some key_points
          end
       /\ Forall well_formed_key_point key_points.
Proof.
  assert (H : 0 < 5) by lia.
  split; [exact H|].
  exact (extract_key_points_count two_points_api (sample_words 12) (s2l "dQw4w9WgXcQ") 5 [] H).
Defined.

Lemma key_points_from_the_model_witness :
  truthy sample_key = true
  /\ 200 <= len (split (sample_words 200))
  /\ exists returned tr',
       KeyPointExtraction.extract_key_points_with_openai bracket_points_api sample_key
         (fun _ => None) (sample_words 200) (s2l "dQw4w9WgXcQ") []
       = (Return returned, tr')
       /\ (completions tr' <= completions [] + 3)%nat
       /\ match returned with
          | Some key_points =>
              exists k content,
                (k < 3)%nat
                /\ (forall j, (j < k)%nat ->
                      too_few_key_points
                        (bracket_points_api (completions [] + j)%nat
                           (KeyPointExtraction.timestamped_request (sample_words 200)))
                      = true)
                /\ bracket_points_api (completions [] + k)%nat
                     (KeyPointExtraction.timestamped_request (sample_words 200))
                   = Some content
                /\ key_points = KeyPoints.parse_key_points (strip content)
                /\ 3 <= len key_points
                /\ Forall well_formed_key_point key_points
                /\ completions tr' = (completions [] + k + 1)%nat
          | None =>
              (forall j, (j < 3)%nat ->
                 too_few_key_points
                   (bracket_points_api (completions [] + j)%nat
                      (KeyPointExtraction.timestamped_request (sample_words 200)))
                 = true)
              /\ completions tr' = (completions [] + 3)%nat
          end.
Proof.
  assert (H1 : truthy sample_key = true) by reflexivity.
  assert (H2 : 200 <= len (split (sample_words 200))) by (vm_compute; discriminate).
  split; [exact H1|split; [exact H2|]].
  exact (key_points_from_the_model bracket_points_api sample_key (fun _ => None)
           (sample_words 200) (s2l "dQw4w9WgXcQ") [] H1 H2).
Defined.

(** ** Start times *)

Section StartTimes.
Import Transcripts.

(** A float that is no number is NaN or one of the two infinities. *)
Lemma no_number_cases x :
  no_number x ->
  x = PrimFloat.nan \/ x = PrimFloat.infinity \/ x = PrimFloat.neg_infinity.
Proof.
  unfold no_number, PrimFloat.is_finite. intros H.
  apply negb_false_iff, orb_true_iff in H.
  rewrite <- (FloatAxioms.SF2Prim_Prim2SF x).
  destruct H as [H|H].
  - left. unfold FloatOps.Prim2SF. now rewrite H.
  - right. unfold PrimFloat.is_infinity in H.
    rewrite FloatAxioms.eqb_spec, FloatAxioms.abs_spec in H.
    destruct (FloatOps.Prim2SF x) as [sign|sign| |sign m e]; try discriminate H.
    destruct sign; [now right|now left].
Qed.

Lemma no_number_no_clock x : no_number x -> forall hours minutes seconds,
  ~ clock_of x hours minutes seconds.
Proof.
  intros H hours minutes seconds [Hh _].
  destruct (no_number_cases x H) as [->|[->| ->]]; vm_compute in Hh; discriminate Hh.
Qed.

Lemma no_number_no_stamp x : no_number x -> forall minutes seconds,
  ~ stamp_clock_of x minutes seconds.
Proof.
  intros H minutes seconds [Hm _].
  destruct (no_number_cases x H) as [->|[->| ->]]; vm_compute in Hm; discriminate Hm.
Qed.

Lemma int_raises x message :
  PyFloat.int_of_float x = inr message -> conversion_error message.
Proof.
  unfold PyFloat.int_of_float. destruct (PyFloat.exact x) as [[m e]|]; [discriminate|].
  destruct (PrimFloat.is_nan x); intros [= <-]; [now left|now right].
Qed.

(** What the body of the loop does with one item: the entry, or the
    exception of a conversion. *)
Lemma format_segment_outcome item tr :
  (exists f, format_segment item tr = (Return f, tr) /\ start_time_of item f)
  \/ (exists message,
        format_segment item tr = (Raise (Failure message), tr)
        /\ conversion_error message /\ no_start_time item).
Proof.
  unfold format_segment, no_start_time, start_time_of, clock_of, int.
  destruct (PyFloat.int_of_float (PyFloat.floor_div (start item) (PyFloat.of_int 3600)))
    as [hours|message] eqn:Hh.
  2: { right. exists message. unfold bind, raise. repeat split.
       - now apply (int_raises _ _ Hh).
       - intros h m s [H _]. discriminate H. }
  destruct (PyFloat.int_of_float
              (PyFloat.floor_div (PyFloat.modulo (start item) (PyFloat.of_int 3600))
                 (PyFloat.of_int 60)))
    as [minutes|message] eqn:Hm.
  2: { right. exists message. unfold bind, raise, ret. repeat split.
       - now apply (int_raises _ _ Hm).
       - intros h m s [_ [H _]]. discriminate H. }
  destruct (PyFloat.int_of_float (PyFloat.modulo (start item) (PyFloat.of_int 60)))
    as [seconds|message] eqn:Hs.
  2: { right. exists message. unfold bind, raise, ret. repeat split.
       - now apply (int_raises _ _ Hs).
       - intros h m s [_ [_ H]]. discriminate H. }
  left. eexists. unfold bind, ret. split; [reflexivity|].
  split; [reflexivity|]. exists hours, minutes, seconds. now repeat split.
Qed.

Lemma format_all_outcome transcript_list tr :
  (exists formatted_transcript,
     format_all transcript_list tr = (Return formatted_transcript, tr)
     /\ Forall2 start_time_of transcript_list formatted_transcript)
  \/ (exists message,
        format_all transcript_list tr = (Raise (Failure message), tr)
        /\ conversion_error message /\ Exists no_start_time transcript_list).
Proof.
  induction transcript_list as [|item rest IH]; cbn [format_all].
  - left. exists []. split; [reflexivity|constructor].
  - unfold bind.
    destruct (format_segment_outcome item tr) as [(f & E & Hf)|(message & E & Hm & Hno)];
      rewrite E.
    + destruct IH as [(more & E' & Hmore)|(message & E' & Hm & Hno)]; rewrite E'.
      * left. exists (f :: more). split; [reflexivity|now constructor].
      * right. exists message. repeat split; [assumption|now apply Exists_cons_tl].
    + right. exists message. repeat split; [assumption|now apply Exists_cons_hd].
Qed.

(** An entry can be made from an item only when its start time can be
    read. *)
Lemma start_times_exclude transcript_list formatted_transcript :
  Forall2 start_time_of transcript_list formatted_transcript ->
  Exists no_start_time transcript_list -> False.
Proof.
  induction 1 as [|item f rest more Hf _ IH]; intros Hex; inversion Hex; subst.
  - destruct Hf as (_ & h & m & s & Hclock & _). now apply (H0 h m s).
  - now apply IH.
Qed.

(** When the source has the items, [get_transcript] raises nothing and
    sends nothing. Either it returns one entry for each item, in order: the
    item's text, and as start time the three numbers [int(x // 3600)],
    [int((x % 3600) // 60)] and [int(x % 60)] of the item's offset [x], the
    last two on two digits. Or, when one of these conversions raises for
    some item, it returns the mock transcript and no entry at all. An
    offset that is NaN or infinite is such an item. *)
Theorem formatted_start_times (fetch : source) (video_id : PyStr.text)
    (transcript_list : list segment) (tr : trace) :
  fetch video_id = inl transcript_list ->
  exists formatted_transcript,
    get_transcript true fetch video_id tr = (Return formatted_transcript, tr)
    /\ ((Forall2 start_time_of transcript_list formatted_transcript
         /\ Forall (fun item => ~ no_start_time item) transcript_list)
        \/ (formatted_transcript = generate_mock_transcript video_id
            /\ Exists no_start_time transcript_list))
    /\ (Exists (fun item => no_number (start item)) transcript_list ->
        formatted_transcript = generate_mock_transcript video_id).
Proof.
  intros Hfetch. unfold get_transcript, try_except, bind at 1, get_from.
  rewrite Hfetch. unfold ret at 1.
  assert (Hnan : Exists (fun item => no_number (start item)) transcript_list ->
                 Exists no_start_time transcript_list).
  { intros Hex. apply Exists_exists in Hex as (item & Hin & Hno).
    apply Exists_exists. exists item. split; [assumption|].
    intros h m s. now apply no_number_no_clock. }
  destruct (format_all_outcome transcript_list tr)
    as [(formatted & -> & Hall)|(message & -> & _ & Hno)].
  - exists formatted. split; [reflexivity|]. split.
    + left. split; [assumption|].
      apply Forall_forall. intros item Hin Hitem.
      apply (start_times_exclude _ _ Hall).
      apply Exists_exists. now exists item.
    + intros Hex. exfalso. apply (start_times_exclude _ _ Hall). now apply Hnan.
  - exists (generate_mock_transcript video_id). unfold ret.
    split; [reflexivity|]. split; [now right|reflexivity].
Qed.

Lemma stamp_outcome i tr :
  (exists t, TranscriptAgent.stamp (start i) tr = (Return t, tr)
             /\ stamp_of i {| TranscriptAgent.item := i; TranscriptAgent.timestamp := t |})
  \/ (exists message,
        TranscriptAgent.stamp (start i) tr = (Raise (Failure message), tr)
        /\ conversion_error message /\ no_stamp i).
Proof.
  unfold TranscriptAgent.stamp, no_stamp, stamp_of, stamp_clock_of, int.
  destruct (PyFloat.int_of_float (PyFloat.floor_div (start i) (PyFloat.of_int 60)))
    as [minutes|message] eqn:Hm.
  2: { right. exists message. unfold bind, raise. repeat split.
       - now apply (int_raises _ _ Hm).
       - intros m s [H _]. discriminate H. }
  destruct (PyFloat.int_of_float (PyFloat.modulo (start i) (PyFloat.of_int 60)))
    as [seconds|message] eqn:Hs.
  2: { right. exists message. unfold bind, raise, ret. repeat split.
       - now apply (int_raises _ _ Hs).
       - intros m s [_ H]. discriminate H. }
  left. eexists. unfold bind, ret. split; [reflexivity|].
  split; [reflexivity|]. exists minutes, seconds. now repeat split.
Qed.

Lemma stamp_all_outcome transcript_list tr :
  (exists stamped,
     TranscriptAgent.stamp_all transcript_list tr = (Return stamped, tr)
     /\ Forall2 stamp_of transcript_list stamped)
  \/ (exists message,
        TranscriptAgent.stamp_all transcript_list tr = (Raise (Failure message), tr)
        /\ conversion_error message /\ Exists no_stamp transcript_list).
Proof.
  induction transcript_list as [|i rest IH]; cbn [TranscriptAgent.stamp_all].
  - left. exists []. split; [reflexivity|constructor].
  - unfold bind.
    destruct (stamp_outcome i tr) as [(t & E & Ht)|(message & E & Hm & Hno)]; rewrite E.
    + destruct IH as [(more & E' & Hmore)|(message & E' & Hm & Hno)]; rewrite E'.
      * left. eexists. split; [reflexivity|now constructor].
      * right. exists message. repeat split; [assumption|now apply Exists_cons_tl].
    + right. exists message. repeat split; [assumption|now apply Exists_cons_hd].
Qed.

Lemma stamps_exclude transcript_list stamped :
  Forall2 stamp_of transcript_list stamped ->
  Exists no_stamp transcript_list -> False.
Proof.
  induction 1 as [|i t rest more Ht _ IH]; intros Hex; inversion Hex; subst.
  - destruct Ht as (_ & m & s & Hclock & _). now apply (H0 m s).
  - now apply IH.
Qed.

(** [get_transcript_with_timestamps] sends nothing. When the source has the
    items, it returns them in order, each stamped with the two numbers
    [int(x // 60)] and [int(x % 60)] of its offset [x], the second on two
    digits; or, when one of these conversions raises for some item, it
    raises an HTTP 404 that carries the message of the conversion. An offset
    that is NaN or infinite is such an item. When the source raises, it
    raises an HTTP 404 that carries the message of the source. *)
Theorem stamped_transcript (fetch : source) (video_id : PyStr.text) (tr : trace) :
  match fetch video_id with
  | inl transcript_list =>
      ((exists stamped,
          TranscriptAgent.get_transcript_with_timestamps fetch video_id tr
          = (Return stamped, tr)
          /\ Forall2 stamp_of transcript_list stamped
          /\ Forall (fun i => ~ no_stamp i) transcript_list)
       \/ (exists message,
             TranscriptAgent.get_transcript_with_timestamps fetch video_id tr
             = (Raise (HTTPException 404
                         (s2l "Failed to get transcript with timestamps: " ++ message)),
                tr)
             /\ conversion_error message
             /\ Exists no_stamp transcript_list))
      /\ (Exists (fun i => no_number (start i)) transcript_list ->
          exists message,
            TranscriptAgent.get_transcript_with_timestamps fetch video_id tr
            = (Raise (HTTPException 404
                        (s2l "Failed to get transcript with timestamps: " ++ message)),
               tr)
            /\ conversion_error message)
  | inr message =>
      TranscriptAgent.get_transcript_with_timestamps fetch video_id tr
      = (Raise (HTTPException 404
                  (s2l "Failed to get transcript with timestamps: " ++ message)),
         tr)
  end.
Proof.
  destruct (fetch video_id) as [transcript_list|message] eqn:Hfetch.
  2: { unfold TranscriptAgent.get_transcript_with_timestamps, try_except, bind, get_from.
       now rewrite Hfetch. }
  assert (Hrun : TranscriptAgent.get_transcript_with_timestamps fetch video_id tr
                 = match TranscriptAgent.stamp_all transcript_list tr with
                   | (Return stamped, tr') => (Return stamped, tr')
                   | (Raise e, tr') =>
                       (Raise (HTTPException 404
                                 (s2l "Failed to get transcript with timestamps: "
                                    ++ str_of_exn e)), tr')
                   end).
  { unfold TranscriptAgent.get_transcript_with_timestamps, try_except, bind at 1, get_from.
    rewrite Hfetch. unfold ret at 1.
    now destruct (TranscriptAgent.stamp_all transcript_list tr) as [[stamped|e] tr']. }
  rewrite Hrun. clear Hrun.
  assert (Hnan : Exists (fun i => no_number (start i)) transcript_list ->
                 Exists no_stamp transcript_list).
  { intros Hex. apply Exists_exists in Hex as (i & Hin & Hno).
    apply Exists_exists. exists i. split; [assumption|].
    intros m s. now apply no_number_no_stamp. }
  destruct (stamp_all_outcome transcript_list tr)
    as [(stamped & -> & Hall)|(message & -> & Hm & Hno)].
  - split.
    + left. exists stamped. repeat split; [assumption|].
      apply Forall_forall. intros i Hin Hi.
      apply (stamps_exclude _ _ Hall). apply Exists_exists. now exists i.
    + intros Hex. exfalso. apply (stamps_exclude _ _ Hall). now apply Hnan.
  - cbn [str_of_exn]. split.
    + right. exists message. now repeat split.
    + intros _. exists message. now split.
Qed.

End StartTimes.

Lemma formatted_start_times_witness :
  one_video (s2l "dQw4w9WgXcQ") = inl sample_captions
  /\ exists formatted_transcript,
       Transcripts.get_transcript true one_video (s2l "dQw4w9WgXcQ") []
       = (Return formatted_transcript, [])
       /\ ((Forall2 start_time_of sample_captions formatted_transcript
            /\ Forall (fun item => ~ no_start_time item) sample_captions)
           \/ (formatted_transcript
               = Transcripts.generate_mock_transcript (s2l "dQw4w9WgXcQ")
               /\ Exists no_start_time sample_captions))
       /\ (Exists (fun item => no_number (Transcripts.start item)) sample_captions ->
           formatted_transcript = Transcripts.generate_mock_transcript (s2l "dQw4w9WgXcQ")).
Proof.
  assert (H : one_video (s2l "dQw4w9WgXcQ") = inl sample_captions) by reflexivity.
  split; [exact H|].
  exact (formatted_start_times one_video (s2l "dQw4w9WgXcQ") sample_captions [] H).
Defined.

(** The three captions, formatted and stamped. *)
Example sample_start_times :
  Transcripts.get_transcript true one_video (s2l "dQw4w9WgXcQ") []
  = (Return [ Transcripts.mock_line "0:00:00" "Hello.";
              Transcripts.mock_line "0:01:01" "One minute in.";
              Transcripts.mock_line "1:02:05" "Past the hour." ], [])
  /\ exists stamped,
       TranscriptAgent.get_transcript_with_timestamps one_video (s2l "dQw4w9WgXcQ") []
       = (Return stamped, [])
       /\ map TranscriptAgent.timestamp stamped = [s2l "0:00"; s2l "1:01"; s2l "62:05"].
Proof. split; [vm_compute; reflexivity|]. eexists. split; vm_compute; reflexivity. Qed.

(** An offset just below zero, [-2 ** -70]: the remainders [x % 3600] and
    [x % 60] round to 3600.0 and 60.0, so both functions print 60 for the
    minutes and the seconds. *)
Example start_time_just_below_zero :
  Transcripts.format_segment
    {| Transcripts.start := PyFloat.scaled (-1) (-70); Transcripts.text_of := s2l "x" |} []
  = (Return (Transcripts.mock_line "-1:60:60" "x"), [])
  /\ TranscriptAgent.stamp (PyFloat.scaled (-1) (-70)) [] = (Return (s2l "-1:60"), []).
Proof. split; vm_compute; reflexivity. Qed.

(** A caption whose offset is NaN: [get_transcript] answers with the mock
    transcript, [get_transcript_with_timestamps] with an HTTP 404. *)
Example captions_without_offset :
  Transcripts.get_transcript true broken_video (s2l "dQw4w9WgXcQ") []
  = (Return (Transcripts.generate_mock_transcript (s2l "dQw4w9WgXcQ")), [])
  /\ TranscriptAgent.get_transcript_with_timestamps broken_video (s2l "dQw4w9WgXcQ") []
     = (Raise (HTTPException 404
                 (s2l "Failed to get transcript with timestamps: cannot convert float NaN to integer")),
        []).
Proof. split; vm_compute; reflexivity. Qed.

(** ** Key points picked from the formatted transcript *)

Section PickedKeyPoints.
Import Transcripts KeyPoints KeyPointExtraction.

(** From a transcript of more than three entries [simple_extract_key_points]
    picks exactly three: the entries at the positions [n / 4], [n / 2] and
    [3 * n / 4] (rounded down, counted from 0) of a transcript of [n]
    entries. These positions are different and rise, so the key points are
    three different entries in the order of the transcript, and each key
    point carries the start time and the text of its entry. A shorter
    transcript gives no key point. *)
Theorem three_key_points_in_order (transcript : list formatted_segment) :
  (len transcript <= 3 -> api_simple_extract_key_points transcript = [])
  /\ (3 < len transcript ->
      let n := len transcript in
      (0 < n / 4 < n / 2 /\ n / 2 < 3 * n / 4 < n)
      /\ exists a b c,
           nth_error transcript (Z.to_nat (n / 4)) = Some a
           /\ nth_error transcript (Z.to_nat (n / 2)) = Some b
           /\ nth_error transcript (Z.to_nat (3 * n / 4)) = Some c
           /\ api_simple_extract_key_points transcript
              = [ {| timestamp := startTime a; point := text a |};
                  {| timestamp := startTime b; point := text b |};
                  {| timestamp := startTime c; point := text c |} ]).
Proof.
  unfold api_simple_extract_key_points. split; intros Hlen.
  - now replace (3 <? len transcript) with false by (symmetry; apply Z.ltb_ge; lia).
  - replace (3 <? len transcript) with true by (symmetry; apply Z.ltb_lt; lia).
    cbv zeta. set (n := len transcript) in *.
    assert (Hq : 1 <= n / 4) by (apply Z.div_le_lower_bound; lia).
    assert (Hh : n / 4 < n / 2).
    { pose proof (Z.div_mod n 4 ltac:(lia)). pose proof (Z.mod_pos_bound n 4 ltac:(lia)).
      pose proof (Z.div_mod n 2 ltac:(lia)). pose proof (Z.mod_pos_bound n 2 ltac:(lia)).
      lia. }
    assert (Ht : n / 2 < 3 * n / 4).
    { pose proof (Z.div_mod (3 * n) 4 ltac:(lia)).
      pose proof (Z.mod_pos_bound (3 * n) 4 ltac:(lia)).
      pose proof (Z.div_mod n 2 ltac:(lia)). pose proof (Z.mod_pos_bound n 2 ltac:(lia)).
      lia. }
    assert (Hl : 3 * n / 4 < n).
    { apply Z.div_lt_upper_bound; lia. }
    assert (Hnth : forall idx, 0 <= idx < n ->
              exists x, nth_error transcript (Z.to_nat idx) = Some x).
    { intros idx Hidx. destruct (nth_error transcript (Z.to_nat idx)) as [x|] eqn:E;
        [now exists x|].
      apply nth_error_None in E. unfold n, len in Hidx. lia. }
    destruct (Hnth (n / 4) ltac:(lia)) as [a Ha].
    destruct (Hnth (n / 2) ltac:(lia)) as [b Hb].
    destruct (Hnth (3 * n / 4) ltac:(lia)) as [c Hc].
    split; [lia|].
    exists a, b, c.
    repeat split; try assumption.
    cbn [flat_map]. rewrite Ha, Hb, Hc.
    replace (n / 4 <? n) with true by (symmetry; apply Z.ltb_lt; lia).
    replace (n / 2 <? n) with true by (symmetry; apply Z.ltb_lt; lia).
    replace (3 * n / 4 <? n) with true by (symmetry; apply Z.ltb_lt; lia).
    reflexivity.
Qed.

End PickedKeyPoints.

(** ** Splitting at one character *)

Section SplitAtCharacter.

Lemma split_on_char_cons c x s :
  split_on [c] (x :: s)
  = if Ascii.eqb x c then [] :: split_on [c] s else cons_head x (split_on [c] s).
Proof.
  unfold split_on. cbn [split_on_from starts_with length Nat.pred].
  rewrite andb_true_r. reflexivity.
Qed.

(** A text that does not hold the separator is one piece. *)
Lemma split_on_char_none c s :
  existsb (is_char c) s = false -> split_on [c] s = [s].
Proof.
  induction s as [|x s IH]; [reflexivity|]. cbn [existsb]. intros H.
  apply orb_false_iff in H as [Hx Hs]. rewrite split_on_char_cons.
  unfold is_char in Hx. rewrite Hx, IH by assumption. reflexivity.
Qed.

(** The first piece runs up to the first separator. *)
Lemma split_on_char_app c a b :
  existsb (is_char c) a = false ->
  split_on [c] (a ++ c :: b) = a :: split_on [c] b.
Proof.
  induction a as [|x a IH]; cbn [existsb app]; intros H.
  - rewrite split_on_char_cons. now rewrite Ascii.eqb_refl.
  - apply orb_false_iff in H as [Hx Ha]. rewrite split_on_char_cons.
    unfold is_char in Hx. rewrite Hx, IH by assumption. reflexivity.
Qed.

(** The last piece is what follows the last separator. *)
Lemma split_on_char_last c pre s :
  exists p ps,
    split_on [c] (pre ++ c :: s) = p :: ps
    /\ ps <> []
    /\ last ps [] = last (split_on [c] s) [].
Proof.
  pose proof (split_on_from_nonempty [c] s 0) as Hne. fold (split_on [c] s) in Hne.
  induction pre as [|x pre (p & ps & IH & Hps & Hlast)]; cbn [app].
  - rewrite split_on_char_cons, Ascii.eqb_refl.
    exists [], (split_on [c] s). repeat split. assumption.
  - rewrite split_on_char_cons, IH. destruct (Ascii.eqb x c).
    + exists [], (p :: ps). repeat split; [discriminate|].
      destruct ps; [congruence|]. exact Hlast.
    + exists (x :: p), ps. repeat split; assumption.
Qed.

Lemma last_piece c pre s :
  existsb (is_char c) s = false ->
  last (split_on [c] (pre ++ c :: s)) [] = s.
Proof.
  intros Hs. destruct (split_on_char_last c pre s) as (p & ps & -> & Hps & Hlast).
  rewrite split_on_char_none in Hlast by assumption.
  destruct ps; [congruence|]. exact Hlast.
Qed.

End SplitAtCharacter.

(** ** Reading integers and timestamps back *)

Section ReadingNumbers.
Import PyInt SimpleAppText KeyPointExtraction.

Lemma digit_is_no_sign c :
  is_digit c = true -> is_char "-" c = false /\ is_char "+" c = false.
Proof.
  destruct c as [[] [] [] [] [] [] [] []]; vm_compute; intros H;
    first [split; reflexivity | discriminate H].
Qed.

Lemma digit_is_no_int_space c : is_digit c = true -> int_space c = false.
Proof.
  destruct c as [[] [] [] [] [] [] [] []]; vm_compute; intros H;
    first [reflexivity | discriminate H].
Qed.

Lemma drop_int_space_clean s :
  match s with [] => True | c :: _ => int_space c = false end ->
  drop_int_space s = s.
Proof. destruct s as [|c s]; simpl; [reflexivity|]. now intros ->. Qed.

(** Digits have no whitespace for [int] to drop. *)
Lemma digits_keep_all s :
  forallb is_digit s = true -> rev (drop_int_space (rev (drop_int_space s))) = s.
Proof.
  intros H.
  assert (Hall : Forall (fun c => int_space c = false) s).
  { apply Forall_forall. intros c Hc. apply digit_is_no_int_space.
    rewrite forallb_forall in H. auto. }
  rewrite (drop_int_space_clean s) by (destruct Hall; [exact I|assumption]).
  rewrite drop_int_space_clean; [apply rev_involutive|].
  apply Forall_rev in Hall. destruct Hall; [exact I|assumption].
Qed.

Lemma digits_value_uint_acc d : forall acc,
  digits_value (Z.pos acc) true (s2l (NilEmpty.string_of_uint d))
  = Some (Z.pos (Pos.of_uint_acc d acc)).
Proof.
  induction d; intros acc;
    cbn [NilEmpty.string_of_uint s2l list_ascii_of_string Pos.of_uint_acc];
    [reflexivity| | | | | | | | | | ];
    fold (s2l (NilEmpty.string_of_uint d)); cbn [digits_value];
    match goal with
    | |- context [is_digit ?c] => change (is_digit c) with true
    end; cbv beta iota;
    match goal with
    | |- digits_value ?v true _ = Some (Z.pos (Pos.of_uint_acc _ ?a)) =>
        replace v with (Z.pos a)
          by (match goal with
              | |- context [digit_value ?c] =>
                  let k := eval vm_compute in (digit_value c) in
                  change (digit_value c) with k
              end; lia)
    end; apply IHd.
Qed.

Lemma digits_value_uint d : forall after_digit,
  d <> Decimal.Nil \/ after_digit = true ->
  digits_value 0 after_digit (s2l (NilEmpty.string_of_uint d))
  = Some (Z.of_N (Pos.of_uint d)).
Proof.
  induction d; intros after_digit Hd;
    cbn [NilEmpty.string_of_uint s2l list_ascii_of_string Pos.of_uint];
    [destruct Hd as [Hd| ->]; [congruence|reflexivity]| | | | | | | | | | ];
    fold (s2l (NilEmpty.string_of_uint d)); cbn [digits_value];
    match goal with
    | |- context [is_digit ?c] => change (is_digit c) with true
    end; cbv beta iota.
  - change (0 * 10 + digit_value "0") with 0. apply IHd. now right.
  - change (0 * 10 + digit_value "1") with 1. apply digits_value_uint_acc.
  - change (0 * 10 + digit_value "2") with 2. apply digits_value_uint_acc.
  - change (0 * 10 + digit_value "3") with 3. apply digits_value_uint_acc.
  - change (0 * 10 + digit_value "4") with 4. apply digits_value_uint_acc.
  - change (0 * 10 + digit_value "5") with 5. apply digits_value_uint_acc.
  - change (0 * 10 + digit_value "6") with 6. apply digits_value_uint_acc.
  - change (0 * 10 + digit_value "7") with 7. apply digits_value_uint_acc.
  - change (0 * 10 + digit_value "8") with 8. apply digits_value_uint_acc.
  - change (0 * 10 + digit_value "9") with 9. apply digits_value_uint_acc.
Qed.

(** The digits [str] writes are read back as the number. *)
Lemma digits_value_str n after_digit :
  0 <= n -> digits_value 0 after_digit (str_of_Z n) = Some n.
Proof.
  intros Hn. unfold str_of_Z. destruct n as [|p|p]; [reflexivity| |lia].
  cbn [Z.to_int NilZero.string_of_int]. unfold NilZero.string_of_uint.
  pose proof (DecimalPos.Unsigned.to_uint_nonnil p) as Hnil.
  pose proof (DecimalPos.Unsigned.of_to p) as Hback.
  destruct (Pos.to_uint p) eqn:E; try congruence;
    rewrite <- E; rewrite digits_value_uint by (left; congruence);
    rewrite E, Hback; reflexivity.
Qed.

(** [int(str(n))] is [n]. *)
Lemma int_of_str n : 0 <= n -> int_of (str_of_Z n) = Some n.
Proof.
  intros Hn. destruct (str_of_Z_digits n Hn) as [Hne Hd]. unfold int_of.
  rewrite digits_keep_all by assumption.
  pose proof (digits_value_str n false Hn) as Hv.
  destruct (str_of_Z n) as [|c rest]; [congruence|].
  cbn [forallb] in Hd. apply andb_true_iff in Hd as [Hc _].
  destruct (digit_is_no_sign c Hc) as [-> ->]. exact Hv.
Qed.

(** Zeros in front change nothing. *)
Lemma int_of_two_digits n : 0 <= n -> int_of (Transcripts.two_digits n) = Some n.
Proof.
  intros Hn. unfold Transcripts.two_digits.
  destruct (_ && _)%bool; [|now apply int_of_str].
  destruct (str_of_Z_digits n Hn) as [Hne Hd]. unfold int_of.
  rewrite digits_keep_all
    by (cbn [app s2l list_ascii_of_string forallb]; now rewrite Hd).
  cbn [app s2l list_ascii_of_string].
  change (is_char "-" "0") with false. change (is_char "+" "0") with false.
  cbv beta iota. cbn [digits_value]. change (is_digit "0") with true. cbv beta iota.
  change (0 * 10 + digit_value "0") with 0. now apply digits_value_str.
Qed.

(** Round trip: a timestamp written as [f"{minutes}:{seconds:02d}"] is read
    back as the seconds it stands for. The numbers stay within the length
    the interpreter converts. *)
Theorem timestamp_round_trip (minutes seconds : Z) :
  0 <= minutes < 10 ^ 4300 ->
  0 <= seconds < 10 ^ 4300 ->
  _timestamp_to_seconds (clock minutes seconds) = Some (minutes * 60 + seconds).
Proof.
  intros [Hm _] [Hs _]. unfold _timestamp_to_seconds, clock.
  destruct (str_of_Z_digits minutes Hm) as [_ Hdm].
  change (s2l ":" ++ Transcripts.two_digits seconds)
    with (":"%char :: Transcripts.two_digits seconds).
  change (s2l ":") with [":"%char].
  rewrite split_on_char_app by now apply digits_hold_no_colon.
  rewrite split_on_char_none
    by (apply digits_hold_no_colon; now apply two_digits_digits).
  now rewrite int_of_str, int_of_two_digits.
Qed.

Lemma timestamp_round_trip_witness :
  0 <= 12 < 10 ^ 4300
  /\ 0 <= 5 < 10 ^ 4300
  /\ _timestamp_to_seconds (clock 12 5) = Some (12 * 60 + 5).
Proof.
  assert (H1 : 0 <= 12 < 10 ^ 4300) by (split; vm_compute; [discriminate|reflexivity]).
  assert (H2 : 0 <= 5 < 10 ^ 4300) by (split; vm_compute; [discriminate|reflexivity]).
  split; [exact H1|split; [exact H2|]].
  exact (timestamp_round_trip 12 5 H1 H2).
Defined.

End ReadingNumbers.

(** ** The video id, as [api_server.py] reads it *)

Section ApiVideoId.
Import SimpleApp Relevance ApiServer.

Lemma contains_among_id_chars needle s :
  forallb is_id_char needle = false ->
  forallb is_id_char s = true ->
  contains needle s = false.
Proof.
  intros Hneedle. induction s as [|c s IH]; intros Hs.
  - destruct needle; [discriminate|reflexivity].
  - cbn [contains]. destruct (starts_with needle (c :: s)) eqn:E.
    + rewrite (starts_with_forallb is_id_char needle (c :: s) E Hs) in Hneedle.
      discriminate.
    + simpl. apply IH. simpl in Hs. now apply andb_true_iff in Hs.
Qed.

Lemma contains_skip needle pre s :
  no_occurrence_within needle pre s = true ->
  contains needle (pre ++ s) = contains needle s.
Proof.
  induction pre as [|c pre IH]; [reflexivity|].
  cbn [no_occurrence_within]. intros H. apply andb_true_iff in H as [Hc Hpre].
  apply negb_true_iff in Hc. cbn [app contains]. cbn [app] in Hc. rewrite Hc.
  simpl. auto.
Qed.

Lemma id_char_is_no_slash c :
  is_id_char c = true -> is_char "/" c = false /\ is_char "?" c = false.
Proof.
  destruct c as [[] [] [] [] [] [] [] []]; vm_compute; intros H;
    first [split; reflexivity | discriminate H].
Qed.

Lemma id_holds_no_slash id :
  forallb is_id_char id = true ->
  existsb (is_char "/") id = false /\ existsb (is_char "?") id = false.
Proof.
  induction id as [|c id IH]; [split; reflexivity|]. cbn [forallb existsb].
  intros H. apply andb_true_iff in H as [Hc Hid].
  destruct (id_char_is_no_slash c Hc) as [-> ->]. now apply IH.
Qed.

(** Round trip for the extractor of [api_server.py]: a well-formed id is
    returned from the id alone, from a watch URL (when what follows the id
    does not bring in "youtu.be"), and from a short link, with or without a
    query that holds no slash. *)
Theorem api_video_id_round_trip (id rest query : text) :
  well_formed_id id ->
  contains (s2l "youtu.be") (id ++ rest) = false ->
  existsb (is_char "/") query = false ->
  extract_video_id id = Some id
  /\ extract_video_id (s2l "https://www.youtube.com/watch?v=" ++ id ++ rest) = Some id
  /\ extract_video_id (s2l "https://youtu.be/" ++ id) = Some id
  /\ extract_video_id (s2l "https://youtu.be/" ++ id ++ s2l "?" ++ query) = Some id.
Proof.
  intros Hid Hrest Hquery. pose proof (well_formed_id_chars id Hid) as [Hlen Hall].
  destruct (id_holds_no_slash id Hall) as [Hslash Hmark].
  unfold extract_video_id. repeat split.
  - replace (truthy id) with true by now destruct id.
    rewrite contains_among_id_chars by first [assumption | reflexivity].
    rewrite search_prefixed_among_id_chars by first [assumption | repeat constructor].
    cbn [negb]. unfold len. rewrite Hlen. reflexivity.
  - change (s2l "https://www.youtube.com/watch?v=" ++ id ++ rest)
      with (s2l "https://www.youtube.com/watch?" ++ s2l "v=" ++ id ++ rest).
    rewrite first_pattern_finds_the_id; [|assumption|now left|].
    + change (s2l "https://www.youtube.com/watch?" ++ s2l "v=" ++ id ++ rest)
        with (s2l "https://www.youtube.com/watch?v=" ++ id ++ rest).
      rewrite contains_skip by (vm_compute; reflexivity).
      rewrite Hrest. reflexivity.
    + destruct id as [|c1 [|c2 [|c3 [|c4 [|c5 [|c6 [|c7 [|c8 [|c9 [|c10 [|c11 [|]]]]]]]]]]]];
        try discriminate Hlen.
      vm_compute; reflexivity.
  - replace (contains (s2l "youtu.be") (s2l "https://youtu.be/" ++ id)) with true
      by (vm_compute; reflexivity).
    cbn [truthy negb app s2l list_ascii_of_string].
    change ("h" :: "t" :: "t" :: "p" :: "s" :: ":" :: "/" :: "/" :: "y" :: "o" :: "u"
              :: "t" :: "u" :: "." :: "b" :: "e" :: "/" :: id)%char
      with (s2l "https://youtu.be" ++ "/"%char :: id).
    change (s2l "/") with ["/"%char]. rewrite last_piece by assumption.
    change (s2l "?") with ["?"%char]. now rewrite split_on_char_none.
  - replace (contains (s2l "youtu.be") (s2l "https://youtu.be/" ++ id ++ s2l "?" ++ query))
      with true by (vm_compute; reflexivity).
    cbn [truthy negb app s2l list_ascii_of_string].
    change ("h" :: "t" :: "t" :: "p" :: "s" :: ":" :: "/" :: "/" :: "y" :: "o" :: "u"
              :: "t" :: "u" :: "." :: "b" :: "e" :: "/" :: id ++ "?" :: query)%char
      with (s2l "https://youtu.be" ++ "/"%char :: id ++ "?"%char :: query).
    change (s2l "/") with ["/"%char].
    rewrite last_piece
      by (rewrite existsb_app; cbn [existsb]; rewrite Hslash, Hquery; reflexivity).
    change (s2l "?") with ["?"%char]. now rewrite split_on_char_app.
Qed.

Lemma api_video_id_round_trip_witness :
  well_formed_id (s2l "dQw4w9WgXcQ")
  /\ contains (s2l "youtu.be") (s2l "dQw4w9WgXcQ" ++ s2l "&t=10s") = false
  /\ existsb (is_char "/") (s2l "t=10") = false
  /\ extract_video_id (s2l "dQw4w9WgXcQ") = Some (s2l "dQw4w9WgXcQ")
  /\ extract_video_id
       (s2l "https://www.youtube.com/watch?v=" ++ s2l "dQw4w9WgXcQ" ++ s2l "&t=10s")
     = Some (s2l "dQw4w9WgXcQ")
  /\ extract_video_id (s2l "https://youtu.be/" ++ s2l "dQw4w9WgXcQ")
     = Some (s2l "dQw4w9WgXcQ")
  /\ extract_video_id (s2l "https://youtu.be/" ++ s2l "dQw4w9WgXcQ" ++ s2l "?" ++ s2l "t=10")
     = Some (s2l "dQw4w9WgXcQ").
Proof.
  assert (H1 : well_formed_id (s2l "dQw4w9WgXcQ")).
  { split; [reflexivity|].
    repeat (apply Forall_cons; [apply is_id_char_alphabet; reflexivity|]). constructor. }
  assert (H2 : contains (s2l "youtu.be") (s2l "dQw4w9WgXcQ" ++ s2l "&t=10s") = false)
    by reflexivity.
  assert (H3 : existsb (is_char "/") (s2l "t=10") = false) by reflexivity.
  split; [exact H1|split; [exact H2|split; [exact H3|]]].
  exact (api_video_id_round_trip (s2l "dQw4w9WgXcQ") (s2l "&t=10s") (s2l "t=10") H1 H2 H3).
Defined.

End ApiVideoId.

(** ** Words in chunks, and word positions in segments *)

Section WordChunks.
Import PyList SimpleAppText.

Lemma strides_upto_concat {A} n : (0 < n)%nat -> forall fuel (l : list A),
  (length l <= fuel)%nat -> concat (strides_upto fuel n l) = l.
Proof.
  intros Hn; induction fuel as [|fuel IH]; intros l Hl.
  - destruct l; [reflexivity|simpl in Hl; lia].
  - destruct l as [|x l]; [reflexivity|].
    cbn [strides_upto concat].
    rewrite IH; [apply firstn_skipn|].
    rewrite length_skipn. simpl length in *. lia.
Qed.

Lemma strides_upto_bound {A} n : (0 < n)%nat -> forall fuel (l : list A),
  Forall (fun group => group <> [] /\ (length group <= n)%nat) (strides_upto fuel n l).
Proof.
  intros Hn; induction fuel as [|fuel IH]; intros l; [constructor|].
  destruct l as [|x l]; [constructor|].
  cbn [strides_upto]. constructor; [|apply IH].
  split; [destruct n; [lia|discriminate]|].
  rewrite length_firstn; lia.
Qed.

Lemma joined_groups_words (groups : list (list text)) :
  Forall a_word (concat groups) ->
  concat (map split (map (join (s2l " ")) groups)) = concat groups.
Proof.
  induction groups as [|g groups IH]; [reflexivity|]. cbn [concat map].
  intros H. apply Forall_app in H as [Hg Hrest].
  now rewrite split_join_words, IH.
Qed.

(** For a positive [max_length], the chunks carry the words of the text,
    every one and in order; no chunk is empty and none has more than
    [max_length] words. *)
Theorem word_chunks_keep_the_words (t : text) (max_length : Z) :
  0 < max_length ->
  exists chunks,
    _split_text_into_chunks t max_length = Some chunks
    /\ concat (map split chunks) = split t
    /\ Forall (fun chunk => 1 <= word_count chunk <= max_length) chunks.
Proof.
  intros Hn. unfold _split_text_into_chunks.
  replace (max_length =? 0) with false by (symmetry; apply Z.eqb_neq; lia).
  replace (max_length <? 0) with false by (symmetry; apply Z.ltb_ge; lia).
  eexists; split; [reflexivity|].
  assert (Hpos : (0 < Z.to_nat max_length)%nat) by lia.
  pose proof (strides_upto_concat (Z.to_nat max_length) Hpos
                (length (split t)) (split t) (le_n _)) as Hconcat.
  pose proof (strides_upto_bound (Z.to_nat max_length) Hpos
                (length (split t)) (split t)) as Hbound.
  fold (strides (Z.to_nat max_length) (split t)) in Hconcat, Hbound.
  assert (Hwords : Forall a_word (concat (strides (Z.to_nat max_length) (split t))))
    by (rewrite Hconcat; apply split_words).
  split.
  - now rewrite joined_groups_words.
  - apply Forall_forall. intros chunk Hchunk.
    apply in_map_iff in Hchunk as (group & <- & Hgroup).
    rewrite Forall_forall in Hbound. destruct (Hbound group Hgroup) as [Hne Hlen].
    unfold word_count. rewrite split_join_words.
    + unfold len. destruct group; [congruence|]. simpl length in *. lia.
    + apply Forall_forall. intros w Hw. rewrite Forall_forall in Hwords.
      apply Hwords, in_concat. now exists group.
Qed.

Lemma word_chunks_keep_the_words_witness :
  0 < 3
  /\ exists chunks,
       _split_text_into_chunks (s2l "a b c d e f g h") 3 = Some chunks
       /\ concat (map split chunks) = split (s2l "a b c d e f g h")
       /\ Forall (fun chunk => 1 <= word_count chunk <= 3) chunks.
Proof.
  assert (H : 0 < 3) by lia.
  split; [exact H|].
  exact (word_chunks_keep_the_words (s2l "a b c d e f g h") 3 H).
Defined.

(** While the positions fit, the loop neither stops nor clips. *)
Lemma segments_loop_fitting size total indices rest :
  Forall (fun i => 0 <= i /\ i * size + size <= total) indices ->
  0 < size ->
  segments_loop size total (indices ++ rest)
  = map (fun i => (i * size, i * size + size)) indices
    ++ segments_loop size total rest.
Proof.
  intros Hfit Hsize. induction Hfit as [|i indices [Hi Hend] _ IH]; [reflexivity|].
  cbn [app segments_loop map].
  replace (total <=? i * size) with false by (symmetry; apply Z.leb_gt; nia).
  rewrite Z.min_l by lia. now rewrite IH.
Qed.

Lemma segments_loop_stops size total i rest :
  total <= i * size -> segments_loop size total (i :: rest) = [].
Proof.
  intros H. cbn [segments_loop].
  now replace (total <=? i * size) with true by (symmetry; apply Z.leb_le; lia).
Qed.

Lemma range_app a b : range (a + b) = range a ++ map Z.of_nat (seq a b).
Proof. unfold range. now rewrite seq_app, map_app. Qed.

(** For a positive [num_segments], the segments are
    [min(num_segments, total_words)] pairs of equal width
    [max(1, total_words // num_segments)], one after the other from
    position 0: no pair is clipped at the end of the transcript, and fewer
    than [num_segments] words at the end are left out. *)
Theorem segment_positions (transcript : text) (num_segments : Z) :
  0 < num_segments ->
  let total_words := word_count transcript in
  let segment_size := Z.max 1 (total_words / num_segments) in
  let count := Z.min num_segments total_words in
  _split_transcript_into_segments transcript num_segments
  = Some (map (fun i => (i * segment_size, i * segment_size + segment_size))
            (range (Z.to_nat count)))
  /\ count * segment_size <= total_words < count * segment_size + num_segments.
Proof.
  intros Hn total_words segment_size count. unfold _split_transcript_into_segments.
  replace (num_segments =? 0) with false by (symmetry; apply Z.eqb_neq; lia).
  fold (word_count transcript). fold total_words. fold segment_size.
  assert (Htotal : 0 <= total_words) by apply len_nonneg.
  assert (Hsize : 0 < segment_size) by (unfold segment_size; lia).
  pose proof (Z.div_mod total_words num_segments ltac:(lia)) as Hdiv.
  pose proof (Z.mod_pos_bound total_words num_segments Hn) as Hmod.
  assert (Hq : 0 <= total_words / num_segments) by (apply Z.div_pos; lia).
  assert (Hcover : count * segment_size <= total_words
                   /\ total_words < count * segment_size + num_segments).
  { unfold count, segment_size.
    destruct (Z_lt_ge_dec total_words num_segments) as [Hlt|Hge].
    - rewrite (Z.div_small total_words num_segments) by lia.
      rewrite Z.min_r, Z.max_l by lia. lia.
    - assert (1 <= total_words / num_segments) by (apply Z.div_le_lower_bound; lia).
      rewrite Z.min_l, Z.max_r by lia. nia. }
  split; [|exact Hcover].
  f_equal.
  replace (Z.to_nat num_segments)
    with (Z.to_nat count + (Z.to_nat num_segments - Z.to_nat count))%nat
    by (unfold count; lia).
  rewrite range_app, segments_loop_fitting; [|  |assumption].
  - replace (segments_loop segment_size total_words
               (map Z.of_nat (seq (Z.to_nat count) (Z.to_nat num_segments - Z.to_nat count))))
      with (@nil (Z * Z)); [now rewrite app_nil_r|].
    destruct (Z.to_nat num_segments - Z.to_nat count)%nat as [|k] eqn:Hk; [reflexivity|].
    cbn [seq map]. rewrite segments_loop_stops; [reflexivity|].
    assert (count = total_words) by (unfold count in *; lia).
    assert (segment_size = 1).
    { unfold segment_size. rewrite (Z.div_small total_words num_segments) by lia. lia. }
    lia.
  - apply Forall_forall. intros i Hi. apply in_range_bounds in Hi. nia.
Qed.

Lemma segment_positions_witness :
  0 < 5
  /\ SimpleAppText._split_transcript_into_segments (sample_words 11) 5
     = Some [(0, 2); (2, 4); (4, 6); (6, 8); (8, 10)].
Proof.
  assert (H : 0 < 5) by lia.
  split; [exact H|].
  pose proof (segment_positions (sample_words 11) 5 H) as [Hsegments _].
  exact Hsegments.
Defined.

End WordChunks.

(** ** The summary agent reads the first 15000 words *)

Section Truncation.

Variable api : endpoint.
Variable api_key : text.
Variable simple_summarize : text -> Z -> text.
Variable lexrank_summarize : text -> Z -> option text.

Lemma len_firstn_exact {A} (n : Z) (l : list A) :
  0 <= n <= len l -> len (firstn (Z.to_nat n) l) = n.
Proof. intros H. unfold len in *. rewrite length_firstn. lia. Qed.

(** Of a transcript of more than 15000 words, the summary depends on the
    first 15000 words only: the words after them, and the whitespace
    between the words, change neither the summary nor the requests sent. *)
Theorem summary_reads_the_first_15000_words (transcript video_title : text) (tr : trace) :
  15000 < word_count transcript ->
  let head := join (s2l " ") (firstn (Z.to_nat 15000) (split transcript)) in
  word_count head = 15000
  /\ ImprovedSummaryAgent.process_summary_text api api_key simple_summarize
       lexrank_summarize transcript video_title tr
     = ImprovedSummaryAgent.process_summary_text api api_key simple_summarize
         lexrank_summarize head video_title tr.
Proof.
  intros Hlong head.
  assert (Hhead : split head = firstn (Z.to_nat 15000) (split transcript))
    by (apply split_join_words, Forall_firstn, split_words).
  assert (Hcount : word_count head = 15000).
  { unfold word_count. rewrite Hhead. apply len_firstn_exact.
    unfold word_count in Hlong. lia. }
  split; [exact Hcount|].
  unfold ImprovedSummaryAgent.process_summary_text.
  unfold word_count in Hlong, Hcount.
  replace (15000 <? len (split transcript)) with true by (symmetry; apply Z.ltb_lt; lia).
  replace (15000 <? len (split head)) with false by (symmetry; apply Z.ltb_ge; lia).
  reflexivity.
Qed.

End Truncation.

Lemma summary_reads_the_first_15000_words_witness :
  15000 < word_count (sample_words (Z.to_nat 15001))
  /\ word_count (join (s2l " ") (firstn (Z.to_nat 15000) (split (sample_words (Z.to_nat 15001)))))
     = 15000.
Proof.
  assert (H : 15000 < word_count (sample_words (Z.to_nat 15001))) by (vm_compute; reflexivity).
  split; [exact H|].
  pose proof (summary_reads_the_first_15000_words failing_api sample_key first_words
                no_lexrank (sample_words (Z.to_nat 15001)) sample_title [] H) as Hthm.
  cbv zeta in Hthm. destruct Hthm as [Hcount _]. exact Hcount.
Defined.

(** ** Timeline suggestions *)

Section TimelineSuggestions.
Import PyList ApiServer.

Lemma insert_by_key_In {A} (key : A -> Z) x y sorted :
  In y (insert_by_key key x sorted) -> y = x \/ In y sorted.
Proof.
  induction sorted as [|z sorted IH]; simpl.
  - intros [<-|[]]; now left.
  - destruct (key x <? key z); simpl.
    + intros [<-|H]; [right; now left|]. destruct (IH H); auto.
    + intros [<-|H]; auto.
Qed.

Lemma sorted_by_falling_key_In {A} (key : A -> Z) y l :
  In y (sorted_by_falling_key key l) -> In y l.
Proof.
  induction l as [|x l IH]; simpl; [easy|].
  intros H. apply insert_by_key_In in H as [->|H]; auto.
Qed.

Lemma In_prefix {A} n (l : list A) x : In x (prefix n l) -> In x l.
Proof.
  unfold prefix. destruct (n <? 0); apply firstn_In.
Qed.

(** With keys 1 and 0, the sort puts the ones first and keeps the order
    within the ones and within the zeros. *)
Lemma insert_by_key_two_valued {A} (key : A -> Z) x ones zeros :
  Forall (fun y => key y = 1) ones ->
  Forall (fun y => key y = 0) zeros ->
  key x = 1 \/ key x = 0 ->
  insert_by_key key x (ones ++ zeros)
  = if key x =? 1 then x :: ones ++ zeros else ones ++ x :: zeros.
Proof.
  intros Hones Hzeros Hx. induction Hones as [|y ones Hy _ IH]; cbn [app].
  - destruct zeros as [|z zeros]; cbn [insert_by_key].
    + destruct (key x =? 1); reflexivity.
    + inversion Hzeros as [|? ? Hz Hzs]; subst. rewrite Hz.
      destruct Hx as [Hx|Hx]; rewrite Hx; reflexivity.
  - cbn [insert_by_key]. rewrite Hy. destruct Hx as [Hx|Hx]; rewrite Hx in *.
    + reflexivity.
    + change (0 <? 1) with true. cbv iota. rewrite IH. reflexivity.
Qed.

Lemma sorted_two_valued {A} (key : A -> Z) l :
  Forall (fun y => key y = 1 \/ key y = 0) l ->
  sorted_by_falling_key key l
  = filter (fun y => key y =? 1) l ++ filter (fun y => negb (key y =? 1)) l.
Proof.
  induction 1 as [|x l Hx Hl IH]; [reflexivity|]. cbn [sorted_by_falling_key fold_right].
  fold (sorted_by_falling_key key l). rewrite IH.
  rewrite insert_by_key_two_valued; try assumption.
  - cbn [filter]. destruct (key x =? 1); reflexivity.
  - apply Forall_forall. intros y Hy. apply filter_In in Hy as [_ Hy]. now apply Z.eqb_eq.
  - apply Forall_forall. intros y Hy. apply filter_In in Hy as [Hin Hy].
    rewrite Forall_forall in Hl. destruct (Hl y Hin) as [H1|H0]; [|assumption].
    rewrite H1 in Hy. discriminate.
Qed.

Lemma suggestions_of_shape keywords e x :
  In x (suggestions_of keywords e) ->
  suggested_text x = up_to 100 (text_of_entry e)
  /\ (relevance x = s2l "high" \/ relevance x = s2l "medium")
  /\ suggested_timestamp x
     = format_timestamp (match entry_start e with Some v => v | None => Some 0%Q end).
Proof.
  unfold suggestions_of, text_of_entry.
  destruct (negb (Qle_bool _ (3 # 10))); [|intros []].
  intros [<-|[]]. cbn [suggested_text relevance suggested_timestamp].
  repeat split. destruct (negb (Qle_bool _ (7 # 10))); auto.
Qed.

Lemma len_up_to n (s : text) : 0 <= n -> len (up_to n s) <= n.
Proof. intros Hn. unfold up_to, len. rewrite length_firstn. lia. Qed.

Lemma suggestion_in_result transcript query x :
  In x (generate_timeline_suggestions transcript query) ->
  exists e, In e transcript
    /\ In x (suggestions_of (extract_keywords_from_query (lower query)) e).
Proof.
  unfold generate_timeline_suggestions. destruct (negb (truthy transcript)); [intros []|].
  intros H. apply In_prefix, sorted_by_falling_key_In, in_flat_map in H. exact H.
Qed.

(** There are at most five suggestions. Each shows the text of an entry of
    the transcript, cut to its first 100 characters. Every suggestion of
    high relevance comes before every suggestion of medium relevance, and
    there is no other relevance. *)
Theorem timeline_suggestions_shape (transcript : list entry) (query : text) :
  let suggestions := generate_timeline_suggestions transcript query in
  len suggestions <= 5
  /\ Forall
       (fun x =>
          len (suggested_text x) <= 100
          /\ exists e, In e transcript /\ suggested_text x = up_to 100 (text_of_entry e))
       suggestions
  /\ exists highs mediums,
       suggestions = highs ++ mediums
       /\ Forall (fun x => relevance x = s2l "high") highs
       /\ Forall (fun x => relevance x = s2l "medium") mediums.
Proof.
  intros suggestions. split; [|split].
  - unfold suggestions, generate_timeline_suggestions.
    destruct (negb (truthy transcript)); [unfold len; simpl; lia|].
    unfold prefix, len. cbn [Z.ltb Z.compare]. rewrite length_firstn. lia.
  - apply Forall_forall. intros x Hx.
    apply suggestion_in_result in Hx as (e & He & Hx).
    apply suggestions_of_shape in Hx as (Htext & _ & _).
    split; [rewrite Htext; apply len_up_to; lia|now exists e].
  - unfold suggestions, generate_timeline_suggestions.
    destruct (negb (truthy transcript)); [exists [], []; repeat split; constructor|].
    set (keywords := extract_keywords_from_query (lower query)).
    set (all := flat_map (suggestions_of keywords) transcript).
    assert (Hall : Forall (fun x => relevance x = s2l "high" \/ relevance x = s2l "medium") all).
    { apply Forall_forall. intros x Hx. apply in_flat_map in Hx as (e & _ & Hx).
      now apply suggestions_of_shape in Hx as (_ & Hr & _). }
    assert (Hkeys : Forall (fun x => relevance_key x = 1 \/ relevance_key x = 0) all).
    { apply Forall_forall. intros x Hx. unfold relevance_key.
      destruct (text_eqb _ _); auto. }
    rewrite sorted_two_valued by assumption.
    unfold prefix. cbn [Z.ltb Z.compare]. rewrite firstn_app.
    eexists; eexists; split; [reflexivity|]. split.
    + apply Forall_firstn, Forall_forall. intros x Hx. apply filter_In in Hx as [Hin Hk].
      rewrite Forall_forall in Hall. destruct (Hall x Hin) as [H|H]; [assumption|].
      unfold relevance_key in Hk. rewrite H in Hk. discriminate.
    + apply Forall_firstn, Forall_forall. intros x Hx. apply filter_In in Hx as [Hin Hk].
      rewrite Forall_forall in Hall. destruct (Hall x Hin) as [H|H]; [|assumption].
      unfold relevance_key in Hk. rewrite H in Hk. discriminate.
Qed.

(** The suggestions for a transcript of [get_transcript] all point at the
    start of the video: its entries hold ['startTime'], the suggestions
    read ['start'], so every timestamp is 00:00. *)
Theorem suggestions_point_at_the_start
    (formatted_transcript : list Transcripts.formatted_segment) (query : text) :
  Forall (fun x => suggested_timestamp x = s2l "00:00")
    (generate_timeline_suggestions (map entry_of formatted_transcript) query).
Proof.
  apply Forall_forall. intros x Hx.
  apply suggestion_in_result in Hx as (e & He & Hx).
  apply suggestions_of_shape in Hx as (_ & _ & ->).
  apply in_map_iff in He as (f & <- & _). reflexivity.
Qed.

End TimelineSuggestions.

(** ** The extractive fallback keeps to the word limit *)

Section FallbackSummary.
Import Chunker OpenAIFallback.

Lemma insert_by_importance_perm key i sorted :
  Permutation (insert_by_importance key i sorted) (i :: sorted).
Proof.
  induction sorted as [|j rest IH]; cbn [insert_by_importance]; [reflexivity|].
  destruct (PrimFloat.ltb (key i) (key j)); [|reflexivity].
  rewrite IH. apply perm_swap.
Qed.

Lemma sorted_by_importance_perm key indices :
  Permutation (sorted_by_importance key indices) indices.
Proof.
  induction indices as [|i rest IH]; [reflexivity|].
  cbn [sorted_by_importance fold_right]. rewrite insert_by_importance_perm.
  now constructor.
Qed.

Lemma insert_ascending_perm i sorted :
  Permutation (insert_ascending i sorted) (i :: sorted).
Proof.
  induction sorted as [|j rest IH]; cbn [insert_ascending]; [reflexivity|].
  destruct (j <? i); [|reflexivity].
  rewrite IH. apply perm_swap.
Qed.

Lemma sorted_ascending_perm indices :
  Permutation (sorted_ascending indices) indices.
Proof.
  induction indices as [|i rest IH]; [reflexivity|].
  cbn [sorted_ascending fold_right]. rewrite insert_ascending_perm.
  now constructor.
Qed.

Lemma insert_ascending_sorted i sorted :
  Sorted.StronglySorted Z.lt sorted -> ~ In i sorted ->
  Sorted.StronglySorted Z.lt (insert_ascending i sorted).
Proof.
  induction 1 as [|j rest Hrest IH Hj]; intros Hi; cbn [insert_ascending].
  - constructor; constructor.
  - destruct (j <? i) eqn:E.
    + apply Z.ltb_lt in E. constructor.
      * apply IH. intros H; apply Hi; now right.
      * eapply Permutation_Forall; [symmetry; apply insert_ascending_perm|].
        now constructor.
    + apply Z.ltb_ge in E.
      assert (i < j) by (assert (i <> j) by (intros ->; apply Hi; now left); lia).
      constructor; [now constructor|]. constructor; [assumption|].
      eapply Forall_impl; [|exact Hj]. intros; lia.
Qed.

Lemma sorted_ascending_sorted indices :
  NoDup indices -> Sorted.StronglySorted Z.lt (sorted_ascending indices).
Proof.
  induction 1 as [|i rest Hi Hrest IH]; [constructor|].
  cbn [sorted_ascending fold_right]. apply insert_ascending_sorted; [assumption|].
  intros H. apply Hi. eapply Permutation_in; [apply sorted_ascending_perm|exact H].
Qed.

Lemma NoDup_range n : NoDup (range n).
Proof.
  induction n as [|n IH]; [constructor|]. rewrite range_S.
  eapply Permutation_NoDup; [apply Permutation_cons_append|].
  constructor; [|assumption]. intros H. apply in_range_bounds in H. lia.
Qed.

(** The loop takes a prefix of the sorted indices. *)
Lemma select_prefix sentences max_words sorted : forall word_count,
  exists rest, sorted = select sentences max_words sorted word_count ++ rest.
Proof.
  induction sorted as [|i rest IH]; intros word_count; cbn [select]; [now exists []|].
  destruct (_ <=? max_words); [|now exists (i :: rest)].
  destruct (IH (word_count + len (split (sentence_at sentences i)))) as [rest' Hrest].
  exists rest'. cbn [app]. now rewrite <- Hrest.
Qed.

Lemma words_at_cons sentences i indices :
  words_at sentences (i :: indices)
  = len (split (sentence_at sentences i)) + words_at sentences indices.
Proof. reflexivity. Qed.

(** What it takes fits the limit. *)
Lemma select_fits sentences max_words sorted : forall word_count,
  select sentences max_words sorted word_count = []
  \/ word_count + words_at sentences (select sentences max_words sorted word_count)
     <= max_words.
Proof.
  induction sorted as [|i rest IH]; intros word_count; cbn [select]; [now left|].
  destruct (_ <=? max_words) eqn:E; [|now left]. right.
  apply Z.leb_le in E. rewrite words_at_cons.
  destruct (IH (word_count + len (split (sentence_at sentences i)))) as [-> |H].
  - change (words_at sentences []) with 0. lia.
  - lia.
Qed.

Lemma words_at_perm sentences l l' :
  Permutation l l' -> words_at sentences l = words_at sentences l'.
Proof.
  induction 1; rewrite ?words_at_cons; lia.
Qed.

Lemma word_count_of_sentences sentences indices :
  word_count (join (s2l " ") (map (sentence_at sentences) indices))
  = words_at sentences indices.
Proof.
  unfold word_count. rewrite split_join_space.
  induction indices as [|i rest IH]; [reflexivity|].
  cbn [map concat]. now rewrite words_at_cons, len_app, IH.
Qed.

(** Of a text of more than three sentences, the fallback summary is made
    of sentences of the text, each at most once and in the order of the
    text, joined by single spaces; it has at most [max_words] words, and no
    word at all when no sentence fits. *)
Theorem fallback_summary_keeps_to_the_limit (t : text) (max_words : Z) :
  let sentences := re_split sentence_boundary t in
  3 < len sentences ->
  exists indices,
    Sorted.StronglySorted Z.lt indices
    /\ Forall (fun i => 0 <= i < len sentences) indices
    /\ _simple_summarize t max_words
       = join (s2l " ") (map (sentence_at sentences) indices)
    /\ word_count (_simple_summarize t max_words) <= Z.max 0 max_words.
Proof.
  intros sentences Hmany. unfold _simple_summarize. fold sentences.
  replace (len sentences <=? 3) with false by (symmetry; apply Z.leb_gt; lia).
  set (key := fun i => importance (len sentences) i (sentence_at sentences i)).
  set (sorted_sentences := sorted_by_importance key (range (length sentences))).
  set (selected := select sentences max_words sorted_sentences 0).
  assert (Hsorted : Permutation sorted_sentences (range (length sentences)))
    by apply sorted_by_importance_perm.
  destruct (select_prefix sentences max_words sorted_sentences 0) as [rest Hrest].
  fold selected in Hrest.
  assert (Hnodup : NoDup selected).
  { apply (NoDup_app_remove_r selected rest). rewrite <- Hrest.
    eapply Permutation_NoDup; [symmetry; exact Hsorted|apply NoDup_range]. }
  assert (Hbounds : Forall (fun i => 0 <= i < len sentences) selected).
  { apply Forall_forall. intros i Hi.
    assert (In i sorted_sentences) by (rewrite Hrest; apply in_or_app; now left).
    apply (Permutation_in _ Hsorted), in_range_bounds in H. unfold len. lia. }
  exists (sorted_ascending selected). repeat split.
  - now apply sorted_ascending_sorted.
  - eapply Permutation_Forall; [symmetry; apply sorted_ascending_perm|exact Hbounds].
  - rewrite word_count_of_sentences.
    rewrite (words_at_perm sentences _ _ (sorted_ascending_perm selected)).
    destruct (select_fits sentences max_words sorted_sentences 0) as [Hnone|Hfits].
    + change (selected = []) in Hnone.
      rewrite Hnone. change (words_at sentences []) with 0. lia.
    + change (0 + words_at sentences selected <= max_words) in Hfits. lia.
Qed.

End FallbackSummary.

Lemma fallback_summary_keeps_to_the_limit_witness :
  3 < len (re_split Chunker.sentence_boundary six_sentences)
  /\ OpenAIFallback._simple_summarize six_sentences 10
     = s2l "One two three four. Five six seven eight."
  /\ word_count (OpenAIFallback._simple_summarize six_sentences 10) <= Z.max 0 10.
Proof.
  assert (H : 3 < len (re_split Chunker.sentence_boundary six_sentences))
    by (vm_compute; reflexivity).
  split; [exact H|].
  pose proof (fallback_summary_keeps_to_the_limit six_sentences 10) as Hthm.
  cbv zeta in Hthm. destruct (Hthm H) as (indices & _ & _ & _ & Hwords).
  split; [vm_compute; reflexivity|exact Hwords].
Defined.
